(** * UniGit: the recursive pull engine, its summary generator and its ledger

    A shallow embedding of [src/UniGit.py]: the methods
    [find_git_repositories], [summarize_with_ollama], [git_pull],
    [git_pull_recursive] and [save_summaries] of class [UniGit], with the
    branch of [pull_repository] that runs a sweep over the current directory.

    Modelling conventions.
    - Python [str] is [string], read as ASCII text: [lower] and [strip]
      are Python's on that range and leave other characters alone.
    - Python [int] is [Z]; [range(n)] runs [Z.to_nat n] times.
    - A subprocess call is an oracle of the environment: it either completes
      with its output or raises one of the exceptions the code distinguishes.
      What [str(e)] is for the error of a command that fails is the message
      of Python's [subprocess] module, module [CheckCall].
    - The instance attributes the engine reads and writes are the record
      [UniGit]; every method takes the record and returns the new one.
    - Logging and printing do not influence control flow; what a call of
      [git_pull] reports is kept as its [pull_outcome]. *)

From Stdlib Require Import String Ascii List ZArith Lia Bool DecimalString.
Import ListNotations.

Local Open Scope string_scope.
Local Open Scope Z_scope.

(* ===================================================================== *)
(** ** Python string operations used by the source *)
(* ===================================================================== *)

Module PyStr.

(** The newline character of the f-strings. *)
Definition nl : string := String (ascii_of_nat 10) EmptyString.

(** [len(s)] *)
Definition len (s : string) : Z := Z.of_nat (String.length s).

(** [s.startswith(p)] *)
Definition startswith (p s : string) : bool := String.prefix p s.

(** [p in s] on strings: [p] occurs in [s] as a contiguous substring. *)
Fixpoint contains (p s : string) : bool :=
  String.prefix p s ||
  match s with
  | EmptyString => false
  | String _ s' => contains p s'
  end.

(** [c.lower()] for one character: only [A]..[Z] change. *)
Definition lower_ascii (c : ascii) : ascii :=
  let n := nat_of_ascii c in
  if ((65 <=? n) && (n <=? 90))%nat then ascii_of_nat (n + 32) else c.

(** [s.lower()] *)
Fixpoint lower (s : string) : string :=
  match s with
  | EmptyString => EmptyString
  | String c s' => String (lower_ascii c) (lower s')
  end.

(** [str.isspace] on one character: tab, line feed, vertical tab, form
    feed, carriage return, the four separators 0x1c..0x1f, and space. *)
Definition is_space (c : ascii) : bool :=
  let n := nat_of_ascii c in
  (((9 <=? n) && (n <=? 13)) || ((28 <=? n) && (n <=? 32)))%nat.

Fixpoint lstrip (s : string) : string :=
  match s with
  | EmptyString => EmptyString
  | String c s' => if is_space c then lstrip s' else s
  end.

Fixpoint rstrip (s : string) : string :=
  match s with
  | EmptyString => EmptyString
  | String c s' =>
      match rstrip s' with
      | EmptyString => if is_space c then EmptyString else String c EmptyString
      | r => String c r
      end
  end.

(** [s.strip()] *)
Definition strip (s : string) : string := rstrip (lstrip s).

(** [s[:n]] *)
Definition take (n : nat) (s : string) : string := String.substring 0 n s.

(** [c * n] for a one-character string [c]. *)
Fixpoint repeat (c : string) (n : nat) : string :=
  match n with
  | O => EmptyString
  | S n' => c ++ repeat c n'
  end.

(** [bool(s)]: a string is truthy when it is not empty. *)
Definition truthy (s : string) : bool := negb (s =? "")%string.

(** The specification's "case-insensitive substring match": some
    contiguous piece of [s] equals [p] once both are lower-cased. *)
Definition ci_substring (p s : string) : Prop :=
  exists a b c, s = a ++ b ++ c /\ lower b = lower p.

(** Exact substring. *)
Definition substring_of (p s : string) : Prop :=
  exists a c, s = a ++ p ++ c.

End PyStr.

(* ===================================================================== *)
(** ** Subprocess oracles *)
(* ===================================================================== *)

(** The exceptions the [except] clauses of the source tell apart.
    [CalledProcessError] carries [str(e)]. *)
Inductive exn : Type :=
| TimeoutExpired
| CalledProcessError (str_e : string)
| FileNotFoundError
| OtherException.

(** Result of one subprocess call. *)
Inductive proc (A : Type) : Type :=
| Ok (a : A)
| Raise (e : exn).
Arguments Ok {A} a.
Arguments Raise {A} e.

(** What the generation service does during one attempt: the liveness
    probe [ollama list] and the call [ollama run <model>] fed with the
    prompt, giving its standard output. *)
Record attempt_env : Type := {
  ollama_list : proc unit;
  ollama_run : string -> string -> proc string
}.

(** Behaviour of the service over the attempts of one call, by attempt
    number. *)
Definition service : Type := Z -> attempt_env.

(* ===================================================================== *)
(** ** Instance state *)
(* ===================================================================== *)

(** One element of [self.summaries]; the dict keys of the source. *)
Record entry : Type := {
  directory : string;
  branch : string;
  summary : string;
  success : bool
}.

(** The attributes of a [UniGit] instance that the engine uses. *)
Record UniGit : Type := {
  enable_summary : bool;
  dry_run : bool;
  model : string;
  max_retries : Z;
  summaries : list entry;
  current_date : string;
  summary_failures : Z
}.

Definition set_summary_failures (self : UniGit) (n : Z) : UniGit :=
  {| enable_summary := enable_summary self; dry_run := dry_run self;
     model := model self; max_retries := max_retries self;
     summaries := summaries self; current_date := current_date self;
     summary_failures := n |}.

Definition set_enable_summary (self : UniGit) (b : bool) : UniGit :=
  {| enable_summary := b; dry_run := dry_run self;
     model := model self; max_retries := max_retries self;
     summaries := summaries self; current_date := current_date self;
     summary_failures := summary_failures self |}.

Definition set_summaries (self : UniGit) (l : list entry) : UniGit :=
  {| enable_summary := enable_summary self; dry_run := dry_run self;
     model := model self; max_retries := max_retries self;
     summaries := l; current_date := current_date self;
     summary_failures := summary_failures self |}.

(** [self.summary_failures += 1] *)
Definition bump_failures (self : UniGit) : UniGit :=
  set_summary_failures self (summary_failures self + 1).

(* ===================================================================== *)
(** ** [summarize_with_ollama] *)
(* ===================================================================== *)

Module Summarizer.
Import PyStr.

(** The [return] statements of the method, in source order. *)
Inductive exit_site : Type :=
| BlankInput        (* return "No commit messages to summarize." *)
| Insufficient      (* return "Summary generation produced insufficient results." *)
| Generated         (* return summary *)
| TimedOut          (* return "Error: Summary generation timed out." *)
| CommandFailed     (* return "Error generating summary: Ollama command failed." *)
| NotInstalled      (* return "Error: Ollama not installed." *)
| Unexpected.       (* return "Error generating summary due to an unexpected issue." *)

(** How one pass through the body of the [for] loop ends. *)
Inductive flow : Type :=
| Continue
| Return (text : string) (site : exit_site).

Definition make_prompt (commit_messages : string) : string :=
  "Summarize these git commits:" ++ nl ++ commit_messages ++ nl ++
  "Provide a concise summary of the changes.".

(** The body of the [try] block. *)
Definition try_body (self : UniGit) (prompt : string) (attempt : Z)
           (env : attempt_env) : proc flow :=
  match ollama_list env with
  | Raise e => Raise e
  | Ok _ =>
      match ollama_run env (model self) prompt with
      | Raise e => Raise e
      | Ok stdout =>
          let summary := strip stdout in
          if negb (truthy summary) || (len summary <? 10) then
            if attempt <? max_retries self then Ok Continue
            else Ok (Return "Summary generation produced insufficient results."
                            Insufficient)
          else
            let summary :=
              if len summary >? 1000 then take 997 summary ++ "..."
              else summary in
            Ok (Return summary Generated)
      end
  end.

(** One iteration: the [try] block followed by its [except] clauses. *)
Definition attempt_once (self : UniGit) (prompt : string) (attempt : Z)
           (env : attempt_env) : UniGit * flow :=
  match try_body self prompt attempt env with
  | Ok f => (self, f)
  | Raise TimeoutExpired =>
      if attempt <? max_retries self then (self, Continue)
      else (bump_failures self,
            Return "Error: Summary generation timed out." TimedOut)
  | Raise (CalledProcessError _) =>
      if attempt <? max_retries self then (self, Continue)
      else (bump_failures self,
            Return "Error generating summary: Ollama command failed."
                   CommandFailed)
  | Raise FileNotFoundError =>
      (bump_failures self, Return "Error: Ollama not installed." NotInstalled)
  | Raise OtherException =>
      if attempt <? max_retries self then (self, Continue)
      else (bump_failures self,
            Return "Error generating summary due to an unexpected issue."
                   Unexpected)
  end.

(** What a call leaves behind: the instance, the returned value ([None]
    is Python's [None], the value of a call that falls off the end of the
    loop) with the [return] statement that produced it, and the number of
    loop iterations that were executed. *)
Record call : Type := {
  self_after : UniGit;
  returned : option (string * exit_site);
  attempts : nat
}.

(** [for attempt in range(...)]: [n] iterations remain, the next one has
    number [attempt], [used] iterations were executed so far. *)
Fixpoint attempts_from (n : nat) (attempt : Z) (self : UniGit)
         (prompt : string) (svc : service) (used : nat) : call :=
  match n with
  | O => {| self_after := self; returned := None; attempts := used |}
  | S n' =>
      match attempt_once self prompt attempt (svc attempt) with
      | (self', Continue) =>
          attempts_from n' (attempt + 1) self' prompt svc (S used)
      | (self', Return text site) =>
          {| self_after := self'; returned := Some (text, site);
             attempts := S used |}
      end
  end.

Definition summarize_with_ollama (self : UniGit) (commit_messages : string)
           (svc : service) : call :=
  if negb (truthy (strip commit_messages)) then
    {| self_after := self;
       returned := Some ("No commit messages to summarize.", BlankInput);
       attempts := 0 |}
  else
    attempts_from (Z.to_nat (max_retries self + 1)) 0 self
                  (make_prompt commit_messages) svc 0.

(** The string the caller receives. *)
Definition value (c : call) : option string :=
  match returned c with
  | Some (text, _) => Some text
  | None => None
  end.

End Summarizer.

(* ===================================================================== *)
(** ** [git_pull] *)
(* ===================================================================== *)

(** What the [git] executable and the generation service do while one
    repository is processed.  [git_log a b opts] stands for
    [git log a..b opts]; [git_pull_cmd] receives the arguments that follow
    [git]. *)
Record repo_env : Type := {
  git_rev_parse_head : proc string;
  git_rev_parse_abbrev_ref : proc string;
  git_fetch : proc unit;
  git_pull_cmd : list string -> proc unit;
  git_rev_parse_head_after : proc string;
  git_log : string -> string -> list string -> proc string;
  ollama : service
}.

(** What a call of [git_pull] reports through its log and print calls. *)
Inductive pull_outcome : Type :=
| DryRunPreview (new_commits : string)
| Forbidden
| PullFailed (error_output : string)
| NoChanges
| UpdatedOnly (new_commits : string)
| SummariesDisabled
| Summarized (e : entry) (site : Summarizer.exit_site) (attempts : nat)
| NoSummaryValue
| GitError (str_e : string)
| UnexpectedError.

Module Engine.
Import PyStr.

(** The test of the inner [except] clause on [error_output = str(e)]. *)
Definition is_forbidden (error_output : string) : bool :=
  contains "403" error_output
  || contains "forbidden" (lower error_output)
  || contains "Permission denied" error_output.

(** The two outer [except] clauses of [git_pull]. *)
Definition outer_except (e : exn) : pull_outcome :=
  match e with
  | CalledProcessError str_e => GitError str_e
  | _ => UnexpectedError
  end.

(** [subprocess.check_output(["git", "log", f"{a}..{b}", "--oneline"],
    ...).strip()] *)
Definition commits_between (env : repo_env) (a b : string) : proc string :=
  match git_log env a b ["--oneline"%string] with
  | Ok out => Ok (strip out)
  | Raise e => Raise e
  end.

(** The argument vector of the pull. *)
Definition pull_argv (pull_submodules : bool) : list string :=
  if pull_submodules then ["pull"; "--recurse-submodules"]%string
  else ["pull"%string].

(** The end of [git_pull], from the test on [new_commits] on: the circuit
    breaker, the call of the generator and the append. *)
Definition summarization_step (self : UniGit) (directory branch : string)
           (new_commits : string) (svc : service) : UniGit * pull_outcome :=
  if truthy new_commits && enable_summary self then
    if summary_failures self >? 3 then
      (if enable_summary self then set_enable_summary self false else self,
       SummariesDisabled)
    else
      let c := Summarizer.summarize_with_ollama self new_commits svc in
      match Summarizer.returned c with
      | None =>
          (* [summary] is [None]: [summary.startswith] raises before the
             append, and the last [except] clause reports it *)
          (Summarizer.self_after c, NoSummaryValue)
      | Some (summary, site) =>
          let e := {| directory := directory; branch := branch;
                      summary := summary;
                      success := negb (startswith "Error" summary) |} in
          (set_summaries (Summarizer.self_after c)
                         (summaries (Summarizer.self_after c) ++ [e]),
           Summarized e site (Summarizer.attempts c))
      end
  else (self, UpdatedOnly new_commits).

Definition git_pull (self : UniGit) (directory : string)
           (pull_submodules : bool) (env : repo_env)
  : UniGit * pull_outcome :=
  match git_rev_parse_head env with
  | Raise e => (self, outer_except e)
  | Ok out_head =>
  let old_head := strip out_head in
  match git_rev_parse_abbrev_ref env with
  | Raise e => (self, outer_except e)
  | Ok out_branch =>
  let branch := strip out_branch in
  if dry_run self then
    match git_fetch env with
    | Raise e => (self, outer_except e)
    | Ok _ =>
        match commits_between env old_head ("origin/" ++ branch) with
        | Raise e => (self, outer_except e)
        | Ok new_commits => (self, DryRunPreview new_commits)
        end
    end
  else
  match git_pull_cmd env (pull_argv pull_submodules) with
  | Raise (CalledProcessError error_output) =>
      if is_forbidden error_output then (self, Forbidden)
      else (self, PullFailed error_output)
  | Raise e => (self, outer_except e)
  | Ok _ =>
  match git_rev_parse_head_after env with
  | Raise e => (self, outer_except e)
  | Ok out_new =>
  let new_head := strip out_new in
  if (old_head =? new_head)%string then (self, NoChanges)
  else
  match commits_between env old_head new_head with
  | Raise e => (self, outer_except e)
  | Ok new_commits =>
      summarization_step self directory branch new_commits (ollama env)
  end end end end end.

(** The calls that went as far as calling the generator. *)
Definition summarizer_called (o : pull_outcome) : bool :=
  match o with
  | Summarized _ _ _ | NoSummaryValue => true
  | _ => false
  end.

(** The live path up to the commit list: the text of the new commits when
    the pull went through and the head moved (the specification's
    [Updated] outcome), [None] otherwise. *)
Definition updated_commits (pull_submodules : bool) (env : repo_env)
  : option string :=
  match git_rev_parse_head env, git_rev_parse_abbrev_ref env,
        git_pull_cmd env (pull_argv pull_submodules),
        git_rev_parse_head_after env with
  | Ok out_head, Ok _, Ok _, Ok out_new =>
      if (strip out_head =? strip out_new)%string then None
      else
        match commits_between env (strip out_head) (strip out_new) with
        | Ok new_commits => Some new_commits
        | Raise _ => None
        end
  | _, _, _, _ => None
  end.

(** A run over repositories in the order they are processed. *)
Fixpoint run (self : UniGit) (pull_submodules : bool)
         (repos : list (string * repo_env)) : UniGit * list pull_outcome :=
  match repos with
  | [] => (self, [])
  | (directory, env) :: rest =>
      let '(self1, o) := git_pull self directory pull_submodules env in
      let '(self2, os) := run self1 pull_submodules rest in
      (self2, o :: os)
  end.

End Engine.

(* ===================================================================== *)
(** ** What [subprocess.check_call] raises *)
(* ===================================================================== *)

Module CheckCall.

(** [repr(s)] of a text without quote, backslash or control character, as
    the arguments of the commands of the source are. *)
Definition repr_str (s : string) : string := "'" ++ s ++ "'".

(** [str(cmd)] of a list of such texts. *)
Definition str_list (cmd : list string) : string :=
  "[" ++ String.concat ", " (map repr_str cmd) ++ "]".

(** ["%d" % n] *)
Definition decimal (n : Z) : string := NilZero.string_of_int (Z.to_int n).

(** [str(e)] of the [CalledProcessError] that [subprocess.check_call(cmd)]
    raises when the command ends with the exit status [returncode], a
    number from 1 to 255.  The message is the one Python's standard library
    formats, [Command '%s' returned non-zero exit status %d.]; the call
    captures no output, so nothing the command prints is part of it.  (A
    command killed by a signal gives another message of the library, which
    names the signal.) *)
Definition str_called_process_error (cmd : list string) (returncode : Z)
  : string :=
  "Command '" ++ str_list cmd ++ "' returned non-zero exit status "
  ++ decimal returncode ++ ".".

(** The exception of a [git] command that ends with that exit status,
    [argv] being the arguments that follow [git]. *)
Definition exit_status (argv : list string) (returncode : Z) : exn :=
  CalledProcessError
    (str_called_process_error ("git"%string :: argv) returncode).

End CheckCall.

(* ===================================================================== *)
(** ** Directory trees, [find_git_repositories] and [git_pull_recursive] *)
(* ===================================================================== *)

(** A directory tree: what [os.listdir], [os.walk] and [Path.is_dir] see.
    Entries are kept in the order the listing returns them.  Symbolic links
    and unreadable directories are outside the model. *)
#[warnings="-register-all"]
Inductive fsnode : Type :=
| File
| Dir (entries : list (string * fsnode)).

(** A path, by its components, from the root or from the directory a scan
    starts at; [directory / item] is [directory ++ [item]]. *)
Definition path : Type := list string.

Module Locator.
Import PyStr.

(** [d.startswith('.')] *)
Definition hidden (d : string) : bool := startswith "." d.

(** First entry of that name, as the file system resolves a name. *)
Fixpoint lookup (name : string) (entries : list (string * fsnode))
  : option fsnode :=
  match entries with
  | [] => None
  | (n, x) :: rest => if (n =? name)%string then Some x else lookup name rest
  end.

(** [(p / ".git").is_dir()] for a directory [p] with these entries. *)
Definition has_git_dir (entries : list (string * fsnode)) : bool :=
  match lookup ".git" entries with
  | Some (Dir _) => true
  | _ => false
  end.

(** [p.is_dir()] *)
Definition is_dir (x : fsnode) : bool :=
  match x with
  | Dir _ => true
  | File => false
  end.

(** The list [dirs] that [os.walk] hands out for a directory. *)
Definition walk_dirs (entries : list (string * fsnode)) : list string :=
  map fst (filter (fun e => is_dir (snd e)) entries).

(** [dirs.remove(x)]: the first occurrence goes. *)
Fixpoint remove_first (x : string) (dirs : list string) : list string :=
  match dirs with
  | [] => []
  | d :: rest => if (d =? x)%string then rest else d :: remove_first x rest
  end.

(** [x in dirs] *)
Definition mem (x : string) (dirs : list string) : bool :=
  existsb (fun d => (d =? x)%string) dirs.

(** The names left in [dirs] at the end of the loop body of
    [find_git_repositories], which [os.walk] then descends into. *)
Definition pruned_dirs (dirs : list string) : list string :=
  let dirs1 := if mem ".git" dirs then remove_first ".git" dirs else dirs in
  filter (fun d => negb (hidden d) || (d =? ".git")%string) dirs1.

(** The walk of [find_git_repositories] below [root].  The inner loop
    goes through the entries of the directory; [removed] tells whether
    [dirs.remove('.git')] has already taken its entry out, so that the
    subdirectories visited are those of [pruned_dirs] (lemma
    [descended_pruned_dirs] below). *)
Fixpoint find_git_repositories (root : path) (x : fsnode) : list path :=
  match x with
  | File => []
  | Dir entries =>
      ((if mem ".git" (walk_dirs entries) then [root] else []) ++
      (fix visit (es : list (string * fsnode)) (removed : bool) : list path :=
         match es with
         | [] => []
         | (d, sub) :: rest =>
             match sub with
             | File => visit rest removed
             | Dir _ =>
                 if (d =? ".git")%string && negb removed then visit rest true
                 else if negb (hidden d) || (d =? ".git")%string
                      then find_git_repositories (root ++ [d])%list sub
                           ++ visit rest removed
                      else visit rest removed
             end
         end) entries false)%list
  end.

(** The inner loop of [find_git_repositories], as a function of its own:
    the same text, with the walk of a subdirectory named instead of bound. *)
Definition visit (root : path)
  : list (string * fsnode) -> bool -> list path :=
  fix visit (es : list (string * fsnode)) (removed : bool) : list path :=
    match es with
    | [] => []
    | (d, sub) :: rest =>
        match sub with
        | File => visit rest removed
        | Dir _ =>
            if (d =? ".git")%string && negb removed then visit rest true
            else if negb (hidden d) || (d =? ".git")%string
                 then (find_git_repositories (root ++ [d]) sub
                       ++ visit rest removed)%list
                 else visit rest removed
        end
    end.

(** The subdirectories that loop descends into. *)
Fixpoint descended (es : list (string * fsnode)) (removed : bool)
  : list (string * fsnode) :=
  match es with
  | [] => []
  | (d, sub) :: rest =>
      match sub with
      | File => descended rest removed
      | Dir _ =>
          if (d =? ".git")%string && negb removed then descended rest true
          else if negb (hidden d) || (d =? ".git")%string
               then (d, sub) :: descended rest removed
               else descended rest removed
      end
  end.

Section Sweep.
(** The sweep is written over any state [St] and any action [pull] on a
    repository path: [git_pull] with the instance as state in a run,
    a log of paths to name the repositories that are pulled. *)
Context {St : Type}.
Variable pull : path -> St -> St.

(** [git_pull_recursive]: the loop over [os.listdir(directory)].  Started
    on something that is not a directory, the listing raises and the last
    [except] clause reports it. *)
Fixpoint git_pull_recursive (directory : path) (x : fsnode) (st : St)
  : St :=
  match x with
  | File => st
  | Dir entries =>
      (fix each (es : list (string * fsnode)) (st : St) : St :=
         match es with
         | [] => st
         | (item, child) :: rest =>
             if hidden item && negb (item =? ".git")%string
             then each rest st
             else
               match child with
               | File => each rest st
               | Dir sub =>
                   if has_git_dir sub
                   then each rest (pull (directory ++ [item])%list st)
                   else each rest
                          (git_pull_recursive (directory ++ [item])%list child st)
               end
         end) entries st
  end.

(** The inner loop of [git_pull_recursive], as a function of its own. *)
Definition each (directory : path)
  : list (string * fsnode) -> St -> St :=
  fix each (es : list (string * fsnode)) (st : St) : St :=
    match es with
    | [] => st
    | (item, child) :: rest =>
        if hidden item && negb (item =? ".git")%string
        then each rest st
        else
          match child with
          | File => each rest st
          | Dir sub =>
              if has_git_dir sub
              then each rest (pull (directory ++ [item])%list st)
              else each rest
                     (git_pull_recursive (directory ++ [item])%list child st)
          end
    end.

End Sweep.

(** The action that notes the path. *)
Definition note (p : path) (log : list path) : list path := (log ++ [p])%list.

(** The repositories a sweep pulls, in order. *)
Definition sweep_targets (directory : path) (x : fsnode) : list path :=
  git_pull_recursive note directory x [].

(** The sweep passes over [item]: hidden, and not [.git]. *)
Definition skipped (item : string) : bool :=
  hidden item && negb (item =? ".git")%string.

(** The paths below [x] at which a sweep started on [x] calls its action:
    each component is an entry the loop does not skip, every directory on
    the way holds no [.git] directory, and the last one does. *)
Fixpoint pulled (x : fsnode) (p : path) : Prop :=
  match p, x with
  | d :: q, Dir entries =>
      exists child,
        In (d, child) entries /\ skipped d = false /\
        match child with
        | File => False
        | Dir sub => if has_git_dir sub then q = [] else pulled child q
        end
  | _, _ => False
  end.

(** Follow a path down a tree. *)
Fixpoint resolve (x : fsnode) (p : path) : option fsnode :=
  match p with
  | [] => Some x
  | d :: p' =>
      match x with
      | File => None
      | Dir entries =>
          match lookup d entries with
          | Some y => resolve y p'
          | None => None
          end
      end
  end.

(** A directory is a repository when it holds a [.git] directory. *)
Definition is_repository (x : fsnode) : bool :=
  match x with
  | File => false
  | Dir entries => has_git_dir entries
  end.

(** No two entries of a directory share a name, at every level. *)
Fixpoint names_unique (x : fsnode) : bool :=
  match x with
  | File => true
  | Dir entries =>
      (fix go (es : list (string * fsnode)) : bool :=
         match es with
         | [] => true
         | (d, child) :: rest =>
             negb (existsb (fun e => (fst e =? d)%string) rest)
             && names_unique child && go rest
         end) entries
  end.

End Locator.

(* ===================================================================== *)
(** ** [save_summaries] and the sweep of [pull_repository] *)
(* ===================================================================== *)

Module Ledger.
Import PyStr.

(** The summary file: [None] when it does not exist, else its text. *)
Definition file : Type := option string.

(** [summary_file.read()] guarded by [exists()], for a file whose lines
    end in a line feed, as every write of this program leaves them: text
    mode would read a carriage return, alone or before a line feed, as a
    line feed. *)
Definition existing_content (f : file) : string :=
  match f with
  | Some c => c
  | None => ""
  end.

(** The first [write] of the rewrite. *)
Definition header (current_date : string) : string :=
  "Date: " ++ current_date ++ nl ++ nl.

(** The three [write] calls for one entry. *)
Definition block (e : entry) : string :=
  ("Directory: " ++ directory e ++ nl) ++
  ("Branch: " ++ branch e ++ nl) ++
  (summary e ++ nl ++ nl).

(** ["-" * 50 + "\n\n"] *)
Definition separator : string := repeat "-" 50 ++ nl ++ nl.

(** The writes of the [for] loop, one after the other. *)
Fixpoint blocks (l : list entry) : string :=
  match l with
  | [] => ""
  | e :: rest => block e ++ blocks rest
  end.

(** [bool(l)]: a list is truthy when it is not empty. *)
Definition nonempty {A : Type} (l : list A) : bool :=
  match l with
  | [] => false
  | _ :: _ => true
  end.

(** [[s for s in self.summaries if s["success"]]] *)
Definition valid_summaries (self : UniGit) : list entry :=
  filter success (summaries self).

(** [save_summaries]: the content of the summary file after a call during
    which no file operation raises.  Errors of the file system are outside
    the model: the rewrite opens the file for writing before it writes, so
    a write that raises, reported by the [except] clause, leaves a file
    that has lost its earlier content. *)
Definition save_summaries (self : UniGit) (f : file) : file :=
  if negb (nonempty (summaries self)) || negb (enable_summary self)
     || dry_run self
  then f
  else
    let valid := valid_summaries self in
    if negb (nonempty valid) then f
    else
      let existing := existing_content f in
      Some (header (current_date self) ++ blocks valid ++
            (if truthy existing then separator ++ existing else "")).

End Ledger.

Module Menu.

(** What the environment holds for each repository, by its absolute
    path. *)
Definition world : Type := path -> repo_env.

(** [str(directory)] for an absolute path, given by its components. *)
Fixpoint str_path (p : path) : string :=
  match p with
  | [] => "/"
  | [d] => "/" ++ d
  | d :: rest => "/" ++ d ++ str_path rest
  end.

(** The sweep with [git_pull] as its action. *)
Definition git_pull_recursive (w : world) (pull_submodules : bool)
           (directory : path) (x : fsnode) (self : UniGit) : UniGit :=
  Locator.git_pull_recursive
    (fun p s => fst (Engine.git_pull s (str_path p) pull_submodules (w p)))
    directory x self.

(** Option 2 of [pull_repository]: reset the list, sweep the current
    directory, save.  [here] is [Path.cwd()], the absolute path of the
    current directory, and [cwd] the tree it holds. *)
Definition pull_all (self : UniGit) (pull_submodules : bool) (here : path)
           (cwd : fsnode) (w : world) (f : Ledger.file)
  : UniGit * Ledger.file :=
  let self0 := set_summaries self [] in
  let self1 := git_pull_recursive w pull_submodules here cwd self0 in
  if Ledger.nonempty (summaries self1) && enable_summary self1
  then (self1, Ledger.save_summaries self1 f)
  else (self1, f).

End Menu.

(* ===================================================================== *)
(** ** The log subcommand of the external [git] executable *)
(* ===================================================================== *)

Module GitLog.
Import PyStr.

(** A commit of a linear history: its revision and its one-line form. *)
Record commit : Type := { rev : string; oneline : string }.

(** Drop the commits up to and including revision [a]. *)
Fixpoint after (a : string) (history : list commit) : list commit :=
  match history with
  | [] => []
  | c :: rest => if (rev c =? a)%string then rest else after a rest
  end.

(** Keep the commits up to and including revision [b]. *)
Fixpoint upto (b : string) (history : list commit) : list commit :=
  match history with
  | [] => []
  | c :: rest => if (rev c =? b)%string then [c] else c :: upto b rest
  end.

(** The commits of the range [a..b] of a history given oldest first,
    themselves oldest first. *)
Definition range (history : list commit) (a b : string) : list commit :=
  upto b (after a history).

Fixpoint unlines (l : list string) : string :=
  match l with
  | [] => ""
  | x :: rest => x ++ nl ++ unlines rest
  end.

(** ["\n".join(l)] *)
Fixpoint join (l : list string) : string :=
  match l with
  | [] => ""
  | [x] => x
  | x :: rest => x ++ nl ++ join rest
  end.

(** A line that is not empty and has no white space at either end, as the
    abbreviated hash followed by a subject is. *)
Definition clean (s : string) : Prop :=
  s <> "" /\ lstrip s = s /\ rstrip s = s.

(** Modelled from the spec: the [log] subcommand of the external
    version-control executable, which is not part of the repository.  It
    lists the commits of the range newest first, as [git log] emits them,
    unless the reversal is asked for explicitly. *)
Definition git_log (history : list commit) (a b : string)
           (opts : list string) : proc string :=
  let newest_first := List.rev (range history a b) in
  let shown :=
    if existsb (fun o => (o =? "--reverse")%string) opts
    then List.rev newest_first else newest_first in
  Ok (unlines (map oneline shown)).

End GitLog.

(* ===================================================================== *)
(** ** The outcome type of the specification *)
(* ===================================================================== *)

Module Outcome.
Import Summarizer.

(** The typed outcome the specification gives the generator. *)
Inductive SummaryOutcome : Type :=
| Success (text : string)
| Failure (reason : string).

(** The specification's reading of each [return] statement: the blank
    input and a validated summary succeed; insufficient output, timeout,
    command failure, missing service and unexpected error, each after the
    retries it allows, fail. *)
Definition spec_outcome (text : string) (site : exit_site) : SummaryOutcome :=
  match site with
  | BlankInput | Generated => Success text
  | Insufficient | TimedOut | CommandFailed | NotInstalled | Unexpected =>
      Failure text
  end.

Definition is_success (o : SummaryOutcome) : bool :=
  match o with
  | Success _ => true
  | Failure _ => false
  end.

(** The [return] statements that come after
    [self.summary_failures += 1]. *)
Definition counted (site : exit_site) : bool :=
  match site with
  | TimedOut | CommandFailed | NotInstalled | Unexpected => true
  | BlankInput | Insufficient | Generated => false
  end.


(** The instance after a [return]: the counter moves exactly at the
    counted sites. *)
Definition after_exit (self : UniGit) (site : exit_site) : UniGit :=
  if counted site then bump_failures self else self.

End Outcome.

(* ===================================================================== *)
(** ** Concrete instances and environments *)
(* ===================================================================== *)

Module Scenario.

(** An instance built from [DEFAULT_CONFIG], with summaries switched on. *)
Definition default_self : UniGit :=
  {| enable_summary := true; dry_run := false; model := "llama3.2";
     max_retries := 2; summaries := []; current_date := "2024-05-01 10:00:00";
     summary_failures := 0 |}.

Definition with_max_retries (self : UniGit) (n : Z) : UniGit :=
  {| enable_summary := enable_summary self; dry_run := dry_run self;
     model := model self; max_retries := n;
     summaries := summaries self; current_date := current_date self;
     summary_failures := summary_failures self |}.

(** The service is up and answers every prompt with [text]. *)
Definition answering (text : string) : service :=
  fun _ => {| ollama_list := Ok tt; ollama_run := fun _ _ => Ok text |}.

(** The probe raises [e] on every attempt. *)
Definition probe_raising (e : exn) : service :=
  fun _ => {| ollama_list := Raise e; ollama_run := fun _ _ => Raise e |}.

(** The probe passes and the generation raises [e] on every attempt. *)
Definition run_raising (e : exn) : service :=
  fun _ => {| ollama_list := Ok tt; ollama_run := fun _ _ => Raise e |}.

(** The probe raises [e] on the first attempt; from the second attempt on
    the service answers with [text]. *)
Definition down_then_up (e : exn) (text : string) : service :=
  fun attempt =>
    if attempt =? 0 then probe_raising e attempt else answering text attempt.

(** A repository whose pull moves the head from [old] to [new] over the
    given history, checked out on branch [br]. *)
Definition live_repo (history : list GitLog.commit) (old new br : string)
           (svc : service) : repo_env :=
  {| git_rev_parse_head := Ok (old ++ PyStr.nl);
     git_rev_parse_abbrev_ref := Ok (br ++ PyStr.nl);
     git_fetch := Ok tt;
     git_pull_cmd := fun _ => Ok tt;
     git_rev_parse_head_after := Ok (new ++ PyStr.nl);
     git_log := GitLog.git_log history;
     ollama := svc |}.

(** A repository whose pull ends with the exit status [status]: what
    [git] prints, such as the refusal of the remote, goes to the terminal. *)
Definition failing_repo (status : Z) : repo_env :=
  {| git_rev_parse_head := Ok ("1111111" ++ PyStr.nl);
     git_rev_parse_abbrev_ref := Ok ("main" ++ PyStr.nl);
     git_fetch := Ok tt;
     git_pull_cmd := fun argv => Raise (CheckCall.exit_status argv status);
     git_rev_parse_head_after := Ok ("1111111" ++ PyStr.nl);
     git_log := fun _ _ _ => Ok "";
     ollama := answering "" |}.

(** The history [A -> B -> C]. *)
Definition abc : list GitLog.commit :=
  [ {| GitLog.rev := "A"; GitLog.oneline := "aaaaaaa A one-line" |};
    {| GitLog.rev := "B"; GitLog.oneline := "bbbbbbb B one-line" |};
    {| GitLog.rev := "C"; GitLog.oneline := "ccccccc C one-line" |} ].

Definition with_failures (self : UniGit) (n : Z) : UniGit :=
  set_summary_failures self n.

(** The directory the process runs in. *)
Definition home : path := ["home"; "dev"].

(** A run of six updated repositories of that directory: the first is
    summarized, the next four time out on every attempt, the sixth finds
    four failures counted. *)
Definition tripping_run : list (string * repo_env) :=
  [ ("/home/dev/r1", live_repo abc "A" "C" "main"
             (answering "Adds commits B and C to the main branch."));
    ("/home/dev/r2", live_repo abc "A" "B" "main" (run_raising TimeoutExpired));
    ("/home/dev/r3", live_repo abc "A" "B" "main" (run_raising TimeoutExpired));
    ("/home/dev/r4", live_repo abc "A" "B" "main" (run_raising TimeoutExpired));
    ("/home/dev/r5", live_repo abc "A" "B" "main" (run_raising TimeoutExpired));
    ("/home/dev/r6", live_repo abc "B" "C" "main"
             (answering "Adds commit C to the main branch.")) ].

(** What that directory holds: six repositories side by side. *)
Definition six_repositories : fsnode :=
  Dir (map (fun name => (name, Dir [(".git", Dir [("HEAD", File)])]))
           ["r1"; "r2"; "r3"; "r4"; "r5"; "r6"]).

(** The environment that holds, for a path, the repository the list gives
    for the text of that path. *)
Definition world_of (l : list (string * repo_env)) (default : repo_env)
  : Menu.world :=
  fun p =>
    match List.find (fun e => (fst e =? Menu.str_path p)%string) l with
    | Some e => snd e
    | None => default
    end.

(** The instance after the first five repositories of that run. *)
Definition before_trip : UniGit :=
  fst (Engine.run default_self false (firstn 5 tripping_run)).

(** The instance at the end of that run. *)
Definition after_tripping_run : UniGit :=
  fst (Engine.run default_self false tripping_run).

(** An instance at the end of a run with two successful records around a
    failed one. *)
Definition three_records : UniGit :=
  set_summaries default_self
    [ {| directory := "r1"; branch := "main";
         summary := "Adds commits B and C."; success := true |};
      {| directory := "r2"; branch := "dev";
         summary := "Error: Summary generation timed out."; success := false |};
      {| directory := "r3"; branch := "main";
         summary := "Removes the old parser."; success := true |} ].

(** An instance whose only record is a failed one. *)
Definition one_failed_record : UniGit :=
  set_summaries default_self
    [ {| directory := "r2"; branch := "dev";
         summary := "Error: Summary generation timed out."; success := false |} ].

(** A ledger written by an earlier run. *)
Definition old_ledger : Ledger.file := Some "Date: 2024-04-30 09:00:00".

(** A directory with a repository [outer] that holds a second repository
    under [sub/inner] and a third in the hidden directory [.cache], and with
    a repository [plain/lib] outside of it. *)
Definition nested_tree : fsnode :=
  Dir [ ("outer",
         Dir [ (".git", Dir [("HEAD", File)]);
               ("sub", Dir [("inner", Dir [(".git", Dir [("HEAD", File)])])]);
               (".cache", Dir [("tool", Dir [(".git", Dir [])])]) ]);
        ("plain", Dir [("lib", Dir [(".git", Dir []); ("README", File)])]);
        ("notes.txt", File) ].

Definition one_commit : string := "a1b2c3d Fix typo in README".

Definition good_summary : string :=
  "Fixes a typo in the README and nothing else.".

End Scenario.

(* ===================================================================== *)
(** ** Statements of the specification that the code is compared with *)
(* ===================================================================== *)

Module Stated.
Import Summarizer Outcome.

(** A probe that fails on the first attempt ends the call there, as a
    failure, with no further attempt. *)
Definition probe_failure_is_terminal (self : UniGit)
           (commit_messages : string) (svc : service) : Prop :=
  forall e, ollama_list (svc 0) = Raise e ->
    let c := summarize_with_ollama self commit_messages svc in
    attempts c = 1%nat /\
    exists text site,
      returned c = Some (text, site) /\
      is_success (spec_outcome text site) = false.

(** With a negative [max_retries] the call runs no attempt and has no
    result value. *)
Definition no_result_when_negative (self : UniGit)
           (commit_messages : string) (svc : service) : Prop :=
  max_retries self < 0 ->
  let c := summarize_with_ollama self commit_messages svc in
  attempts c = 0%nat /\ value c = None.

(** The record's flag is the specification's outcome of the call. *)
Definition record_follows_outcome (self : UniGit) (directory : string)
           (pull_submodules : bool) (env : repo_env) : Prop :=
  forall self' e site n,
    Engine.git_pull self directory pull_submodules env
    = (self', Summarized e site n) ->
    success e = is_success (spec_outcome (summary e) site).

(** The three access-denial patterns, each matched as a case-insensitive
    substring. *)
Definition denied_ignoring_case (error_output : string) : Prop :=
  PyStr.ci_substring "403" error_output
  \/ PyStr.ci_substring "forbidden" error_output
  \/ PyStr.ci_substring "permission denied" error_output.

(** The commit list of a range is its one-line summaries, oldest first. *)
Definition listed_oldest_first (history : list GitLog.commit)
           (env : repo_env) (a b : string) : Prop :=
  Engine.commits_between env a b
  = Ok (PyStr.strip
          (GitLog.unlines (map GitLog.oneline (GitLog.range history a b)))).


(** A repository reached through ordinary directories is found by the
    locator and pulled by the sweep, wherever it lies. *)
Definition found_and_swept (x : fsnode) (p : path) : Prop :=
  Forall (fun d => Locator.hidden d = false) p ->
  (exists y, Locator.resolve x p = Some y /\ Locator.is_repository y = true) ->
  In p (Locator.find_git_repositories [] x)
  /\ In p (Locator.sweep_targets [] x).

End Stated.


(* ===================================================================== *)
(** ** Runs: what the outcomes of a run say about the instance *)
(* ===================================================================== *)

Module RunModel.
Import Summarizer Outcome.

(** The record a call appended, if it appended one. *)
Definition record_of (o : pull_outcome) : list entry :=
  match o with
  | Summarized e _ _ => [e]
  | _ => []
  end.

(** The records the calls of a run appended, in order. *)
Definition records_of (os : list pull_outcome) : list entry :=
  flat_map record_of os.

(** The calls whose generator call ended in a counted failure. *)
Definition counted_failure (o : pull_outcome) : bool :=
  match o with
  | Summarized _ site _ => counted site
  | _ => false
  end.

(** Number of such calls in a run. *)
Definition failures_in (os : list pull_outcome) : Z :=
  Z.of_nat (List.length (filter counted_failure os)).

(** The exceptions after which the loop goes on to the next attempt while
    attempts remain: all but the missing executable. *)
Definition retried (e : exn) : bool :=
  match e with
  | FileNotFoundError => false
  | _ => true
  end.

(** The [return] statement a retried exception leads to on the last
    attempt. *)
Definition site_of_exn (e : exn) : exit_site :=
  match e with
  | TimeoutExpired => TimedOut
  | CalledProcessError _ => CommandFailed
  | FileNotFoundError => NotInstalled
  | OtherException => Unexpected
  end.

(** The attempt raises [e]: in the probe, or in the generation after a
    probe that passed. *)
Definition raises (self : UniGit) (prompt : string) (env : attempt_env)
           (e : exn) : Prop :=
  ollama_list env = Raise e
  \/ (ollama_list env = Ok tt /\ ollama_run env (model self) prompt = Raise e).

(** What the generator returns for a standard output it accepts: the
    stripped text, cut to 997 characters and an ellipsis when it is longer
    than 1000. *)
Definition accepted_text (stdout : string) : string :=
  let summary := PyStr.strip stdout in
  if PyStr.len summary >? 1000 then PyStr.take 997 summary ++ "..."
  else summary.

(** The fixed text of each [return] statement but [return summary]. *)
Definition site_text (site : exit_site) : string :=
  match site with
  | BlankInput => "No commit messages to summarize."
  | Insufficient => "Summary generation produced insufficient results."
  | Generated => ""
  | TimedOut => "Error: Summary generation timed out."
  | CommandFailed => "Error generating summary: Ollama command failed."
  | NotInstalled => "Error: Ollama not installed."
  | Unexpected => "Error generating summary due to an unexpected issue."
  end.

(** The probe passes and the generation prints a text that is empty or
    shorter than ten characters once stripped. *)
Definition falls_short (self : UniGit) (prompt : string) (env : attempt_env)
  : Prop :=
  exists stdout,
    ollama_list env = Ok tt
    /\ ollama_run env (model self) prompt = Ok stdout
    /\ PyStr.len (PyStr.strip stdout) < 10.

(** An attempt after which the loop goes on while attempts remain. *)
Definition fails_retriably (self : UniGit) (prompt : string)
           (env : attempt_env) : Prop :=
  (exists e, retried e = true /\ raises self prompt env e)
  \/ falls_short self prompt env.

(** The repository as a dry run sees it: the pull, the second reading of
    the head and the generation service are out of reach. *)
Definition blind (env : repo_env) : repo_env :=
  {| git_rev_parse_head := git_rev_parse_head env;
     git_rev_parse_abbrev_ref := git_rev_parse_abbrev_ref env;
     git_fetch := git_fetch env;
     git_pull_cmd := fun _ => Raise OtherException;
     git_rev_parse_head_after := Raise OtherException;
     git_log := git_log env;
     ollama := fun _ => {| ollama_list := Raise OtherException;
                           ollama_run := fun _ _ => Raise OtherException |} |}.

(** The outcomes of a dry run: a preview, or a reported error. *)
Definition preview_or_error (o : pull_outcome) : bool :=
  match o with
  | DryRunPreview _ | GitError _ | UnexpectedError => true
  | _ => false
  end.

(** A record as [git_pull] builds it: marked by the prefix test, with a
    text of one to a thousand characters. *)
Definition well_formed_record (e : entry) : Prop :=
  success e = negb (PyStr.startswith "Error" (summary e))
  /\ 1 <= PyStr.len (summary e) <= 1000.

End RunModel.

Module RunScenario.

(** The default instance in dry-run mode. *)
Definition dry_self : UniGit :=
  {| enable_summary := true; dry_run := true; model := "llama3.2";
     max_retries := 2; summaries := []; current_date := "2024-05-01 10:00:00";
     summary_failures := 0 |}.

End RunScenario.

(* ===================================================================== *)
(** ** [extract_repo_name], [extract_username_from_url], [check_repo_exists] *)
(* ===================================================================== *)

Module Url.
Import PyStr.

Definition slash : ascii := ascii_of_nat 47.

(** [s.rstrip('/')] *)
Fixpoint rstrip_slash (s : string) : string :=
  match s with
  | EmptyString => EmptyString
  | String c s' =>
      match rstrip_slash s' with
      | EmptyString =>
          if (c =? slash)%char then EmptyString else String c EmptyString
      | r => String c r
      end
  end.

(** [s.endswith(p)]: some tail of [s] is [p]. *)
Fixpoint endswith (p s : string) : bool :=
  (s =? p)%string ||
  match s with
  | EmptyString => false
  | String _ s' => endswith p s'
  end.

(** [s[:-n]] for [n > 0] *)
Definition drop_last (n : nat) (s : string) : string :=
  String.substring 0 (String.length s - n) s.

(** [s[1:]] *)
Definition drop_first (s : string) : string :=
  match s with
  | EmptyString => EmptyString
  | String _ r => r
  end.

(** [s.split(sep)] for a separator of one character; the result is never
    empty. *)
Fixpoint split (sep : ascii) (s : string) : list string :=
  match s with
  | EmptyString => [EmptyString]
  | String c s' =>
      if (c =? sep)%char then EmptyString :: split sep s'
      else match split sep s' with
           | x :: r => String c x :: r
           | [] => [String c EmptyString]
           end
  end.

(** [parts[-1]] of a list that is not empty. *)
Definition last_part (parts : list string) : string := List.last parts "".

Definition extract_repo_name (url : string) : string :=
  let url := rstrip_slash url in
  let url := if endswith ".git" url then drop_last 4 url else url in
  last_part (split slash url).

Definition extract_username_from_url (url host_type : string) : string :=
  let url := rstrip_slash url in
  let parts := split slash url in
  if existsb (String.eqb host_type) ["github"; "gitlab"; "bitbucket"]%string
  then last_part parts
  else if (host_type =? "azure")%string then last_part parts
  else if (host_type =? "sourcehut")%string then
    let username := last_part parts in
    if startswith "~" username then drop_first username else username
  else if (host_type =? "launchpad")%string then last_part parts
  else last_part parts.

End Url.

Module RepoCheck.
Import PyStr Locator.

(** The file system as the process sees it: the tree from the root and
    the components of the current directory. *)
Record process_fs : Type := { tree : fsnode; cwd : path }.

(** The directory the process is in. *)
Definition here (fs : process_fs) : option fsnode := resolve (tree fs) (cwd fs).

(** What [Path(name)] denotes for a name without [/], as [repo_name] is:
    the current directory for the empty name and for [.], its parent for
    [..], the entry of that name otherwise. *)
Definition relative (fs : process_fs) (name : string) : option fsnode :=
  if (name =? "")%string || (name =? ".")%string then here fs
  else if (name =? "..")%string
       then resolve (tree fs) (removelast (cwd fs))
       else resolve (tree fs) (cwd fs ++ [name])%list.

(** [Path(p).name] of an absolute path. *)
Definition name_of (p : path) : string := List.last p "".

(** [str(p)] of an absolute path. *)
Fixpoint str_abs (p : path) : string :=
  match p with
  | [] => "/"
  | d :: rest =>
      match rest with
      | [] => "/" ++ d
      | _ :: _ => "/" ++ d ++ str_abs rest
      end
  end.

(** [find_git_repositories(Path.cwd())], the current directory being
    there. *)
Definition all_repos (fs : process_fs) : list path :=
  match here fs with
  | Some x => find_git_repositories (cwd fs) x
  | None => []
  end.

(** The first statement of [check_repo_exists]: the name that is looked
    for. *)
Definition repo_name_of (repo_name_or_url : string) : string :=
  if contains "/" repo_name_or_url
  then Url.extract_repo_name repo_name_or_url
  else repo_name_or_url.

Definition check_repo_exists (fs : process_fs) (repo_name_or_url : string)
  : bool * string :=
  let repo_name := repo_name_of repo_name_or_url in
  if match relative fs repo_name with
     | Some y => is_repository y
     | None => false
     end
  then (true, repo_name)
  else
    match List.find (fun p => (name_of p =? repo_name)%string) (all_repos fs)
    with
    | Some repo_path => (true, str_abs repo_path)
    | None => (false, repo_name)
    end.

End RepoCheck.

Module RepoScenario.

(** The process is in [/home/dev], which holds the tree of the scenario. *)
Definition dev_fs : RepoCheck.process_fs :=
  {| RepoCheck.tree := Dir [("home", Dir [("dev", Scenario.nested_tree)])];
     RepoCheck.cwd := ["home"; "dev"]%string |}.

End RepoScenario.

(* ===================================================================== *)
(** ** The branch list of [switch_branch] *)
(* ===================================================================== *)

Module Branches.
Import PyStr.

(** The characters at which [str.splitlines] ends a line, within ASCII:
    line feed, vertical tab, form feed, carriage return and the separators
    0x1c, 0x1d, 0x1e. *)
Definition is_line_break (c : ascii) : bool :=
  let n := nat_of_ascii c in
  (((10 <=? n) && (n <=? 13)) || ((28 <=? n) && (n <=? 30)))%nat.

Definition CR : ascii := ascii_of_nat 13.
Definition LF : ascii := ascii_of_nat 10.

(** [s.splitlines()]; [after_cr] tells that the character before was a
    carriage return, whose line feed belongs to the same line end. *)
Fixpoint lines_from (after_cr : bool) (s : string) : list string :=
  match s with
  | EmptyString => []
  | String c s' =>
      if after_cr && (c =? LF)%char then lines_from false s'
      else if is_line_break c
           then EmptyString :: lines_from (c =? CR)%char s'
           else match lines_from false s' with
                | x :: r => String c x :: r
                | [] => [String c EmptyString]
                end
  end.

Definition splitlines (s : string) : list string := lines_from false s.

(** What follows the first [/] of a text, if there is one. *)
Fixpoint after_slash (s : string) : option string :=
  match s with
  | EmptyString => None
  | String c r => if (c =? Url.slash)%char then Some r else after_slash r
  end.

(** [s.split('/', 2)[2]]; [None] is the [IndexError] of a text with fewer
    than two [/]. *)
Definition third_part (s : string) : option string :=
  match after_slash s with
  | Some r => after_slash r
  | None => None
  end.

(** [s[2:]] *)
Definition drop_two (s : string) : string :=
  match s with
  | String _ (String _ r) => r
  | _ => EmptyString
  end.

(** The loop of [switch_branch] over the lines of [git branch -a], with
    the list built so far; [None] when a line raises. *)
Fixpoint parse_lines (lines : list string) (branches : list (string * bool))
  : option (list (string * bool)) :=
  match lines with
  | [] => Some branches
  | line :: rest =>
      let branch := strip line in
      if startswith "*" branch
      then parse_lines rest (branches ++ [(drop_two branch, true)])
      else if startswith "remotes/" branch
      then
        if negb (contains "/HEAD ->" branch)
        then
          match third_part branch with
          | None => None
          | Some remote_branch =>
              if negb (existsb (String.eqb remote_branch) (map fst branches))
              then parse_lines rest (branches ++ [(remote_branch, false)])
              else parse_lines rest branches
          end
        else parse_lines rest branches
      else parse_lines rest (branches ++ [(branch, false)])
  end.

Definition parse_branches (stdout : string) : option (list (string * bool)) :=
  parse_lines (splitlines stdout) [].

(** A line of a remote-tracking branch. *)
Definition remote_line (line : string) : bool :=
  startswith "remotes/" (strip line).

(** The line of the symbolic [HEAD] of a remote. *)
Definition head_pointer_line (line : string) : bool :=
  remote_line line && contains "/HEAD ->" (strip line).

(** The entry a line of a local branch gives. *)
Definition local_entry (line : string) : string * bool :=
  if startswith "*" (strip line) then (drop_two (strip line), true)
  else (strip line, false).

(** What the menu does with the number typed, once read as an integer. *)
Inductive choice : Type :=
| InvalidNumber
| AlreadyOn (name : string)
| Checkout (name : string).

(** The test on [branch_idx = int(selection) - 1]. *)
Definition choose (branches : list (string * bool)) (selection : Z) : choice :=
  let branch_idx := selection - 1 in
  if (0 <=? branch_idx) && (branch_idx <? Z.of_nat (List.length branches))
  then
    match nth_error branches (Z.to_nat branch_idx) with
    | Some (name, true) => AlreadyOn name
    | Some (name, false) => Checkout name
    | None => InvalidNumber
    end
  else InvalidNumber.

End Branches.

Module BranchScenario.
Import PyStr.

(** The lines of [git branch -a] in a clone with two local branches. *)
Definition listing : list string :=
  [ "* main"; "  dev";
    "  remotes/origin/HEAD -> origin/main";
    "  remotes/origin/main";
    "  remotes/origin/feature/x" ]%string.

End BranchScenario.

(* ===================================================================== *)
(** ** [load_or_create_config] *)
(* ===================================================================== *)

Module Config.
Import PyStr.

(** A value as [json.load] returns it.  A dict keeps its items in order. *)
#[warnings="-register-all"]
Inductive json : Type :=
| JNull
| JBool (b : bool)
| JInt (z : Z)
| JFloat (repr : string)
| JStr (s : string)
| JList (items : list json)
| JDict (items : list (string * json)).

Definition dict : Type := list (string * json).

Definition DEFAULT_CONFIG : dict :=
  [ ("enable_summary", JBool false);
    ("dry_run", JBool false);
    ("log_level", JStr "INFO");
    ("model", JStr "llama3.2");
    ("max_retries", JInt 2);
    ("summary_timeout", JInt 30) ]%string.

(** [key in d] for a dict. *)
Definition has_key (key : string) (d : dict) : bool :=
  existsb (fun kv => (fst kv =? key)%string) d.

(** [d.get(key)] *)
Fixpoint get (key : string) (d : dict) : option json :=
  match d with
  | [] => None
  | (k, v) :: rest => if (k =? key)%string then Some v else get key rest
  end.

(** [d[key] = value]: the item is replaced where it stands, or added at
    the end. *)
Fixpoint set (key : string) (value : json) (d : dict) : dict :=
  match d with
  | [] => [(key, value)]
  | (k, v) :: rest =>
      if (k =? key)%string then (k, value) :: rest
      else (k, v) :: set key value rest
  end.

(** [key not in config] for a loaded value; [None] is the [TypeError] of a
    value that is not a container. *)
Definition not_in (key : string) (config : json) : option bool :=
  match config with
  | JDict d => Some (negb (has_key key d))
  | JList l =>
      Some (negb (existsb (fun v => match v with
                                    | JStr s => (s =? key)%string
                                    | _ => false
                                    end) l))
  | JStr s => Some (negb (contains key s))
  | JNull | JBool _ | JInt _ | JFloat _ => None
  end.

(** [config[key] = value] for a loaded value; [None] is the [TypeError] of
    a value that is not a dict. *)
Definition set_item (config : json) (key : string) (value : json)
  : option json :=
  match config with
  | JDict d => Some (JDict (set key value d))
  | _ => None
  end.

(** The loop that adds the missing keys; [None] when a statement raises. *)
Fixpoint fill (defaults : dict) (config : json) : option json :=
  match defaults with
  | [] => Some config
  | (key, value) :: rest =>
      match not_in key config with
      | None => None
      | Some false => fill rest config
      | Some true =>
          match set_item config key value with
          | None => None
          | Some config' => fill rest config'
          end
      end
  end.

(** What reading the file gives. *)
Inductive load_result : Type :=
| Loaded (j : json)
| DecodeError
| OtherError.

(** What the environment holds for one call: whether the file exists, the
    three lines typed at the prompts, whether the file can be written, and
    what reading it gives. *)
Record config_env : Type := {
  file_exists : bool;
  enable_summary_line : string;
  dry_run_line : string;
  model_line : string;
  write_ok : bool;
  load : load_result
}.

(** [x in ("true", "t", "false", "f")] *)
Definition is_answer (x : string) : bool :=
  existsb (String.eqb x) ["true"; "t"; "false"; "f"]%string.

(** [x in ("true", "t")] *)
Definition is_yes (x : string) : bool :=
  existsb (String.eqb x) ["true"; "t"]%string.

Definition load_or_create_config (env : config_env) : json :=
  if negb (file_exists env) then
    let config := DEFAULT_CONFIG in
    let enable_summary_input := lower (strip (enable_summary_line env)) in
    let dry_run_input := lower (strip (dry_run_line env)) in
    let model_input := strip (model_line env) in
    let config :=
      if is_answer enable_summary_input
      then set "enable_summary" (JBool (is_yes enable_summary_input)) config
      else config in
    let config :=
      if is_answer dry_run_input
      then set "dry_run" (JBool (is_yes dry_run_input)) config
      else config in
    let config :=
      if truthy model_input then set "model" (JStr model_input) config
      else config in
    if write_ok env then JDict config else JDict DEFAULT_CONFIG
  else
    match load env with
    | Loaded config =>
        match fill DEFAULT_CONFIG config with
        | Some config' => config'
        | None => JDict DEFAULT_CONFIG
        end
    | DecodeError => JDict DEFAULT_CONFIG
    | OtherError => JDict DEFAULT_CONFIG
    end.

(** A dict that holds every key of the defaults. *)
Definition complete (d : dict) : Prop :=
  forall key, has_key key DEFAULT_CONFIG = true -> has_key key d = true.

End Config.

(* ===================================================================== *)
(** ** [is_git_host_user_url] *)
(* ===================================================================== *)

Module Regex.

(** The regular expressions the patterns of the source are written with. *)
Inductive re : Type :=
| Nothing                  (* matches no text *)
| Eps                      (* the empty text *)
| Chr (c : ascii)          (* one given character *)
| Other (c : ascii)        (* [^c] *)
| Cat (r1 r2 : re)
| Alt (r1 r2 : re)         (* r1|r2 *)
| Star (r : re).

(** [r?] *)
Definition Opt (r : re) : re := Alt Eps r.

(** [r+] *)
Definition Plus (r : re) : re := Cat r (Star r).

(** A literal text. *)
Fixpoint Lit (s : string) : re :=
  match s with
  | EmptyString => Eps
  | String c s' => Cat (Chr c) (Lit s')
  end.

(** The texts an expression matches in full. *)
Inductive lang : re -> string -> Prop :=
| LEps : lang Eps ""
| LChr c : lang (Chr c) (String c "")
| LOther c d : d <> c -> lang (Other c) (String d "")
| LCat r1 r2 s1 s2 : lang r1 s1 -> lang r2 s2 -> lang (Cat r1 r2) (s1 ++ s2)
| LAltL r1 r2 s : lang r1 s -> lang (Alt r1 r2) s
| LAltR r1 r2 s : lang r2 s -> lang (Alt r1 r2) s
| LStar0 r : lang (Star r) ""
| LStarS r s1 s2 : lang r s1 -> lang (Star r) s2 -> lang (Star r) (s1 ++ s2).

(** Whether an expression matches the empty text. *)
Fixpoint nullable (r : re) : bool :=
  match r with
  | Nothing => false
  | Eps => true
  | Chr _ => false
  | Other _ => false
  | Cat r1 r2 => nullable r1 && nullable r2
  | Alt r1 r2 => nullable r1 || nullable r2
  | Star _ => true
  end.

(** What is left to match after the character [c]. *)
Fixpoint deriv (c : ascii) (r : re) : re :=
  match r with
  | Nothing => Nothing
  | Eps => Nothing
  | Chr d => if (c =? d)%char then Eps else Nothing
  | Other d => if (c =? d)%char then Nothing else Eps
  | Cat r1 r2 =>
      if nullable r1 then Alt (Cat (deriv c r1) r2) (deriv c r2)
      else Cat (deriv c r1) r2
  | Alt r1 r2 => Alt (deriv c r1) (deriv c r2)
  | Star r1 => Cat (deriv c r1) (Star r1)
  end.

(** Whether an expression matches a text in full. *)
Fixpoint accepts (r : re) (s : string) : bool :=
  match s with
  | EmptyString => nullable r
  | String c s' => accepts (deriv c r) s'
  end.

(** [re.match("^" r "$", s)]: without the multi-line flag the [$] holds at
    the end of the text and also just before a newline that ends it. *)
Definition re_match (r : re) (s : string) : bool :=
  accepts (Cat r (Opt (Chr Branches.LF))) s.

End Regex.

Module Hosts.
Import PyStr Regex.

(** [https?://] *)
Definition scheme : re :=
  Cat (Lit "http") (Cat (Opt (Chr "s")) (Lit "://")).

(** [([^/]+)] *)
Definition seg : re := Plus (Other Url.slash).

(** [/?] *)
Definition tail : re := Opt (Chr Url.slash).

(** [self.git_host_patterns], in the order of the dict, each pattern
    without its [^] and [$]. *)
Definition github : re :=
  Cat scheme (Cat (Opt (Lit "www.")) (Cat (Lit "github.com/") (Cat seg tail))).
Definition gitlab : re :=
  Cat scheme (Cat (Opt (Lit "www.")) (Cat (Lit "gitlab.com/") (Cat seg tail))).
Definition bitbucket : re :=
  Cat scheme
      (Cat (Opt (Lit "www.")) (Cat (Lit "bitbucket.org/") (Cat seg tail))).
Definition azure : re :=
  Cat scheme (Cat seg (Cat (Lit ".visualstudio.com/") (Cat seg tail))).
Definition aws : re :=
  Cat scheme
      (Cat (Lit "git-codecommit.")
           (Cat (Plus (Other Url.slash))
                (Cat (Lit ".amazonaws.com/v1/repos/") (Cat seg tail)))).
Definition gitea : re :=
  Cat scheme (Cat seg (Cat (Lit "/") (Cat seg tail))).
Definition sourcehut : re :=
  Cat scheme
      (Cat (Alt (Lit "git") (Lit "hg")) (Cat (Lit ".sr.ht/~") (Cat seg tail))).
Definition launchpad : re :=
  Cat scheme (Cat (Lit "launchpad.net/") (Cat seg tail)).
Definition custom : re :=
  Cat scheme (Cat seg (Cat (Lit "/") (Cat seg tail))).

Definition git_host_patterns : list (string * re) :=
  [ ("github", github); ("gitlab", gitlab); ("bitbucket", bitbucket);
    ("azure", azure); ("aws", aws); ("gitea", gitea);
    ("sourcehut", sourcehut); ("launchpad", launchpad);
    ("custom", custom) ]%string.

(** The first pattern, in the order of the dict, that matches. *)
Fixpoint first_match (patterns : list (string * re)) (url : string)
  : option string :=
  match patterns with
  | [] => None
  | (host_type, pattern) :: rest =>
      if re_match pattern url then Some host_type
      else first_match rest url
  end.

(** [len(url.rstrip('/').split('/'))] *)
Definition parts_count (url : string) : Z :=
  Z.of_nat (List.length (Url.split Url.slash (Url.rstrip_slash url))).

Definition is_git_host_user_url (url : string) : bool * string :=
  match first_match git_host_patterns url with
  | Some host_type =>
      if existsb (String.eqb host_type)
           ["github"; "gitlab"; "bitbucket"; "sourcehut"; "launchpad"]%string
      then (parts_count url <=? 4, host_type)
      else if (host_type =? "azure")%string
      then (parts_count url <=? 4, host_type)
      else if (host_type =? "aws")%string
      then (false, host_type)
      else (parts_count url <=? 4, host_type)
  | None => (false, "unknown")
  end.

(** Number of [/] in a text. *)
Fixpoint count_slash (s : string) : nat :=
  match s with
  | EmptyString => 0
  | String c s' =>
      if (c =? Url.slash)%char then S (count_slash s') else count_slash s'
  end.

End Hosts.

(* ===================================================================== *)
(** ** Facts about the string operations *)
(* ===================================================================== *)

Module PyStrFacts.
Import PyStr.

Lemma prefix_app (p s : string) :
  String.prefix p s = true <-> exists c, s = p ++ c.
Proof.
  revert s; induction p as [|a p IH]; intros s; simpl.
  - split; [intros _; exists s; reflexivity | intros _; now destruct s].
  - destruct s as [|b s].
    + split; [discriminate | intros [c Hc]; discriminate].
    + simpl. destruct (Ascii.ascii_dec a b) as [->|Hne].
      * rewrite IH. split; intros [c Hc]; exists c.
        -- now rewrite Hc.
        -- now inversion Hc.
      * split; [discriminate | intros [c Hc]; congruence].
Qed.

(** [contains] decides the occurrence of [p] inside [s]. *)
Lemma contains_app (p s : string) :
  contains p s = true <-> exists a c, s = a ++ p ++ c.
Proof.
  induction s as [|x s IH]; cbn [contains].
  - rewrite orb_false_r, prefix_app. split.
    + intros [c Hc]. exists "", c. exact Hc.
    + intros [a [c Hc]]. destruct a; simpl in Hc; [now exists c | discriminate].
  - rewrite orb_true_iff, prefix_app, IH. split.
    + intros [[c Hc] | [a [c Hc]]].
      * exists "", c. exact Hc.
      * exists (String x a), c. simpl. now rewrite Hc.
    + intros [a [c Hc]]. destruct a as [|y a]; simpl in Hc.
      * left. now exists c.
      * right. inversion Hc. now exists a, c.
Qed.

Lemma append_empty (s : string) : s ++ "" = s.
Proof. induction s as [|c s IH]; simpl; [reflexivity | now rewrite IH]. Qed.

Lemma append_assoc (a b c : string) : (a ++ b) ++ c = a ++ b ++ c.
Proof. induction a as [|x a IH]; simpl; [reflexivity | now rewrite IH]. Qed.

Lemma lower_app (a b : string) : lower (a ++ b) = lower a ++ lower b.
Proof. induction a as [|x a IH]; simpl; [reflexivity | now rewrite IH]. Qed.

Lemma lower_app_inv (s x y : string) :
  lower s = x ++ y -> exists a b, s = a ++ b /\ lower a = x /\ lower b = y.
Proof.
  revert s; induction x as [|c x IH]; intros s H; simpl in H.
  - exists "", s. auto.
  - destruct s as [|d s]; simpl in H; [discriminate|].
    inversion H as [[Hc Hs]]. destruct (IH s Hs) as [a [b [-> [Ha Hb]]]].
    exists (String d a), b. simpl. now rewrite Ha, Hb.
Qed.

Lemma contains_lower (p s : string) :
  contains (lower p) (lower s) = true <-> ci_substring p s.
Proof.
  rewrite contains_app. split.
  - intros [a' [c' H]].
    destruct (lower_app_inv _ _ _ H) as [a [r [-> [Ha Hr]]]].
    destruct (lower_app_inv _ _ _ Hr) as [b [c [-> [Hb Hc]]]].
    now exists a, b, c.
  - intros [a [b [c [-> Hb]]]].
    exists (lower a), (lower c). now rewrite !lower_app, Hb.
Qed.

(** *** Stripping a text made of clean lines *)

Lemma rstrip_cons (c : ascii) (s : string) :
  rstrip (String c s)
  = match rstrip s with
    | EmptyString => if is_space c then EmptyString else String c EmptyString
    | String _ _ as r => String c r
    end.
Proof. reflexivity. Qed.

Lemma rstrip_app (x t : string) :
  x <> "" -> rstrip x = x -> rstrip (x ++ t) = x ++ rstrip t.
Proof.
  induction x as [|c x IH]; intros Hne Hx; [contradiction|].
  change (String c x ++ t) with (String c (x ++ t)).
  rewrite rstrip_cons in *.
  destruct x as [|c' x'].
  - simpl in *. destruct (is_space c); [discriminate|].
    now destruct (rstrip t).
  - assert (Hx' : rstrip (String c' x') = String c' x').
    { destruct (rstrip (String c' x')) eqn:E.
      - destruct (is_space c); discriminate.
      - now inversion Hx. }
    rewrite (IH ltac:(discriminate) Hx'). reflexivity.
Qed.

Lemma lstrip_app (x t : string) :
  x <> "" -> lstrip x = x -> lstrip (x ++ t) = x ++ t.
Proof.
  destruct x as [|c x]; intros Hne Hx; [contradiction|].
  simpl in *. destruct (is_space c); [|reflexivity].
  exfalso. clear Hne. revert c Hx.
  induction x as [|d x IH]; intros c Hx; [discriminate|].
  simpl in Hx. destruct (is_space d).
  - apply (f_equal String.length) in Hx.
    assert (L : forall s, (String.length (lstrip s) <= String.length s)%nat).
    { induction s as [|e s IHs]; simpl; [lia|].
      destruct (is_space e); simpl; lia. }
    specialize (L x). simpl in Hx. lia.
  - apply (f_equal String.length) in Hx. simpl in Hx. lia.
Qed.

Lemma truthy_false (s : string) : truthy s = false <-> s = "".
Proof.
  unfold truthy. rewrite negb_false_iff. apply String.eqb_eq.
Qed.

End PyStrFacts.

(* ===================================================================== *)
(** ** The attempt loop of the generator *)
(* ===================================================================== *)

Module SummarizerFacts.
Import PyStr Summarizer Outcome.

Ltac split_attempt :=
  unfold attempt_once, try_body;
  repeat match goal with
         | |- context [match ?x with _ => _ end] =>
             lazymatch x with
             | context [match _ with _ => _ end] => fail
             | _ => destruct x eqn:?
             end
         end.

Lemma attempt_once_continue self prompt attempt env self' :
  attempt_once self prompt attempt env = (self', Continue) ->
  self' = self /\ attempt < max_retries self.
Proof.
  split_attempt; intros H; inversion H; subst; split; try reflexivity;
    apply Z.ltb_lt; assumption.
Qed.

Lemma attempt_once_return self prompt attempt env self' text site :
  attempt_once self prompt attempt env = (self', Return text site) ->
  self' = after_exit self site /\ site <> BlankInput.
Proof.
  split_attempt; intros H; inversion H; subst; split;
    solve [reflexivity | discriminate].
Qed.

(** An iteration that is the last one the configuration allows does not
    ask for another. *)
Lemma attempt_once_last self prompt attempt env :
  max_retries self <= attempt ->
  snd (attempt_once self prompt attempt env) <> Continue.
Proof.
  intros Hle H.
  destruct (attempt_once self prompt attempt env) as [s f] eqn:E.
  simpl in H; subst f.
  apply attempt_once_continue in E. lia.
Qed.

Lemma attempts_from_exit n : forall attempt self prompt svc used text site,
  returned (attempts_from n attempt self prompt svc used) = Some (text, site) ->
  self_after (attempts_from n attempt self prompt svc used)
  = after_exit self site.
Proof.
  induction n as [|n IH]; intros attempt self prompt svc used text site; simpl.
  - discriminate.
  - destruct (attempt_once self prompt attempt (svc attempt)) as [s f] eqn:E.
    destruct f as [|t st].
    + apply attempt_once_continue in E as [-> _]. apply IH.
    + simpl. intros H; inversion H; subst.
      now apply attempt_once_return in E as [-> _].
Qed.

Lemma attempts_from_none n : forall attempt self prompt svc used,
  returned (attempts_from n attempt self prompt svc used) = None ->
  self_after (attempts_from n attempt self prompt svc used) = self
  /\ attempts (attempts_from n attempt self prompt svc used) = (used + n)%nat.
Proof.
  induction n as [|n IH]; intros attempt self prompt svc used; simpl.
  - intros _. split; [reflexivity | lia].
  - destruct (attempt_once self prompt attempt (svc attempt)) as [s f] eqn:E.
    destruct f as [|t st].
    + apply attempt_once_continue in E as [-> _]. intros H.
      destruct (IH _ _ _ _ _ H) as [H1 H2]. split; [exact H1 | lia].
    + discriminate.
Qed.

Lemma attempts_from_bound n : forall attempt self prompt svc used,
  (used <= attempts (attempts_from n attempt self prompt svc used) <= used + n)%nat.
Proof.
  induction n as [|n IH]; intros attempt self prompt svc used; simpl.
  - lia.
  - destruct (attempt_once self prompt attempt (svc attempt)) as [s f].
    destruct f as [|t st]; simpl; [|lia].
    specialize (IH (attempt + 1) s prompt svc (S used)). lia.
Qed.

(** When the iterations left end with number [max_retries], one of them
    returns. *)
Lemma attempts_from_returns n : forall attempt self prompt svc used,
  (0 < n)%nat ->
  attempt + Z.of_nat n = max_retries self + 1 ->
  exists text site,
    returned (attempts_from n attempt self prompt svc used) = Some (text, site).
Proof.
  induction n as [|n IH]; intros attempt self prompt svc used Hn Hsum; [lia|].
  simpl.
  destruct (attempt_once self prompt attempt (svc attempt)) as [s f] eqn:E.
  destruct f as [|t st]; [|now exists t, st].
  apply attempt_once_continue in E as [-> Hlt].
  apply IH; lia.
Qed.

(** The counter after a call, by the [return] statement taken. *)
Lemma summarize_exit self commit_messages svc text site :
  returned (summarize_with_ollama self commit_messages svc) = Some (text, site) ->
  self_after (summarize_with_ollama self commit_messages svc)
  = after_exit self site.
Proof.
  unfold summarize_with_ollama.
  destruct (negb (truthy (strip commit_messages))).
  - simpl. intros H; inversion H; reflexivity.
  - apply attempts_from_exit.
Qed.

Lemma summarize_none self commit_messages svc :
  returned (summarize_with_ollama self commit_messages svc) = None ->
  self_after (summarize_with_ollama self commit_messages svc) = self.
Proof.
  unfold summarize_with_ollama.
  destruct (negb (truthy (strip commit_messages))).
  - discriminate.
  - intros H. now apply attempts_from_none in H.
Qed.

Lemma summarize_returns self commit_messages svc :
  0 <= max_retries self ->
  exists text site,
    returned (summarize_with_ollama self commit_messages svc) = Some (text, site).
Proof.
  intros H. unfold summarize_with_ollama.
  destruct (negb (truthy (strip commit_messages))).
  - simpl. eauto.
  - apply attempts_from_returns; lia.
Qed.

End SummarizerFacts.

(* ===================================================================== *)
(** ** The generator: counter, missing service, totality *)
(* ===================================================================== *)

Module SummarizerClaims.
Import PyStr Summarizer Outcome SummarizerFacts Scenario Stated.

(** C2, at the input where it fails.  The service is up and answers every
    attempt with a two-character text.  The call uses its three attempts
    and leaves through the insufficient-result [return], a failure for the
    specification, and the failure counter is what it was before the call:
    this [return] is not preceded by the increment. *)
Theorem insufficient_result_not_counted :
  let c := summarize_with_ollama default_self one_commit (answering "ok") in
  returned c
  = Some ("Summary generation produced insufficient results.", Insufficient)
  /\ is_success (spec_outcome "Summary generation produced insufficient results."
                              Insufficient) = false
  /\ attempts c = 3%nat
  /\ summary_failures (self_after c) = summary_failures default_self.
Proof. vm_compute. repeat split; reflexivity. Qed.

(** The counter moves by one exactly at the four counted [return]
    statements; every other attribute is left alone by every call. *)
Lemma counter_by_exit self commit_messages svc text site :
  returned (summarize_with_ollama self commit_messages svc) = Some (text, site) ->
  summary_failures (self_after (summarize_with_ollama self commit_messages svc))
  = summary_failures self + (if counted site then 1 else 0).
Proof.
  intros H. rewrite (summarize_exit _ _ _ _ _ H). unfold after_exit.
  destruct (counted site); simpl; lia.
Qed.

(** C8 as stated fails: the probe exits with an error on the first attempt,
    the service is back for the second, and the call succeeds with two
    attempts. *)
Lemma probe_failure_is_retried :
  ~ probe_failure_is_terminal default_self one_commit
      (down_then_up
         (CalledProcessError
            (CheckCall.str_called_process_error ["ollama"; "list"] 1))
         good_summary).
Proof.
  intros H. specialize (H _ eq_refl). vm_compute in H.
  destruct H as [H _]. discriminate.
Qed.

(** C8, amended.  At whatever attempt the probe finds the executable
    missing, the call returns there with the not-installed text, counts one
    failure and runs no further attempt, whatever [max_retries] is; in
    particular so does a call whose first probe finds it missing.  A probe
    that raises anything else (a timeout, an error exit) is followed by the
    next attempt as long as the attempt number is below [max_retries]. *)
Theorem missing_executable_is_terminal
        (self : UniGit) (prompt : string) (svc : service)
        (n : nat) (attempt : Z) (used : nat) :
  (ollama_list (svc attempt) = Raise FileNotFoundError ->
   attempts_from (S n) attempt self prompt svc used
   = {| self_after := bump_failures self;
        returned := Some ("Error: Ollama not installed.", NotInstalled);
        attempts := S used |})
  /\ (forall commit_messages,
        truthy (strip commit_messages) = true ->
        0 <= max_retries self ->
        ollama_list (svc 0) = Raise FileNotFoundError ->
        summarize_with_ollama self commit_messages svc
        = {| self_after := bump_failures self;
             returned := Some ("Error: Ollama not installed.", NotInstalled);
             attempts := 1 |})
  /\ (forall e,
        ollama_list (svc attempt) = Raise e ->
        e <> FileNotFoundError ->
        attempt < max_retries self ->
        attempts_from (S n) attempt self prompt svc used
        = attempts_from n (attempt + 1) self prompt svc (S used)).
Proof.
  split; [|split].
  - intros H. simpl. unfold attempt_once, try_body. now rewrite H.
  - intros commit_messages Hnb Hge H. unfold summarize_with_ollama.
    rewrite Hnb. simpl.
    destruct (Z.to_nat (max_retries self + 1)) as [|m] eqn:E; [lia|].
    simpl. unfold attempt_once, try_body. now rewrite H.
  - intros e H Hne Hlt. simpl. unfold attempt_once, try_body. rewrite H.
    apply Z.ltb_lt in Hlt. rewrite Hlt.
    destruct e; try reflexivity. contradiction.
Qed.

Lemma missing_executable_is_terminal_witness :
  summarize_with_ollama default_self one_commit (probe_raising FileNotFoundError)
  = {| self_after := bump_failures default_self;
       returned := Some ("Error: Ollama not installed.", NotInstalled);
       attempts := 1 |}
  /\ attempts_from 3 0 default_self (make_prompt one_commit)
       (probe_raising TimeoutExpired) 0
     = attempts_from 2 1 default_self (make_prompt one_commit)
         (probe_raising TimeoutExpired) 1.
Proof.
  pose proof (missing_executable_is_terminal default_self
                (make_prompt one_commit) (probe_raising FileNotFoundError)
                0 0 0) as [_ [H _]].
  pose proof (missing_executable_is_terminal default_self
                (make_prompt one_commit) (probe_raising TimeoutExpired)
                2 0 0) as [_ [_ K]].
  split.
  - apply H; [reflexivity | simpl; lia | reflexivity].
  - apply (K TimeoutExpired); [reflexivity | discriminate | simpl; lia].
Defined.

(** C10 as stated fails in its last clause: with [max_retries = -1] and an
    empty commit text the call has a result value, the fixed text. *)
Lemma blank_input_has_result :
  ~ no_result_when_negative (with_max_retries default_self (-1)) ""
      (answering good_summary).
Proof.
  intros H. destruct H as [_ H]; [simpl; lia|]. vm_compute in H. discriminate.
Qed.

(** C10, amended.  With [max_retries >= 0] the call returns a string after
    at most [max_retries + 1] attempts, for every commit text and whatever
    the probe and the generation do on each attempt (complete, time out,
    exit with an error, miss the executable, raise anything else); no
    exception reaches the caller.  With [max_retries < 0] and a commit text
    that is not blank the loop runs zero times and the call has no result
    value.  A blank commit text returns the fixed text before the loop,
    whatever [max_retries] is. *)
Theorem summarize_total (self : UniGit) (commit_messages : string)
        (svc : service) :
  let c := summarize_with_ollama self commit_messages svc in
  (0 <= max_retries self ->
   (exists text, value c = Some text)
   /\ Z.of_nat (attempts c) <= max_retries self + 1)
  /\ (max_retries self < 0 -> truthy (strip commit_messages) = true ->
      attempts c = 0%nat /\ value c = None)
  /\ (truthy (strip commit_messages) = false ->
      attempts c = 0%nat /\ value c = Some "No commit messages to summarize.").
Proof.
  cbv zeta. split; [|split].
  - intros Hge. split.
    + destruct (summarize_returns self commit_messages svc Hge)
        as [text [site H]].
      exists text. unfold value. now rewrite H.
    + unfold summarize_with_ollama.
      destruct (negb (truthy (strip commit_messages))); simpl; [lia|].
      pose proof (attempts_from_bound (Z.to_nat (max_retries self + 1)) 0 self
                    (make_prompt commit_messages) svc 0).
      lia.
  - intros Hlt Hnb. unfold summarize_with_ollama, value. rewrite Hnb. simpl.
    replace (Z.to_nat (max_retries self + 1)) with 0%nat by lia.
    simpl. split; reflexivity.
  - intros Hb. unfold summarize_with_ollama, value. rewrite Hb. simpl.
    split; reflexivity.
Qed.

Lemma summarize_total_witness :
  ((exists text,
      value (summarize_with_ollama default_self one_commit
               (run_raising TimeoutExpired)) = Some text)
   /\ Z.of_nat (attempts (summarize_with_ollama default_self one_commit
                            (run_raising TimeoutExpired))) <= 2 + 1)
  /\ (attempts (summarize_with_ollama (with_max_retries default_self (-1))
                  one_commit (answering good_summary)) = 0%nat
      /\ value (summarize_with_ollama (with_max_retries default_self (-1))
                  one_commit (answering good_summary)) = None).
Proof.
  split.
  - apply (summarize_total default_self one_commit (run_raising TimeoutExpired)).
    simpl; lia.
  - apply (summarize_total (with_max_retries default_self (-1)) one_commit
             (answering good_summary)).
    + simpl; lia.
    + vm_compute; reflexivity.
Defined.

End SummarizerClaims.

(* ===================================================================== *)
(** ** [git_pull]: the summarization step and the circuit breaker *)
(* ===================================================================== *)

Module EngineFacts.
Import PyStr Summarizer Outcome SummarizerFacts Engine.

Ltac split_matches :=
  repeat match goal with
         | |- context [match ?x with _ => _ end] =>
             lazymatch x with
             | context [match _ with _ => _ end] => fail
             | _ => destruct x eqn:?
             end
         end.

Lemma git_pull_updated self directory pull_submodules env new_commits :
  dry_run self = false ->
  updated_commits pull_submodules env = Some new_commits ->
  exists out_branch,
    git_rev_parse_abbrev_ref env = Ok out_branch /\
    git_pull self directory pull_submodules env
    = summarization_step self directory (strip out_branch) new_commits
        (ollama env).
Proof.
  intros Hdry Hup. unfold updated_commits in Hup. unfold git_pull.
  rewrite Hdry.
  destruct (git_rev_parse_head env) as [out_head|]; [|discriminate].
  destruct (git_rev_parse_abbrev_ref env) as [out_branch|]; [|discriminate].
  destruct (git_pull_cmd env (pull_argv pull_submodules)); [|discriminate].
  destruct (git_rev_parse_head_after env) as [out_new|]; [|discriminate].
  destruct (strip out_head =? strip out_new)%string; [discriminate|].
  destruct (commits_between env (strip out_head) (strip out_new));
    [|discriminate].
  inversion Hup; subst. exists out_branch. split; reflexivity.
Qed.

Lemma step_disabled self directory branch new_commits svc :
  enable_summary self = false ->
  summarization_step self directory branch new_commits svc
  = (self, UpdatedOnly new_commits).
Proof.
  intros Hoff. unfold summarization_step. now rewrite Hoff, andb_false_r.
Qed.

(** With the flag down a call changes nothing and does not call the
    generator. *)
Lemma git_pull_disabled self directory pull_submodules env :
  enable_summary self = false ->
  fst (git_pull self directory pull_submodules env) = self
  /\ summarizer_called (snd (git_pull self directory pull_submodules env))
     = false.
Proof.
  intros Hoff. unfold git_pull.
  split_matches; rewrite ?(step_disabled _ _ _ _ _ Hoff); split;
    solve [reflexivity | now destruct e].
Qed.

(** No call raises the flag: it is up after a call only if it was up
    before. *)
Lemma git_pull_flag_monotone self directory pull_submodules env :
  enable_summary (fst (git_pull self directory pull_submodules env)) = true ->
  enable_summary self = true.
Proof.
  destruct (enable_summary self) eqn:E; [reflexivity|]. intros H.
  rewrite (proj1 (git_pull_disabled self directory pull_submodules env E)) in H.
  congruence.
Qed.

Lemma run_disabled repos : forall self pull_submodules,
  enable_summary self = false ->
  fst (run self pull_submodules repos) = self
  /\ forallb (fun o => negb (summarizer_called o))
       (snd (run self pull_submodules repos)) = true.
Proof.
  induction repos as [|[directory env] rest IH]; intros self ps Hoff; simpl.
  - split; reflexivity.
  - destruct (git_pull_disabled self directory ps env Hoff) as [H1 H2].
    destruct (git_pull self directory ps env) as [self1 o]. simpl in H1, H2.
    subst self1. destruct (IH self ps Hoff) as [H3 H4].
    destruct (run self ps rest) as [self2 os]. simpl in *.
    split; [exact H3 | now rewrite H2, H4].
Qed.

(** The text returned at the counted sites begins with [Error]. *)
Lemma counted_text_is_error self commit_messages svc text site :
  returned (summarize_with_ollama self commit_messages svc) = Some (text, site) ->
  counted site = true ->
  startswith "Error" text = true.
Proof.
  unfold summarize_with_ollama.
  destruct (negb (truthy (strip commit_messages))).
  - simpl. intros H; inversion H; subst; discriminate.
  - generalize (make_prompt commit_messages) as prompt.
    generalize 0%nat as used. generalize 0 as attempt.
    induction (Z.to_nat (max_retries self + 1)) as [|n IH];
      intros attempt used prompt; simpl; [discriminate|].
    destruct (attempt_once self prompt attempt (svc attempt)) as [s f] eqn:E.
    destruct f as [|t st].
    + apply attempt_once_continue in E as [-> _]. apply IH.
    + simpl. intros H Hc; inversion H; subst. revert E.
      unfold attempt_once, try_body. split_matches; intros E; inversion E;
        subst; try reflexivity; discriminate.
Qed.

End EngineFacts.

Module EngineClaims.
Import PyStr PyStrFacts Summarizer Outcome SummarizerFacts Engine EngineFacts.
Import Scenario Stated.

(** C1.  Circuit breaker.  When a repository reaches the summarization
    step of a live run with the flag up, a non-empty commit list and more
    than three failures counted, the call lowers the flag and returns
    without calling the generator; and whatever repositories follow in the
    run, the instance stays as that call left it (flag down, list of
    records and counter untouched) and no later call reaches the
    generator. *)
Theorem breaker_trips_and_stays
        (self : UniGit) (dir : string) (pull_submodules : bool)
        (env : repo_env) (new_commits : string)
        (rest : list (string * repo_env)) :
  dry_run self = false ->
  enable_summary self = true ->
  updated_commits pull_submodules env = Some new_commits ->
  truthy new_commits = true ->
  summary_failures self > 3 ->
  git_pull self dir pull_submodules env
  = (set_enable_summary self false, SummariesDisabled)
  /\ (let r := run self pull_submodules ((dir, env) :: rest) in
      fst r = set_enable_summary self false
      /\ enable_summary (fst r) = false
      /\ summaries (fst r) = summaries self
      /\ forallb (fun o => negb (summarizer_called o)) (snd r) = true).
Proof.
  intros Hdry Hon Hup Hne Hgt.
  destruct (git_pull_updated self dir pull_submodules env new_commits Hdry Hup)
    as [out_branch [_ Hpull]].
  assert (Hstep : git_pull self dir pull_submodules env
                  = (set_enable_summary self false, SummariesDisabled)).
  { rewrite Hpull. unfold summarization_step. rewrite Hne, Hon. simpl.
    apply Z.gt_lt, Z.gtb_lt in Hgt. now rewrite Hgt. }
  split; [exact Hstep|]. cbv zeta. simpl. rewrite Hstep.
  destruct (run_disabled rest (set_enable_summary self false) pull_submodules
              eq_refl) as [H1 H2].
  destruct (run (set_enable_summary self false) pull_submodules rest)
    as [self2 os].
  simpl in *. subst self2. repeat split; assumption.
Qed.

Lemma breaker_trips_and_stays_witness :
  let env := live_repo abc "B" "C" "main"
               (answering "Adds commit C to the main branch.") in
  let rest := [("/home/dev/r7",
                live_repo abc "A" "C" "main" (answering good_summary));
               ("/home/dev/r8", failing_repo 1)] in
  git_pull before_trip "/home/dev/r6" false env
  = (set_enable_summary before_trip false, SummariesDisabled)
  /\ (let r := run before_trip false (("/home/dev/r6", env) :: rest) in
      fst r = set_enable_summary before_trip false
      /\ enable_summary (fst r) = false
      /\ summaries (fst r) = summaries before_trip
      /\ forallb (fun o => negb (summarizer_called o)) (snd r) = true).
Proof.
  cbv zeta.
  apply (breaker_trips_and_stays before_trip "/home/dev/r6" false
           (live_repo abc "B" "C" "main"
              (answering "Adds commit C to the main branch."))
           "ccccccc C one-line").
  - reflexivity.
  - reflexivity.
  - vm_compute; reflexivity.
  - reflexivity.
  - vm_compute; reflexivity.
Defined.

(** C3 as stated fails: the generator leaves through [return summary]
    with a validated text, a success for the specification, and the record
    is marked failed because that text begins with [Error]. *)
Lemma generated_text_marked_failed :
  ~ record_follows_outcome default_self "repo" false
      (live_repo abc "A" "C" "main"
         (answering "Error handling in the fetch path was reworked.")).
Proof.
  intros H.
  specialize (H (set_summaries default_self
                   [{| directory := "repo"; branch := "main";
                       summary := "Error handling in the fetch path was reworked.";
                       success := false |}])
                {| directory := "repo"; branch := "main";
                   summary := "Error handling in the fetch path was reworked.";
                   success := false |}
                Generated 1%nat).
  vm_compute in H. specialize (H eq_refl). discriminate.
Qed.

(** The record written for the insufficient-result [return] is marked
    successful: its text does not begin with [Error]. *)
Lemma insufficient_record_marked_success :
  snd (git_pull default_self "repo" false
         (live_repo abc "A" "C" "main" (answering "ok")))
  = Summarized
      {| directory := "repo"; branch := "main";
         summary := "Summary generation produced insufficient results.";
         success := true |}
      Insufficient 3.
Proof. vm_compute. reflexivity. Qed.

(** C3, amended.  In a live run with [max_retries >= 0], when a repository
    reaches the summarization step with the flag up, a non-empty commit
    list and at most three failures counted, the call appends exactly one
    record to the list; its text is the string the generator returned and
    its flag is true exactly when that text does not begin with [Error].
    The timeout, command-failure, not-installed and unexpected-error
    returns give a record marked failed; a generated text gives a record
    marked successful unless it begins with [Error]. *)
Theorem one_record_per_summarization
        (self : UniGit) (dir : string) (pull_submodules : bool)
        (env : repo_env) (new_commits : string) :
  dry_run self = false ->
  enable_summary self = true ->
  updated_commits pull_submodules env = Some new_commits ->
  truthy new_commits = true ->
  summary_failures self <= 3 ->
  0 <= max_retries self ->
  exists e site n,
    git_pull self dir pull_submodules env
    = (set_summaries (after_exit self site) (summaries self ++ [e]),
       Summarized e site n)
    /\ returned (summarize_with_ollama self new_commits (ollama env))
       = Some (summary e, site)
    /\ directory e = dir
    /\ success e = negb (startswith "Error" (summary e))
    /\ (counted site = true -> success e = false)
    /\ (site = Generated -> startswith "Error" (summary e) = false ->
        success e = true).
Proof.
  intros Hdry Hon Hup Hne Hle Hge.
  destruct (git_pull_updated self dir pull_submodules env new_commits Hdry Hup)
    as [out_branch [_ Hpull]].
  destruct (summarize_returns self new_commits (ollama env) Hge)
    as [text [site Hret]].
  pose proof (summarize_exit _ _ _ _ _ Hret) as Hself.
  exists {| directory := dir; branch := strip out_branch; summary := text;
            success := negb (startswith "Error" text) |}, site,
         (attempts (summarize_with_ollama self new_commits (ollama env))).
  split; [|split; [|split; [|split; [|split]]]].
  - rewrite Hpull. unfold summarization_step. rewrite Hne, Hon. simpl.
    replace (summary_failures self >? 3) with false
      by (symmetry; rewrite Z.gtb_ltb; apply Z.ltb_ge; lia).
    rewrite Hret, Hself. simpl.
    replace (summaries (after_exit self site)) with (summaries self)
      by (unfold after_exit; now destruct (counted site)).
    reflexivity.
  - exact Hret.
  - reflexivity.
  - reflexivity.
  - intros Hc. simpl. now rewrite (counted_text_is_error _ _ _ _ _ Hret Hc).
  - intros _ Hs. simpl in *. now rewrite Hs.
Qed.

Lemma one_record_per_summarization_witness :
  exists e site n,
    git_pull default_self "repo" false
      (live_repo abc "A" "C" "main" (run_raising TimeoutExpired))
    = (set_summaries (after_exit default_self site)
         (summaries default_self ++ [e]),
       Summarized e site n)
    /\ returned (summarize_with_ollama default_self
                   (strip (GitLog.unlines
                             ["ccccccc C one-line"; "bbbbbbb B one-line"]%string))
                   (ollama (live_repo abc "A" "C" "main"
                              (run_raising TimeoutExpired))))
       = Some (summary e, site)
    /\ directory e = "repo"
    /\ success e = negb (startswith "Error" (summary e))
    /\ (counted site = true -> success e = false)
    /\ (site = Generated -> startswith "Error" (summary e) = false ->
        success e = true).
Proof.
  apply (one_record_per_summarization default_self "repo" false
           (live_repo abc "A" "C" "main" (run_raising TimeoutExpired))).
  - reflexivity.
  - reflexivity.
  - vm_compute; reflexivity.
  - vm_compute; reflexivity.
  - simpl; lia.
  - simpl; lia.
Defined.

End EngineClaims.

(* ===================================================================== *)
(** ** The gateway: failed pulls and the commit list *)
(* ===================================================================== *)

Module GitLogFacts.
Import PyStr PyStrFacts GitLog.

Lemma join_empty (l : list string) :
  Forall clean l -> join l = "" -> l = [].
Proof.
  intros H. destruct l as [|x rest]; [reflexivity|].
  inversion H as [|? ? [Hx _] _]; subst. simpl.
  destruct rest; [contradiction|].
  destruct x; [contradiction | discriminate].
Qed.

Lemma rstrip_unlines (l : list string) :
  Forall clean l -> rstrip (unlines l) = join l.
Proof.
  induction 1 as [|x rest [Hne [_ Hr]] Hrest IH]; [reflexivity|].
  cbn [unlines]. rewrite (rstrip_app x _ Hne Hr).
  change (nl ++ unlines rest) with (String (ascii_of_nat 10) (unlines rest)).
  rewrite rstrip_cons, IH.
  destruct (join rest) eqn:E.
  - apply (join_empty _ Hrest) in E. subst rest. simpl.
    now rewrite append_empty.
  - destruct rest; [discriminate|]. cbn [join]. now rewrite <- E.
Qed.

(** Stripping the lines of a listing leaves them joined by newlines, in
    the order of the listing. *)
Lemma strip_unlines (l : list string) :
  Forall clean l -> strip (unlines l) = join l.
Proof.
  intros H. unfold strip.
  destruct l as [|x rest]; [reflexivity|].
  inversion H as [|? ? [Hne [Hl _]] _]; subst.
  cbn [unlines]. rewrite (lstrip_app x _ Hne Hl).
  now apply (rstrip_unlines (x :: rest)).
Qed.

Lemma after_incl a h : incl (after a h) h.
Proof.
  induction h as [|c rest IH]; simpl; [apply incl_refl|].
  destruct (rev c =? a)%string.
  - apply incl_tl, incl_refl.
  - now apply incl_tl.
Qed.

Lemma upto_incl b h : incl (upto b h) h.
Proof.
  induction h as [|c rest IH]; simpl; [apply incl_refl|].
  destruct (rev c =? b)%string.
  - intros x [<- | []]. now left.
  - intros x [<- | Hx]; [now left | right; now apply IH].
Qed.

Lemma range_incl h a b : incl (range h a b) h.
Proof.
  unfold range. eapply incl_tran; [apply upto_incl | apply after_incl].
Qed.

End GitLogFacts.

Module GatewayClaims.
Import PyStr PyStrFacts Engine EngineFacts CheckCall Scenario Stated
  GitLogFacts.

(** The test of the inner [except] clause, pattern by pattern: [403] and
    [Permission denied] as they are written, [forbidden] in any case. *)
Lemma is_forbidden_patterns (error_output : string) :
  is_forbidden error_output = true <->
  substring_of "403" error_output
  \/ ci_substring "forbidden" error_output
  \/ substring_of "Permission denied" error_output.
Proof.
  unfold is_forbidden, substring_of.
  rewrite !orb_true_iff, <- !contains_app.
  change "forbidden" with (lower "forbidden") at 1.
  rewrite contains_lower. tauto.
Qed.

(** The message of a pull that ends with an exit status from 1 to 255,
    with or without [--recurse-submodules], holds none of the three
    patterns in any letter case, and the test of the [except] clause is
    false on it. *)
Lemma pull_message_matches_nothing (pull_submodules : bool) (status : Z) :
  1 <= status <= 255 ->
  let text := str_called_process_error ("git" :: pull_argv pull_submodules)
                                       status in
  contains (lower "403") (lower text) = false
  /\ contains (lower "forbidden") (lower text) = false
  /\ contains (lower "permission denied") (lower text) = false
  /\ is_forbidden text = false.
Proof.
  intros Hs. cbv zeta.
  set (clean := fun text : string =>
         negb (contains (lower "403") (lower text))
         && negb (contains (lower "forbidden") (lower text))
         && negb (contains (lower "permission denied") (lower text))
         && negb (is_forbidden text)).
  assert (Hall : forallb (fun n : nat =>
                   clean (str_called_process_error
                            ("git" :: pull_argv false) (Z.of_nat n))
                   && clean (str_called_process_error
                               ("git" :: pull_argv true) (Z.of_nat n)))
                   (seq 1 255) = true)
    by (vm_compute; reflexivity).
  rewrite forallb_forall in Hall.
  specialize (Hall (Z.to_nat status)).
  rewrite Z2Nat.id in Hall by lia.
  assert (Hin : In (Z.to_nat status) (seq 1 255)) by (apply in_seq; lia).
  apply Hall in Hin. apply andb_true_iff in Hin as [Hf Ht].
  assert (Hc : clean (str_called_process_error
                        ("git" :: pull_argv pull_submodules) status) = true)
    by (destruct pull_submodules; assumption).
  unfold clean in Hc.
  repeat (apply andb_true_iff in Hc as [Hc ?]).
  repeat split; now apply negb_true_iff.
Qed.

(** C7.  The failure of a pull never reaches the test for a forbidden
    repository with the text of [git].  [check_call] captures nothing:
    for a pull that ends with an exit status from 1 to 255, whatever [git]
    printed, [str(e)] is the message of [subprocess], which holds none of
    the three patterns in any letter case.  So the call reports an ordinary
    pull failure, never a forbidden repository; it leaves the instance as
    it was and the run goes on with the repositories that follow. *)
Theorem denied_pull_not_classified
        (self : UniGit) (dir : string) (pull_submodules : bool)
        (env : repo_env) (out_head out_branch : string) (status : Z)
        (rest : list (string * repo_env)) :
  dry_run self = false ->
  git_rev_parse_head env = Ok out_head ->
  git_rev_parse_abbrev_ref env = Ok out_branch ->
  1 <= status <= 255 ->
  git_pull_cmd env (pull_argv pull_submodules)
  = Raise (exit_status (pull_argv pull_submodules) status) ->
  let error_output :=
    str_called_process_error ("git" :: pull_argv pull_submodules) status in
  ~ denied_ignoring_case error_output
  /\ git_pull self dir pull_submodules env = (self, PullFailed error_output)
  /\ snd (git_pull self dir pull_submodules env) <> Forbidden
  /\ run self pull_submodules ((dir, env) :: rest)
     = (fst (run self pull_submodules rest),
        PullFailed error_output :: snd (run self pull_submodules rest)).
Proof.
  intros Hdry Hhead Hbranch Hs Hpull. cbv zeta.
  destruct (pull_message_matches_nothing pull_submodules status Hs)
    as [H403 [Hforb [Hperm Htest]]].
  assert (Hcall : git_pull self dir pull_submodules env
                  = (self, PullFailed
                             (str_called_process_error
                                ("git" :: pull_argv pull_submodules) status))).
  { unfold git_pull. rewrite Hhead, Hbranch, Hdry, Hpull.
    unfold exit_status. now rewrite Htest. }
  split; [|split; [exact Hcall | split]].
  - unfold denied_ignoring_case.
    intros [H | [H | H]]; apply contains_lower in H; congruence.
  - rewrite Hcall. discriminate.
  - simpl. rewrite Hcall.
    now destruct (run self pull_submodules rest).
Qed.

Lemma denied_pull_not_classified_witness :
  let env := failing_repo 128 in
  let rest := [("/home/dev/next",
                live_repo abc "A" "C" "main" (answering good_summary))] in
  let error_output :=
    "Command '['git', 'pull']' returned non-zero exit status 128." in
  ~ denied_ignoring_case error_output
  /\ git_pull default_self "/home/dev/repo" false env
     = (default_self, PullFailed error_output)
  /\ snd (git_pull default_self "/home/dev/repo" false env) <> Forbidden
  /\ run default_self false (("/home/dev/repo", env) :: rest)
     = (fst (run default_self false rest),
        PullFailed error_output :: snd (run default_self false rest)).
Proof.
  cbv zeta.
  apply (denied_pull_not_classified default_self "/home/dev/repo" false
           (failing_repo 128) ("1111111" ++ nl) ("main" ++ nl) 128);
    try reflexivity.
  lia.
Defined.

(** C9 as stated fails: after a pull from [A] to [C] over [A -> B -> C]
    the commit list is not the oldest-first listing; it has the line of
    [C] before the line of [B]. *)
Lemma range_not_oldest_first :
  ~ listed_oldest_first abc
      (live_repo abc "A" "C" "main" (answering good_summary)) "A" "C".
Proof.
  unfold listed_oldest_first. vm_compute. discriminate.
Qed.

(** C9, amended.  The commit list is the output of [git log a..b --oneline]
    with surrounding white space stripped and nothing reordered: with the
    log subcommand listing a range newest first, it is the one-line
    summaries of the range newest first (after [A -> B -> C], the line of
    [C] before the line of [B]); when no summary is empty or has white space
    at its ends, it is those lines joined by newlines. *)
Theorem commits_listed_newest_first
        (history : list GitLog.commit) (env : repo_env) (a b : string) :
  git_log env = GitLog.git_log history ->
  commits_between env a b
  = Ok (strip (GitLog.unlines
                 (map GitLog.oneline (List.rev (GitLog.range history a b)))))
  /\ (Forall (fun c => GitLog.clean (GitLog.oneline c)) history ->
      commits_between env a b
      = Ok (GitLog.join
              (map GitLog.oneline (List.rev (GitLog.range history a b))))).
Proof.
  intros H.
  assert (K : commits_between env a b
              = Ok (strip (GitLog.unlines
                             (map GitLog.oneline
                                (List.rev (GitLog.range history a b)))))).
  { unfold commits_between. rewrite H. reflexivity. }
  split; [exact K|].
  intros Hclean. rewrite K, strip_unlines; [reflexivity|].
  apply Forall_forall. intros s Hs.
  apply in_map_iff in Hs as [c [<- Hc]].
  rewrite Forall_forall in Hclean. apply Hclean.
  apply (range_incl history a b). now apply in_rev.
Qed.

Lemma commits_listed_newest_first_witness :
  commits_between (live_repo abc "A" "C" "main" (answering good_summary))
    "A" "C"
  = Ok (GitLog.join
          (map GitLog.oneline (List.rev (GitLog.range abc "A" "C")))).
Proof.
  apply (proj2 (commits_listed_newest_first abc
                  (live_repo abc "A" "C" "main" (answering good_summary))
                  "A" "C" eq_refl)).
  repeat constructor; discriminate.
Defined.

(** The list of the scenario, as text. *)
Lemma commits_between_abc :
  commits_between (live_repo abc "A" "C" "main" (answering good_summary))
    "A" "C"
  = Ok ("ccccccc C one-line" ++ nl ++ "bbbbbbb B one-line").
Proof. vm_compute. reflexivity. Qed.

End GatewayClaims.

(* ===================================================================== *)
(** ** The ledger *)
(* ===================================================================== *)

Module LedgerClaims.
Import PyStr PyStrFacts Ledger Scenario Stated.

(** The blocks follow one another in the order of the list. *)
Lemma blocks_app (l1 l2 : list entry) :
  blocks (l1 ++ l2) = blocks l1 ++ blocks l2.
Proof.
  induction l1 as [|e l1 IH]; cbn [blocks List.app]; [reflexivity|].
  now rewrite IH, append_assoc.
Qed.

Lemma filter_success_idem (l : list entry) :
  filter success (filter success l) = filter success l.
Proof.
  induction l as [|e l IH]; simpl; [reflexivity|].
  destruct (success e) eqn:E; simpl; [rewrite E, IH|]; auto.
Qed.

Lemma nonempty_filter (l : list entry) :
  nonempty (filter success l) = true <->
  exists e, In e l /\ success e = true.
Proof.
  split.
  - destruct (filter success l) as [|e r] eqn:E; [discriminate|]. intros _.
    exists e. apply filter_In. rewrite E. now left.
  - intros [e He]. apply filter_In in He.
    destruct (filter success l); [contradiction | reflexivity].
Qed.


(** The same through the menu: the sweep over the six repositories ends
    in that instance and the ledger is the one of the earlier run. *)
Lemma pull_all_after_breaker :
  Menu.pull_all default_self false home six_repositories
    (world_of tripping_run (failing_repo 1)) old_ledger
  = (after_tripping_run, old_ledger).
Proof. vm_compute. reflexivity. Qed.



(** The file of that call, block by block. *)
Lemma ledger_of_three_records :
  save_summaries three_records old_ledger
  = Some (("Date: 2024-05-01 10:00:00" ++ nl ++ nl)
          ++ ("Directory: r1" ++ nl ++ "Branch: main" ++ nl
              ++ "Adds commits B and C." ++ nl ++ nl)
          ++ ("Directory: r3" ++ nl ++ "Branch: main" ++ nl
              ++ "Removes the old parser." ++ nl ++ nl)
          ++ ("--------------------------------------------------" ++ nl ++ nl)
          ++ "Date: 2024-04-30 09:00:00").
Proof. vm_compute. reflexivity. Qed.

(** C6.  The call leaves the file as it is when the flag is down, in
    dry-run mode, with an empty list, or when no record is successful.
    Whatever it writes is written from the successful records alone: the
    file after the call is the one the call gives with the failed records
    taken out of the list, so a failed record never reaches the ledger. *)
Theorem failed_records_never_saved (self : UniGit) (f : file) :
  (enable_summary self = false
   \/ dry_run self = true
   \/ summaries self = []
   \/ (forall e, In e (summaries self) -> success e = false) ->
   save_summaries self f = f)
  /\ save_summaries self f
     = save_summaries (set_summaries self (filter success (summaries self))) f
  /\ (forall e, In e (valid_summaries self) -> success e = true).
Proof.
  split; [|split].
  - intros H. unfold save_summaries.
    destruct (nonempty (summaries self)) eqn:Hs; [|reflexivity].
    destruct (enable_summary self) eqn:Hon; [|reflexivity].
    destruct (dry_run self) eqn:Hdry; [reflexivity|]. simpl.
    destruct (nonempty (valid_summaries self)) eqn:Hv; [|reflexivity].
    exfalso. apply nonempty_filter in Hv as [e [He Hsucc]].
    destruct H as [H | [H | [H | H]]]; try discriminate.
    + rewrite H in He. contradiction.
    + rewrite (H e He) in Hsucc. discriminate.
  - unfold save_summaries, valid_summaries. simpl.
    rewrite filter_success_idem.
    destruct (nonempty (summaries self)) eqn:Hs;
      destruct (nonempty (filter success (summaries self))) eqn:Hv;
      simpl; try reflexivity.
    + now destruct (negb (enable_summary self) || dry_run self).
    + destruct (summaries self); discriminate.
  - intros e He. unfold valid_summaries in He. now apply filter_In in He.
Qed.

Lemma failed_records_never_saved_witness :
  save_summaries one_failed_record old_ledger = old_ledger.
Proof.
  apply (proj1 (failed_records_never_saved one_failed_record old_ledger)).
  right; right; right. intros e [<- | []]. reflexivity.
Defined.

End LedgerClaims.

(* ===================================================================== *)
(** ** Discovery and the sweep *)
(* ===================================================================== *)

Module LocatorFacts.
Import PyStr Locator.

Local Arguments hidden : simpl never.

(** Induction on a tree, with the property available for every entry of a
    directory. *)
Lemma fsnode_induction (P : fsnode -> Prop) :
  P File ->
  (forall entries, Forall (fun e => P (snd e)) entries -> P (Dir entries)) ->
  forall x, P x.
Proof.
  intros HF HD. fix IH 1. intros [|entries]; [exact HF|].
  apply HD. induction entries as [|[d c] r IHr]; constructor.
  - apply IH.
  - exact IHr.
Qed.

Lemma find_dir root entries :
  find_git_repositories root (Dir entries)
  = ((if mem ".git" (walk_dirs entries) then [root] else [])
     ++ visit root entries false)%list.
Proof. reflexivity. Qed.

Lemma sweep_dir {St : Type} (pull : path -> St -> St) directory entries st :
  git_pull_recursive pull directory (Dir entries) st
  = each pull directory entries st.
Proof. reflexivity. Qed.

(** The loop of the walk goes through the subdirectories of [descended]. *)
Lemma visit_descended root es : forall removed,
  visit root es removed
  = flat_map (fun e => find_git_repositories (root ++ [fst e])%list (snd e))
      (descended es removed).
Proof.
  induction es as [|[d sub] rest IH]; intros removed; [reflexivity|].
  cbn [visit descended]. destruct sub as [|sub].
  - apply IH.
  - destruct ((d =? ".git")%string && negb removed); [apply IH|].
    destruct (negb (hidden d) || (d =? ".git")%string); [|apply IH].
    cbn [flat_map fst snd]. now rewrite IH.
Qed.

(** The names [descended] keeps are those the source leaves in [dirs]. *)
Lemma descended_names es : forall removed,
  map fst (descended es removed)
  = filter (fun d => negb (hidden d) || (d =? ".git")%string)
      (if removed then walk_dirs es
       else if mem ".git" (walk_dirs es) then remove_first ".git" (walk_dirs es)
            else walk_dirs es).
Proof.
  unfold walk_dirs, mem.
  induction es as [|[d sub] rest IH]; intros removed.
  - now destruct removed.
  - destruct sub as [|sub]; simpl; [apply IH|].
    destruct (d =? ".git")%string eqn:Ed; destruct removed; simpl;
      rewrite ?Ed, ?orb_true_r, ?orb_false_r; simpl;
      try destruct (existsb (fun d0 => (d0 =? ".git")%string)
                      (map fst (filter (fun e => is_dir (snd e)) rest))) eqn:Ex;
      simpl; rewrite ?Ed, ?orb_true_r, ?orb_false_r;
      try destruct (negb (hidden d)); simpl;
      rewrite ?(IH true), ?(IH false), ?Ex; reflexivity.
Qed.

Lemma descended_pruned_dirs es :
  map fst (descended es false) = pruned_dirs (walk_dirs es).
Proof. apply (descended_names es false). Qed.

Lemma each_nil {St : Type} (pull : path -> St -> St) directory st :
  each pull directory [] st = st.
Proof. reflexivity. Qed.

Lemma each_cons {St : Type} (pull : path -> St -> St) directory item child
      rest st :
  each pull directory ((item, child) :: rest) st
  = if skipped item then each pull directory rest st
    else match child with
         | File => each pull directory rest st
         | Dir sub =>
             if has_git_dir sub
             then each pull directory rest (pull (directory ++ [item])%list st)
             else each pull directory rest
                    (git_pull_recursive pull (directory ++ [item])%list child st)
         end.
Proof. reflexivity. Qed.

(** The sweep that notes paths adds its targets to the log it is given. *)
Lemma each_note directory es :
  Forall (fun e => forall dir log,
            git_pull_recursive note dir (snd e) log
            = (log ++ sweep_targets dir (snd e))%list) es ->
  forall log,
    each note directory es log = (log ++ each note directory es [])%list.
Proof.
  induction 1 as [|[item child] rest Hc _ IH]; intros log.
  - rewrite !each_nil. now rewrite app_nil_r.
  - rewrite !each_cons. destruct (skipped item); [apply IH|].
    destruct child as [|sub]; [apply IH|].
    destruct (has_git_dir sub).
    + rewrite IH, (IH (note _ [])). unfold note.
      now rewrite app_nil_l, <- app_assoc.
    + cbn [snd] in Hc. rewrite !Hc, IH, (IH (_ ++ _)%list).
      now rewrite app_nil_l, <- app_assoc.
Qed.

Lemma sweep_note x : forall dir log,
  git_pull_recursive note dir x log = (log ++ sweep_targets dir x)%list.
Proof.
  induction x as [|entries IH] using fsnode_induction; intros dir log.
  - unfold sweep_targets. simpl. now rewrite app_nil_r.
  - unfold sweep_targets. rewrite !sweep_dir. now apply each_note.
Qed.

(** A sweep is the fold of its action over its targets, in order. *)
Lemma each_fold {St : Type} (pull : path -> St -> St) directory es :
  Forall (fun e => forall dir st,
            git_pull_recursive pull dir (snd e) st
            = fold_left (fun s p => pull p s) (sweep_targets dir (snd e)) st)
         es ->
  forall st,
    each pull directory es st
    = fold_left (fun s p => pull p s) (each note directory es []) st.
Proof.
  induction 1 as [|[item child] rest Hc _ IH]; intros st.
  - reflexivity.
  - rewrite !each_cons. destruct (skipped item); [apply IH|].
    destruct child as [|sub]; [apply IH|].
    assert (Hn : forall log, each note directory rest log
                             = (log ++ each note directory rest [])%list).
    { intros log. apply each_note. apply Forall_forall. intros e _ dir l.
      apply sweep_note. }
    destruct (has_git_dir sub).
    + rewrite Hn, fold_left_app, IH. reflexivity.
    + cbn [snd] in Hc.
      rewrite Hn, fold_left_app, IH, Hc, sweep_note. reflexivity.
Qed.

Lemma sweep_fold {St : Type} (pull : path -> St -> St) x : forall dir st,
  git_pull_recursive pull dir x st
  = fold_left (fun s p => pull p s) (sweep_targets dir x) st.
Proof.
  induction x as [|entries IH] using fsnode_induction; intros dir st.
  - reflexivity.
  - unfold sweep_targets. rewrite !sweep_dir. now apply each_fold.
Qed.

(** The targets of a sweep are the paths of [pulled], below the directory
    the sweep starts from. *)
Lemma each_pulled directory es :
  Forall (fun e => forall dir r,
            In r (sweep_targets dir (snd e)) <->
            exists p, r = (dir ++ p)%list /\ pulled (snd e) p) es ->
  forall r,
    In r (each note directory es []) <->
    exists item child q,
      In (item, child) es /\ skipped item = false /\
      r = (directory ++ item :: q)%list /\
      match child with
      | File => False
      | Dir sub => if has_git_dir sub then q = [] else pulled child q
      end.
Proof.
  assert (Hn : forall es log, each note directory es log
                              = (log ++ each note directory es [])%list).
  { intros es0 log. apply each_note. apply Forall_forall. intros e _ dir l.
    apply sweep_note. }
  induction 1 as [|[item child] rest Hc _ IH]; intros r.
  - rewrite each_nil. split; [contradiction|]. intros [i [c [q [[] _]]]].
  - rewrite each_cons.
    assert (Hrest : In r (each note directory rest []) ->
                    exists i c q,
                      In (i, c) ((item, child) :: rest) /\ skipped i = false /\
                      r = (directory ++ i :: q)%list /\
                      match c with
                      | File => False
                      | Dir sub => if has_git_dir sub then q = [] else pulled c q
                      end).
    { intros Hr. apply IH in Hr as [i [c [q [Hin Hq]]]].
      exists i, c, q. split; [now right | exact Hq]. }
    destruct (skipped item) eqn:Esk.
    + split; [exact Hrest|].
      intros [i [c [q [[Heq | Hin] [Hs Hq]]]]].
      * inversion Heq; subst. congruence.
      * apply IH. now exists i, c, q.
    + destruct child as [|sub].
      * split; [exact Hrest|].
        intros [i [c [q [[Heq | Hin] [Hs Hq]]]]].
        -- inversion Heq; subst. now destruct Hq.
        -- apply IH. now exists i, c, q.
      * destruct (has_git_dir sub) eqn:Eg.
        -- rewrite Hn. unfold note at 1. rewrite app_nil_l.
           change (In r ([(directory ++ [item])%list]
                         ++ each note directory rest [])%list)
             with ((directory ++ [item])%list = r
                   \/ In r (each note directory rest [])).
           split.
           ++ intros [<- | Hr]; [|now apply Hrest].
              exists item, (Dir sub), []. rewrite Eg.
              split; [now left | repeat split; auto].
           ++ intros [i [c [q [[Heq | Hin] [Hs [-> Hq]]]]]].
              ** inversion Heq; subst. rewrite Eg in Hq. subst q. now left.
              ** right. apply IH. now exists i, c, q.
        -- rewrite sweep_note, Hn, app_nil_l, in_app_iff. cbn [snd] in Hc.
           rewrite Hc. split.
           ++ intros [[p [-> Hp]] | Hr]; [|now apply Hrest].
              exists item, (Dir sub), p. rewrite Eg, <- app_assoc.
              split; [now left | repeat split; auto].
           ++ intros [i [c [q [[Heq | Hin] [Hs [-> Hq]]]]]].
              ** inversion Heq; subst. rewrite Eg in Hq. left. exists q.
                 now rewrite <- app_assoc.
              ** right. apply IH. now exists i, c, q.
Qed.

Lemma sweep_pulled x : forall dir r,
  In r (sweep_targets dir x) <-> exists p, r = (dir ++ p)%list /\ pulled x p.
Proof.
  induction x as [|entries IH] using fsnode_induction; intros dir r.
  - simpl. split; [contradiction|]. intros [p [_ Hp]]. now destruct p.
  - unfold sweep_targets. rewrite sweep_dir, (each_pulled dir entries IH).
    split.
    + intros [item [child [q [Hin [Hs [-> Hq]]]]]].
      exists (item :: q). split; [reflexivity|]. simpl. now exists child.
    + intros [p [-> Hp]]. destruct p as [|item q]; [contradiction|].
      simpl in Hp. destruct Hp as [child [Hin [Hs Hq]]].
      now exists item, child, q.
Qed.

(** *** Names, lookups and unique names *)

Lemma names_unique_cons d c rest :
  names_unique (Dir ((d, c) :: rest))
  = negb (existsb (fun e => (fst e =? d)%string) rest)
    && names_unique c && names_unique (Dir rest).
Proof. reflexivity. Qed.

Lemma lookup_in d c es : lookup d es = Some c -> In (d, c) es.
Proof.
  induction es as [|[n x] rest IH]; simpl; [discriminate|].
  destruct (n =? d)%string eqn:E.
  - apply String.eqb_eq in E. intros H; inversion H; subst. now left.
  - intros H. right. now apply IH.
Qed.

Lemma no_name_in d (c : fsnode) es :
  existsb (fun e => (fst e =? d)%string) es = false -> ~ In (d, c) es.
Proof.
  intros H Hin.
  assert (K : existsb (fun e => (fst e =? d)%string) es = true).
  { apply existsb_exists. exists (d, c). split; [exact Hin|].
    apply String.eqb_refl. }
  congruence.
Qed.

Lemma unique_in d c1 c2 es :
  names_unique (Dir es) = true ->
  In (d, c1) es -> In (d, c2) es -> c1 = c2.
Proof.
  induction es as [|[n x] rest IH]; [contradiction|].
  rewrite names_unique_cons, !andb_true_iff, negb_true_iff.
  intros [[Hn _] Hr] [H1 | H1] [H2 | H2].
  - congruence.
  - inversion H1; subst. now apply no_name_in in H2.
  - inversion H2; subst. now apply no_name_in in H1.
  - now apply IH.
Qed.

Lemma unique_child d c es :
  names_unique (Dir es) = true -> In (d, c) es -> names_unique c = true.
Proof.
  induction es as [|[n x] rest IH]; [contradiction|].
  rewrite names_unique_cons, !andb_true_iff.
  intros [[_ Hx] Hr] [H | H].
  - now inversion H; subst.
  - now apply IH.
Qed.

Lemma unique_lookup d c es :
  names_unique (Dir es) = true -> In (d, c) es -> lookup d es = Some c.
Proof.
  induction es as [|[n x] rest IH]; [contradiction|].
  rewrite names_unique_cons, !andb_true_iff, negb_true_iff.
  intros [[Hn _] Hr] [H | H]; simpl.
  - inversion H; subst. now rewrite String.eqb_refl.
  - destruct (n =? d)%string eqn:E.
    + apply String.eqb_eq in E. subst. now apply no_name_in in H.
    + now apply IH.
Qed.

Lemma hidden_git : hidden ".git" = true.
Proof. reflexivity. Qed.

Lemma ordinary_not_git d : hidden d = false -> (d =? ".git")%string = false.
Proof.
  intros H. apply String.eqb_neq. intros ->. now rewrite hidden_git in H.
Qed.

Lemma ordinary_not_skipped d : hidden d = false -> skipped d = false.
Proof. intros H. unfold skipped. now rewrite H. Qed.

Lemma has_git_dir_mem sub :
  has_git_dir sub = true -> mem ".git" (walk_dirs sub) = true.
Proof.
  unfold has_git_dir, mem, walk_dirs. intros H.
  destruct (lookup ".git" sub) as [[|g]|] eqn:E; try discriminate.
  apply lookup_in in E. apply existsb_exists. exists ".git". split.
  - apply in_map_iff. exists (".git", Dir g). split; [reflexivity|].
    apply filter_In. now split.
  - reflexivity.
Qed.

(** *** The walk of [find_git_repositories] *)

Lemma descended_in es : forall removed e,
  In e (descended es removed) -> In e es.
Proof.
  induction es as [|[d sub] rest IH]; intros removed e; simpl; [trivial|].
  destruct sub as [|sub]; [intros H; right; eapply IH; eauto|].
  destruct ((d =? ".git")%string && negb removed);
    [intros H; right; eapply IH; eauto|].
  destruct (negb (hidden d) || (d =? ".git")%string);
    [|intros H; right; eapply IH; eauto].
  intros [H | H]; [now left | right; eapply IH; eauto].
Qed.

(** A subdirectory with an ordinary name is descended into. *)
Lemma descended_ordinary d sub es : forall removed,
  hidden d = false -> In (d, Dir sub) es ->
  In (d, Dir sub) (descended es removed).
Proof.
  intros removed Hd. revert removed.
  induction es as [|[n x] rest IH]; intros removed; [contradiction|].
  intros [H | H]; simpl.
  - inversion H; subst. rewrite (ordinary_not_git _ Hd), Hd. simpl. now left.
  - destruct x as [|y]; [now apply IH|].
    destruct ((n =? ".git")%string && negb removed); [now apply IH|].
    destruct (negb (hidden n) || (n =? ".git")%string); [right|]; now apply IH.
Qed.

(** With unique names, only ordinary subdirectories are descended into. *)
Lemma descended_unique es : forall removed d c,
  names_unique (Dir es) = true ->
  (removed = true ->
   existsb (fun e => (fst e =? ".git")%string) es = false) ->
  In (d, c) (descended es removed) -> hidden d = false.
Proof.
  induction es as [|[n x] rest IH]; intros removed d c; [contradiction|].
  rewrite names_unique_cons, !andb_true_iff, negb_true_iff.
  intros [[Hn _] Hr] Hrem. simpl.
  assert (Hrest : removed = true ->
                  existsb (fun e => (fst e =? ".git")%string) rest = false).
  { intros Ht. specialize (Hrem Ht). simpl in Hrem.
    now apply orb_false_iff in Hrem. }
  destruct x as [|y]; [now apply IH|].
  destruct (n =? ".git")%string eqn:En.
  - apply String.eqb_eq in En. subst n.
    destruct removed; simpl.
    + specialize (Hrem eq_refl). simpl in Hrem. discriminate.
    + apply IH; [exact Hr | intros _; exact Hn].
  - simpl. rewrite orb_false_r.
    destruct (negb (hidden n)) eqn:Eh; [|now apply IH].
    intros [H | H]; [|now apply IH in H].
    inversion H; subst. now apply negb_true_iff in Eh.
Qed.

Lemma find_complete p : forall x root y,
  Forall (fun d => hidden d = false) p ->
  resolve x p = Some y -> is_repository y = true ->
  In (root ++ p)%list (find_git_repositories root x).
Proof.
  induction p as [|d q IH]; intros x root y Hp Hres Hrepo.
  - simpl in Hres. inversion Hres; subst y. rewrite app_nil_r.
    destruct x as [|entries]; [discriminate|].
    rewrite find_dir. simpl in Hrepo.
    rewrite (has_git_dir_mem _ Hrepo). now left.
  - inversion Hp as [|? ? Hd Hq]; subst.
    destruct x as [|entries]; [discriminate|]. simpl in Hres.
    destruct (lookup d entries) as [child|] eqn:El; [|discriminate].
    assert (exists sub, child = Dir sub) as [sub ->].
    { destruct child as [|sub]; [|now exists sub].
      destruct q; simpl in Hres; [|discriminate].
      inversion Hres; subst. discriminate. }
    rewrite find_dir, in_app_iff. right.
    rewrite visit_descended. apply in_flat_map.
    exists (d, Dir sub). split.
    + apply descended_ordinary; [exact Hd | now apply lookup_in].
    + cbn [fst snd].
      replace (root ++ d :: q)%list with ((root ++ [d]) ++ q)%list
        by now rewrite <- app_assoc.
      now apply (IH (Dir sub) _ y).
Qed.

Lemma find_ordinary x : forall root r,
  names_unique x = true ->
  In r (find_git_repositories root x) ->
  exists p, r = (root ++ p)%list /\ Forall (fun d => hidden d = false) p.
Proof.
  induction x as [|entries IH] using fsnode_induction; intros root r Hu.
  - contradiction.
  - rewrite find_dir, in_app_iff, visit_descended, in_flat_map.
    intros [H | [[d c] [Hin Hr]]].
    + exists []. rewrite app_nil_r.
      destruct (mem ".git" (walk_dirs entries)); [|contradiction].
      destruct H as [<- | []]. now split.
    + cbn [fst snd] in Hr.
      pose proof (descended_unique _ _ _ _ Hu (fun H => False_ind _
                    (Bool.diff_false_true H)) Hin) as Hd.
      apply descended_in in Hin.
      rewrite Forall_forall in IH.
      destruct (IH _ Hin (root ++ [d])%list r (unique_child _ _ _ Hu Hin) Hr)
        as [p [-> Hp]].
      exists (d :: p). split; [now rewrite <- app_assoc|].
      now constructor.
Qed.

(** *** The targets of the sweep *)

Lemma pulled_components p : forall x,
  pulled x p -> Forall (fun d => skipped d = false) p.
Proof.
  induction p as [|d q IH]; intros x H; [constructor|].
  destruct x as [|entries]; [contradiction|].
  destruct H as [child [_ [Hs Hq]]]. constructor; [exact Hs|].
  destruct child as [|sub]; [contradiction|].
  destruct (has_git_dir sub); [subst; constructor | now apply (IH (Dir sub))].
Qed.

Lemma pulled_repository p : forall x,
  names_unique x = true -> pulled x p ->
  exists y, resolve x p = Some y /\ is_repository y = true.
Proof.
  induction p as [|d q IH]; intros x Hu H; [now destruct x|].
  destruct x as [|entries]; [contradiction|].
  destruct H as [child [Hin [_ Hq]]].
  destruct child as [|sub]; [contradiction|].
  simpl. rewrite (unique_lookup _ _ _ Hu Hin).
  destruct (has_git_dir sub) eqn:Eg.
  - subst q. exists (Dir sub). now split.
  - apply IH; [exact (unique_child _ _ _ Hu Hin) | exact Hq].
Qed.

(** The sweep does not go below a directory it pulls. *)
Lemma pulled_not_nested p : forall x (q : path),
  names_unique x = true -> pulled x p -> q <> [] -> ~ pulled x (p ++ q)%list.
Proof.
  induction p as [|d p' IH]; intros x q Hu H Hq H'; [now destruct x|].
  destruct x as [|entries]; [contradiction|].
  destruct H as [child [Hin [_ Hc]]].
  simpl in H'. destruct H' as [child' [Hin' [_ Hc']]].
  rewrite (unique_in _ _ _ _ Hu Hin' Hin) in Hc'.
  destruct child as [|sub]; [contradiction|].
  destruct (has_git_dir sub).
  - subst p'. simpl in Hc'. contradiction.
  - exact (IH (Dir sub) q (unique_child _ _ _ Hu Hin) Hc Hq Hc').
Qed.

(** A repository reached through ordinary directories none of which is a
    repository is pulled. *)
Lemma pulled_outermost p : forall x y,
  p <> [] ->
  Forall (fun d => hidden d = false) p ->
  resolve x p = Some y -> is_repository y = true ->
  (forall k z, (0 < k < length p)%nat ->
               resolve x (firstn k p) = Some z -> is_repository z = false) ->
  pulled x p.
Proof.
  induction p as [|d q IH]; intros x y Hne Hp Hres Hrepo Hpre; [contradiction|].
  inversion Hp as [|? ? Hd Hq]; subst.
  destruct x as [|entries]; [discriminate|]. simpl in Hres.
  destruct (lookup d entries) as [child|] eqn:El; [|discriminate].
  assert (exists sub, child = Dir sub) as [sub ->].
  { destruct child as [|sub]; [|now exists sub].
    destruct q; simpl in Hres; [|discriminate].
    inversion Hres; subst. discriminate. }
  exists (Dir sub). split; [now apply lookup_in|].
  split; [now apply ordinary_not_skipped|].
  destruct q as [|d' q'].
  - simpl in Hres. inversion Hres; subst y. simpl in Hrepo. now rewrite Hrepo.
  - assert (Hsub : has_git_dir sub = false).
    { apply (Hpre 1%nat (Dir sub)); [simpl; lia|]. simpl. now rewrite El. }
    rewrite Hsub. apply (IH (Dir sub) y); auto; [discriminate|].
    intros k z Hk Hz. apply (Hpre (S k) z); [simpl in *; lia|].
    simpl. rewrite El. exact Hz.
Qed.

End LocatorFacts.

Module LocatorClaims.
Import PyStr Locator LocatorFacts Scenario Stated.

(** C4 as stated fails: the repository [outer/sub/inner] lies inside the
    repository [outer]; the locator finds it and the sweep, which does not
    go below [outer], does not pull it. *)
Lemma nested_repository_not_swept :
  ~ found_and_swept nested_tree ["outer"; "sub"; "inner"]%string.
Proof.
  intros H.
  assert (K : In ["outer"; "sub"; "inner"]%string
                (sweep_targets [] nested_tree)).
  { apply H; [repeat constructor | eexists; split; reflexivity]. }
  vm_compute in K. destruct K as [K | [K | []]]; discriminate.
Qed.

(** C4, amended.  In a tree whose directories have no two entries of one
    name: [find_git_repositories] prunes only the metadata directory, so it
    finds every repository that is reached through directories with
    ordinary names, also one that lies inside another repository, and it
    finds nothing below a hidden directory.  The recursive update sweep
    pulls a directory that holds the metadata directory and does not go
    below it: it pulls every repository reached through ordinary
    directories none of which is a repository, every directory it pulls is
    a repository, no path it pulls continues a path it pulls, and it passes
    over the hidden entries other than [.git]. *)
Theorem only_metadata_pruned (x : fsnode) :
  names_unique x = true ->
  (forall p y,
      Forall (fun d => hidden d = false) p ->
      resolve x p = Some y -> is_repository y = true ->
      In p (find_git_repositories [] x))
  /\ (forall p,
        In p (find_git_repositories [] x) ->
        Forall (fun d => hidden d = false) p)
  /\ (forall p y,
        p <> [] ->
        Forall (fun d => hidden d = false) p ->
        resolve x p = Some y -> is_repository y = true ->
        (forall k z, (0 < k < length p)%nat ->
                     resolve x (firstn k p) = Some z ->
                     is_repository z = false) ->
        In p (sweep_targets [] x))
  /\ (forall p,
        In p (sweep_targets [] x) ->
        Forall (fun d => skipped d = false) p
        /\ exists y, resolve x p = Some y /\ is_repository y = true)
  /\ (forall p q,
        In p (sweep_targets [] x) -> q <> [] ->
        ~ In (p ++ q)%list (sweep_targets [] x)).
Proof.
  intros Hu. repeat split.
  - intros p y Hp Hres Hrepo.
    exact (find_complete p x [] y Hp Hres Hrepo).
  - intros p Hin.
    destruct (find_ordinary x [] p Hu Hin) as [p' [-> Hp]]. exact Hp.
  - intros p y Hne Hp Hres Hrepo Hpre.
    apply sweep_pulled. exists p. split; [reflexivity|].
    now apply (pulled_outermost p x y).
  - apply sweep_pulled in H as [p' [-> Hp]]. now apply pulled_components in Hp.
  - apply sweep_pulled in H as [p' [-> Hp]]. now apply pulled_repository.
  - intros p q Hin Hq Hin'.
    apply sweep_pulled in Hin as [p1 [-> H1]].
    apply sweep_pulled in Hin' as [p2 [E H2]]. simpl in E. subst p2.
    exact (pulled_not_nested p1 x q Hu H1 Hq H2).
Qed.

Lemma only_metadata_pruned_witness :
  In ["outer"; "sub"; "inner"]%string (find_git_repositories [] nested_tree)
  /\ In ["plain"; "lib"]%string (sweep_targets [] nested_tree)
  /\ ~ In (["outer"] ++ ["sub"; "inner"])%list (sweep_targets [] nested_tree).
Proof.
  destruct (only_metadata_pruned nested_tree eq_refl)
    as [Hfind [_ [Hsweep [_ Hnest]]]].
  split; [|split].
  - apply (Hfind _ (Dir [(".git", Dir [("HEAD", File)])])).
    + repeat constructor.
    + reflexivity.
    + reflexivity.
  - apply (Hsweep _ (Dir [(".git", Dir []); ("README", File)])).
    + discriminate.
    + repeat constructor.
    + reflexivity.
    + reflexivity.
    + intros k z Hk. destruct k as [|[|k]]; [lia | | simpl in Hk; lia].
      simpl. intros Hz. inversion Hz; subst. reflexivity.
  - apply Hnest; [|discriminate].
    apply (Hsweep _ (Dir [ (".git", Dir [("HEAD", File)]);
                           ("sub", Dir [("inner", Dir [(".git", Dir [("HEAD", File)])])]);
                           (".cache", Dir [("tool", Dir [(".git", Dir [])])]) ])).
    + discriminate.
    + repeat constructor.
    + reflexivity.
    + reflexivity.
    + intros k z Hk. simpl in Hk. lia.
Defined.

(** What the two scans give on the tree of the scenario. *)
Lemma scans_of_nested_tree :
  find_git_repositories [] nested_tree
  = [["outer"]; ["outer"; "sub"; "inner"]; ["plain"; "lib"]]%string
  /\ sweep_targets [] nested_tree = [["outer"]; ["plain"; "lib"]]%string.
Proof. split; reflexivity. Qed.

(** The sweep of the menu is the run over the targets of the sweep. *)
Lemma sweep_is_run (w : Menu.world) (pull_submodules : bool) (x : fsnode)
      (directory : path) (self : UniGit) :
  Menu.git_pull_recursive w pull_submodules directory x self
  = fst (Engine.run self pull_submodules
           (map (fun p => (Menu.str_path p, w p)) (sweep_targets directory x))).
Proof.
  unfold Menu.git_pull_recursive. rewrite sweep_fold.
  generalize (sweep_targets directory x) as l. intros l. revert self.
  induction l as [|p l IH]; intros self; [reflexivity|].
  simpl. rewrite IH.
  destruct (Engine.git_pull self (Menu.str_path p) pull_submodules (w p))
    as [self1 o].
  simpl. now destruct (Engine.run self1 pull_submodules
                         (map (fun p0 => (Menu.str_path p0, w p0)) l)).
Qed.

End LocatorClaims.


(* ===================================================================== *)
(** ** Runs of the engine *)
(* ===================================================================== *)

Module RunFacts.
Import PyStr PyStrFacts Summarizer Outcome SummarizerFacts Engine EngineFacts.
Import RunModel.

(** A call of the generator changes nothing but the failure counter. *)
Lemma summarize_frame self commit_messages svc :
  let self' := self_after (summarize_with_ollama self commit_messages svc) in
  self' = self \/ self' = bump_failures self.
Proof.
  cbv zeta.
  destruct (returned (summarize_with_ollama self commit_messages svc))
    as [[text site]|] eqn:E.
  - rewrite (summarize_exit _ _ _ _ _ E). unfold after_exit.
    destruct (counted site); auto.
  - left. now apply summarize_none.
Qed.

(** The three ways a call of [git_pull] can end: without effect; by
    tripping the breaker; after a call of the generator. *)
Lemma git_pull_cases self dir pull_submodules env :
  (fst (git_pull self dir pull_submodules env) = self
   /\ summarizer_called (snd (git_pull self dir pull_submodules env)) = false
   /\ record_of (snd (git_pull self dir pull_submodules env)) = []
   /\ (enable_summary self = false \/ dry_run self = true
       \/ updated_commits pull_submodules env = None
       \/ updated_commits pull_submodules env = Some ""))
  \/ (git_pull self dir pull_submodules env
      = (set_enable_summary self false, SummariesDisabled)
      /\ dry_run self = false /\ enable_summary self = true
      /\ summary_failures self > 3
      /\ exists new_commits,
           updated_commits pull_submodules env = Some new_commits
           /\ truthy new_commits = true)
  \/ (exists new_commits out_branch,
        dry_run self = false /\ enable_summary self = true
        /\ summary_failures self <= 3
        /\ git_rev_parse_abbrev_ref env = Ok out_branch
        /\ updated_commits pull_submodules env = Some new_commits
        /\ truthy new_commits = true
        /\ git_pull self dir pull_submodules env
           = let c := summarize_with_ollama self new_commits (ollama env) in
             match returned c with
             | None => (self_after c, NoSummaryValue)
             | Some (text, site) =>
                 let e := {| directory := dir; branch := strip out_branch;
                             summary := text;
                             success := negb (startswith "Error" text) |} in
                 (set_summaries (self_after c) (summaries self ++ [e]),
                  Summarized e site (attempts c))
             end).
Proof.
  destruct (dry_run self) eqn:Hdry.
  { left. unfold git_pull. rewrite Hdry.
    split_matches; repeat split; auto; now destruct e. }
  destruct (updated_commits pull_submodules env) as [new_commits|] eqn:Hup.
  - destruct (git_pull_updated self dir pull_submodules env new_commits
                Hdry Hup) as [out_branch [Hb Hpull]].
    rewrite Hpull. unfold summarization_step.
    destruct (truthy new_commits) eqn:Hne.
    + destruct (enable_summary self) eqn:Hon; simpl.
      * destruct (summary_failures self >? 3) eqn:Hgt.
        -- right; left. repeat split; [apply Z.gtb_lt in Hgt; lia|].
           now exists new_commits.
        -- right; right. exists new_commits, out_branch.
           repeat split; auto.
           ++ rewrite Z.gtb_ltb in Hgt. apply Z.ltb_ge in Hgt. lia.
           ++ destruct (returned (summarize_with_ollama self new_commits
                                    (ollama env))) as [[text site]|] eqn:E;
                [|reflexivity].
              destruct (summarize_frame self new_commits (ollama env))
                as [-> | ->]; reflexivity.
      * left. repeat split; auto.
    + left. simpl. repeat split; auto. right; right; right.
      apply truthy_false in Hne. now subst.
  - left. unfold updated_commits in Hup. unfold git_pull. rewrite Hdry.
    destruct (git_rev_parse_head env) as [out_head|e];
      [|repeat split; auto; now destruct e].
    destruct (git_rev_parse_abbrev_ref env) as [out_branch|e];
      [|repeat split; auto; now destruct e].
    destruct (git_pull_cmd env (pull_argv pull_submodules)) as [?|e].
    + destruct (git_rev_parse_head_after env) as [out_new|e];
        [|repeat split; auto; now destruct e].
      destruct (strip out_head =? strip out_new)%string;
        [repeat split; auto|].
      destruct (commits_between env (strip out_head) (strip out_new))
        as [?|e]; [discriminate|].
      repeat split; auto; now destruct e.
    + destruct e; simpl; try (repeat split; auto; fail).
      destruct (is_forbidden str_e); repeat split; auto.
Qed.

(** What one call does to the instance, read off its outcome. *)
Lemma git_pull_accounts self dir pull_submodules env :
  let self' := fst (git_pull self dir pull_submodules env) in
  let o := snd (git_pull self dir pull_submodules env) in
  summaries self' = (summaries self ++ record_of o)%list
  /\ summary_failures self'
     = summary_failures self + (if counted_failure o then 1 else 0)
  /\ (counted_failure o = true -> summary_failures self <= 3)
  /\ (enable_summary self' = true -> enable_summary self = true)
  /\ dry_run self' = dry_run self
  /\ model self' = model self
  /\ max_retries self' = max_retries self
  /\ current_date self' = current_date self.
Proof.
  cbv zeta.
  destruct (git_pull_cases self dir pull_submodules env)
    as [[H [_ [Hr _]]] | [[H _] | [c [b [_ [_ [Hle [_ [_ [_ H]]]]]]]]]].
  - rewrite Hr, H, app_nil_r.
    assert (counted_failure (snd (git_pull self dir pull_submodules env))
            = false) as ->.
    { destruct (snd (git_pull self dir pull_submodules env));
        try reflexivity; discriminate. }
    repeat split; auto; try lia; discriminate.
  - rewrite H. simpl. rewrite app_nil_r.
    repeat split; auto; try lia; discriminate.
  - rewrite H. cbv zeta.
    destruct (returned (summarize_with_ollama self c (ollama env)))
      as [[text site]|] eqn:E.
    + rewrite (summarize_exit _ _ _ _ _ E). unfold after_exit. simpl.
      destruct (counted site); simpl; repeat split; auto; lia.
    + rewrite (summarize_none _ _ _ E). simpl. rewrite app_nil_r.
      repeat split; auto; try lia; discriminate.
Qed.

Lemma run_cons self pull_submodules dir env rest :
  run self pull_submodules ((dir, env) :: rest)
  = (fst (run (fst (git_pull self dir pull_submodules env)) pull_submodules
            rest),
     snd (git_pull self dir pull_submodules env)
     :: snd (run (fst (git_pull self dir pull_submodules env)) pull_submodules
               rest)).
Proof.
  simpl. destruct (git_pull self dir pull_submodules env) as [self1 o].
  simpl. now destruct (run self1 pull_submodules rest).
Qed.

Lemma run_records (repos : list (string * repo_env)) :
  forall (self : UniGit) (pull_submodules : bool),
  summaries (fst (run self pull_submodules repos))
  = (summaries self ++ records_of (snd (run self pull_submodules repos)))%list.
Proof.
  induction repos as [|[dir env] rest IH]; intros self ps.
  - simpl. now rewrite app_nil_r.
  - rewrite run_cons. cbn [fst snd]. rewrite IH.
    destruct (git_pull_accounts self dir ps env) as [H1 _].
    rewrite H1. unfold records_of. cbn [flat_map].
    now rewrite <- app_assoc.
Qed.

Lemma run_counter (repos : list (string * repo_env)) :
  forall (self : UniGit) (pull_submodules : bool),
  summary_failures (fst (run self pull_submodules repos))
  = summary_failures self
    + failures_in (snd (run self pull_submodules repos)).
Proof.
  induction repos as [|[dir env] rest IH]; intros self ps.
  - unfold failures_in. simpl. lia.
  - rewrite run_cons. cbn [fst snd]. rewrite IH.
    destruct (git_pull_accounts self dir ps env) as [_ [H2 _]].
    rewrite H2. unfold failures_in. cbn [filter].
    destruct (counted_failure (snd (git_pull self dir ps env)));
      cbn [length]; lia.
Qed.

End RunFacts.

Module RunTheorems.
Import PyStr PyStrFacts Summarizer Outcome SummarizerFacts Engine EngineFacts.
Import RunModel RunFacts Scenario RunScenario.

(** X1.  Bookkeeping of a run.  After any run, the list of records is the list
    before it followed by the records of the calls that were summarized,
    in order; the failure counter has grown by the number of calls whose
    generator call ended in a counted failure; the flag is up only if it
    was up before; the other attributes are as before. *)
Theorem run_accounts (repos : list (string * repo_env)) :
  forall (self : UniGit) (pull_submodules : bool),
  let self' := fst (run self pull_submodules repos) in
  let os := snd (run self pull_submodules repos) in
  summaries self' = (summaries self ++ records_of os)%list
  /\ summary_failures self' = summary_failures self + failures_in os
  /\ (enable_summary self' = true -> enable_summary self = true)
  /\ dry_run self' = dry_run self
  /\ model self' = model self
  /\ max_retries self' = max_retries self
  /\ current_date self' = current_date self
  /\ length os = length repos.
Proof.
  induction repos as [|[dir env] rest IH]; intros self ps; cbv zeta.
  - simpl. rewrite app_nil_r. unfold failures_in. simpl.
    repeat split; auto; lia.
  - rewrite run_cons. cbn [fst snd].
    destruct (git_pull_accounts self dir ps env)
      as [H1 [H2 [_ [H4 [H5 [H6 [H7 H8]]]]]]].
    destruct (IH (fst (git_pull self dir ps env)) ps)
      as [K1 [K2 [K4 [K5 [K6 [K7 [K8 K9]]]]]]].
    rewrite K1, K2, K5, K6, K7, K8, H1, H2, H5, H6, H7, H8.
    unfold records_of, failures_in in *. cbn [flat_map filter length].
    rewrite <- app_assoc.
    destruct (counted_failure (snd (git_pull self dir ps env)));
      cbn [length]; repeat split; auto; lia.
Qed.

(** X2.  The breaker bounds the counter.  Over any run the counter does not go
    down and never passes the larger of its starting value and four: a
    process that starts at zero sees at most four generator calls end in a
    counted failure. *)
Theorem failures_bounded (repos : list (string * repo_env)) :
  forall (self : UniGit) (pull_submodules : bool),
  let self' := fst (run self pull_submodules repos) in
  summary_failures self <= summary_failures self'
  /\ summary_failures self' <= Z.max (summary_failures self) 4
  /\ (summary_failures self = 0 ->
      failures_in (snd (run self pull_submodules repos)) <= 4).
Proof.
  assert (Hb : forall repos self ps,
             summary_failures self
             <= summary_failures (fst (run self ps repos))
             <= Z.max (summary_failures self) 4).
  { clear repos. induction repos as [|[dir env] rest IH]; intros self ps.
    - simpl. lia.
    - rewrite run_cons. cbn [fst].
      destruct (git_pull_accounts self dir ps env) as [_ [H2 [H3 _]]].
      specialize (IH (fst (git_pull self dir ps env)) ps).
      destruct (counted_failure (snd (git_pull self dir ps env)));
        [specialize (H3 eq_refl)|]; lia. }
  intros self ps. cbv zeta. destruct (Hb repos self ps) as [H1 H2].
  repeat split; auto.
  intros H0. pose proof (run_counter repos self ps) as K. lia.
Qed.

(** X3.  Only an updated repository matters.  A run over repositories none of
    which ends a pull with a moved head and a non-empty commit list (the
    pull is forbidden or fails, a command raises, the head stays, the log
    is empty) returns the instance as it was, breaker flag included, and
    never calls the generator. *)
Theorem quiet_run (repos : list (string * repo_env)) (self : UniGit)
        (pull_submodules : bool) :
  (forall dir env, In (dir, env) repos ->
     updated_commits pull_submodules env = None
     \/ updated_commits pull_submodules env = Some "") ->
  fst (run self pull_submodules repos) = self
  /\ forallb (fun o => negb (summarizer_called o))
       (snd (run self pull_submodules repos)) = true.
Proof.
  induction repos as [|[dir env] rest IH]; intros Hq; [now split|].
  rewrite run_cons. cbn [fst snd forallb].
  assert (Hstep : fst (git_pull self dir pull_submodules env) = self
                  /\ summarizer_called
                       (snd (git_pull self dir pull_submodules env)) = false).
  { destruct (git_pull_cases self dir pull_submodules env)
      as [[H [Hc _]] | [[_ [_ [_ [_ [c [Hup Hne]]]]]]
                       | [c [b [_ [_ [_ [_ [Hup [Hne _]]]]]]]]]].
    - now split.
    - destruct (Hq dir env (or_introl eq_refl)) as [K | K];
        rewrite K in Hup; [discriminate|].
      inversion Hup; subst. discriminate.
    - destruct (Hq dir env (or_introl eq_refl)) as [K | K];
        rewrite K in Hup; [discriminate|].
      inversion Hup; subst. discriminate. }
  destruct Hstep as [-> ->].
  destruct IH as [H1 H2]; [intros d e Hin; apply (Hq d e); now right|].
  now rewrite H1, H2.
Qed.

Lemma quiet_run_witness :
  fst (run default_self false
         [("/home/dev/r1", failing_repo 128);
          ("/home/dev/r2",
           live_repo abc "C" "C" "main" (answering good_summary))])
  = default_self
  /\ forallb (fun o => negb (summarizer_called o))
       (snd (run default_self false
               [("/home/dev/r1", failing_repo 128);
                ("/home/dev/r2",
                 live_repo abc "C" "C" "main" (answering good_summary))]))
     = true.
Proof.
  apply (quiet_run
           [("/home/dev/r1", failing_repo 128);
            ("/home/dev/r2",
             live_repo abc "C" "C" "main" (answering good_summary))]
           default_self false).
  intros dir env [H | [H | []]]; inversion H; subst; left; reflexivity.
Defined.

Lemma git_pull_dry self dir pull_submodules env :
  dry_run self = true ->
  git_pull self dir pull_submodules env
  = (self, snd (git_pull self dir pull_submodules (blind env)))
  /\ preview_or_error (snd (git_pull self dir pull_submodules (blind env)))
     = true.
Proof.
  intros Hdry. unfold git_pull, commits_between. simpl. rewrite Hdry.
  destruct (git_rev_parse_head env) as [?|e];
    [|destruct e; split; reflexivity].
  destruct (git_rev_parse_abbrev_ref env) as [?|e];
    [|destruct e; split; reflexivity].
  destruct (git_fetch env) as [?|e]; [|destruct e; split; reflexivity].
  destruct (git_log env _ _ _) as [?|e]; [|destruct e; split; reflexivity].
  split; reflexivity.
Qed.

Lemma run_dry_fst (repos : list (string * repo_env)) (self : UniGit)
      (pull_submodules : bool) :
  dry_run self = true -> fst (run self pull_submodules repos) = self.
Proof.
  intros Hdry. induction repos as [|[dir env] rest IH]; [reflexivity|].
  rewrite run_cons. cbn [fst].
  destruct (git_pull_dry self dir pull_submodules env Hdry) as [H _].
  now rewrite H.
Qed.

(** X4.  Dry run.  With [dry_run] set, a run returns the instance as it was and
    every call ends in a preview or a reported error; the outcomes are those
    of the same run with the pull, the second reading of the head and the
    generation service out of reach, so none of them is used. *)
Theorem dry_run_touches_nothing (repos : list (string * repo_env))
        (self : UniGit) (pull_submodules : bool) :
  dry_run self = true ->
  run self pull_submodules repos
  = (self, snd (run self pull_submodules
                  (map (fun r => (fst r, blind (snd r))) repos)))
  /\ forallb preview_or_error (snd (run self pull_submodules repos)) = true.
Proof.
  intros Hdry.
  induction repos as [|[dir env] rest IH]; [now split|].
  destruct IH as [IH1 IH2].
  cbn [map fst snd]. rewrite !run_cons.
  destruct (git_pull_dry self dir pull_submodules env Hdry) as [H1 H2].
  assert (Hb : fst (git_pull self dir pull_submodules (blind env)) = self).
  { destruct (git_pull_dry self dir pull_submodules (blind env) Hdry)
      as [K _]. now rewrite K. }
  rewrite H1, Hb. cbn [fst snd forallb].
  rewrite H2, IH2. split; [|reflexivity].
  rewrite IH1. reflexivity.
Qed.

Lemma dry_run_touches_nothing_witness :
  run dry_self false tripping_run
  = (dry_self,
     snd (run dry_self false
            (map (fun r => (fst r, blind (snd r))) tripping_run)))
  /\ forallb preview_or_error (snd (run dry_self false tripping_run)) = true.
Proof.
  apply (dry_run_touches_nothing tripping_run dry_self false). reflexivity.
Defined.

End RunTheorems.

(* ===================================================================== *)
(** ** The retries of the generator and the text it returns *)
(* ===================================================================== *)

Module RetryFacts.
Import PyStr PyStrFacts Summarizer Outcome SummarizerFacts RunModel.

Lemma length_app (a b : string) :
  String.length (a ++ b) = (String.length a + String.length b)%nat.
Proof. induction a as [|c a IH]; simpl; [reflexivity | now rewrite IH]. Qed.

Lemma length_take (n : nat) : forall s,
  (n <= String.length s)%nat -> String.length (take n s) = n.
Proof.
  unfold take. induction n as [|n IH]; intros s H.
  - now destruct s.
  - destruct s as [|c s]; simpl in *; [lia|]. rewrite IH; lia.
Qed.

Lemma len_truthy (s : string) : 1 <= len s -> truthy s = true.
Proof. destruct s; unfold len; simpl; [lia | reflexivity]. Qed.

Lemma accepted_text_bounds (stdout : string) :
  10 <= len (strip stdout) ->
  10 <= len (accepted_text stdout) <= 1000.
Proof.
  intros H. unfold accepted_text.
  destruct (len (strip stdout) >? 1000) eqn:E.
  - apply Z.gtb_lt in E. unfold len in *.
    rewrite length_app, length_take by lia. simpl. lia.
  - rewrite Z.gtb_ltb in E. apply Z.ltb_ge in E. lia.
Qed.

(** An attempt that fails retriably, with attempts left, is followed by
    the next one. *)
Lemma attempt_once_retry self prompt attempt env :
  fails_retriably self prompt env ->
  attempt < max_retries self ->
  attempt_once self prompt attempt env = (self, Continue).
Proof.
  intros Hf Hlt. apply Z.ltb_lt in Hlt. unfold attempt_once, try_body.
  destruct Hf as [[e [He [Hr | [Hl Hr]]]] | [out [Hl [Hr Hs]]]].
  - rewrite Hr, Hlt. now destruct e.
  - rewrite Hl, Hr, Hlt. now destruct e.
  - rewrite Hl, Hr.
    replace (negb (truthy (strip out)) || (len (strip out) <? 10)) with true.
    + now rewrite Hlt.
    + apply Z.ltb_lt in Hs. rewrite Hs. now rewrite orb_true_r.
Qed.

Lemma attempts_from_skip (m : nat) :
  forall n attempt self prompt svc used,
  (forall j, attempt <= j < attempt + Z.of_nat m ->
             fails_retriably self prompt (svc j)) ->
  attempt + Z.of_nat m <= max_retries self ->
  attempts_from (m + n) attempt self prompt svc used
  = attempts_from n (attempt + Z.of_nat m) self prompt svc (used + m).
Proof.
  induction m as [|m IH]; intros n attempt self prompt svc used Hf Hle.
  - simpl. now rewrite Z.add_0_r, Nat.add_0_r.
  - cbn [Nat.add attempts_from].
    rewrite attempt_once_retry; [|apply Hf; lia | lia].
    rewrite IH; [|intros j Hj; apply Hf; lia | lia].
    f_equal; lia.
Qed.

Lemma attempt_once_accepts self prompt attempt env stdout :
  ollama_list env = Ok tt ->
  ollama_run env (model self) prompt = Ok stdout ->
  10 <= len (strip stdout) ->
  attempt_once self prompt attempt env
  = (self, Return (accepted_text stdout) Generated).
Proof.
  intros Hl Hr Hs. unfold attempt_once, try_body, accepted_text.
  rewrite Hl, Hr, len_truthy by lia.
  replace (len (strip stdout) <? 10) with false
    by (symmetry; apply Z.ltb_ge; lia).
  reflexivity.
Qed.

Lemma attempt_once_gives_up self prompt attempt env e :
  retried e = true -> raises self prompt env e ->
  max_retries self <= attempt ->
  attempt_once self prompt attempt env
  = (bump_failures self,
     Return (site_text (site_of_exn e)) (site_of_exn e)).
Proof.
  intros He Hr Hle. apply Z.ltb_ge in Hle. unfold attempt_once, try_body.
  destruct Hr as [Hr | [Hl Hr]].
  - rewrite Hr. destruct e; try discriminate; now rewrite Hle.
  - rewrite Hl, Hr. destruct e; try discriminate; now rewrite Hle.
Qed.

Lemma attempt_once_short self prompt attempt env :
  falls_short self prompt env ->
  max_retries self <= attempt ->
  attempt_once self prompt attempt env
  = (self, Return (site_text Insufficient) Insufficient).
Proof.
  intros [out [Hl [Hr Hs]]] Hle. apply Z.ltb_ge in Hle.
  unfold attempt_once, try_body. rewrite Hl, Hr.
  replace (negb (truthy (strip out)) || (len (strip out) <? 10)) with true.
  - now rewrite Hle.
  - apply Z.ltb_lt in Hs. rewrite Hs. now rewrite orb_true_r.
Qed.

(** The text of a [return], by its site. *)
Lemma attempt_once_text self prompt attempt env self' text site :
  attempt_once self prompt attempt env = (self', Return text site) ->
  (site = Generated /\ 10 <= len text <= 1000)
  \/ (site <> Generated /\ site <> BlankInput /\ text = site_text site).
Proof.
  unfold attempt_once, try_body.
  destruct (ollama_list env) as [[]|e].
  - destruct (ollama_run env (model self) prompt) as [out|e].
    + destruct (negb (truthy (strip out)) || (len (strip out) <? 10)) eqn:E.
      * destruct (attempt <? max_retries self); intros H; inversion H; subst.
        right. repeat split; discriminate.
      * intros H; inversion H; subst. left. split; [reflexivity|].
        apply orb_false_iff in E as [_ E]. apply Z.ltb_ge in E.
        exact (accepted_text_bounds out E).
    + destruct e; try destruct (attempt <? max_retries self);
        intros H; inversion H; subst; right; repeat split; discriminate.
  - destruct e; try destruct (attempt <? max_retries self);
      intros H; inversion H; subst; right; repeat split; discriminate.
Qed.

Lemma attempts_from_text n : forall attempt self prompt svc used text site,
  returned (attempts_from n attempt self prompt svc used) = Some (text, site) ->
  (site = Generated /\ 10 <= len text <= 1000)
  \/ (site <> Generated /\ site <> BlankInput /\ text = site_text site).
Proof.
  induction n as [|n IH]; intros attempt self prompt svc used text site;
    simpl; [discriminate|].
  destruct (attempt_once self prompt attempt (svc attempt)) as [s f] eqn:E.
  destruct f as [|t st].
  - apply IH.
  - simpl. intros H; inversion H; subst.
    exact (attempt_once_text _ _ _ _ _ _ _ E).
Qed.

Lemma summarize_text self commit_messages svc text site :
  returned (summarize_with_ollama self commit_messages svc)
  = Some (text, site) ->
  (site = Generated /\ 10 <= len text <= 1000)
  \/ (site <> Generated /\ text = site_text site).
Proof.
  unfold summarize_with_ollama.
  destruct (negb (truthy (strip commit_messages))).
  - simpl. intros H; inversion H; subst. right. split; [discriminate|].
    reflexivity.
  - intros H. apply attempts_from_text in H.
    destruct H as [H | [Hg [_ Ht]]]; [now left | now right].
Qed.

Lemma site_text_len site :
  site <> Generated -> 1 <= len (site_text site) <= 1000.
Proof.
  destruct site; try contradiction; intros _; vm_compute; split; discriminate.
Qed.

End RetryFacts.

Module RetryTheorems.
Import PyStr PyStrFacts Summarizer Outcome SummarizerFacts RunModel RetryFacts.
Import Engine EngineFacts RunFacts Scenario.

(** X5.  A failure that a later attempt makes good is not counted.  When the
    attempts before attempt [k] fail retriably (an exception other than the
    missing executable, or a text shorter than ten characters), [k] does
    not exceed [max_retries], and attempt [k] prints a text of at least ten
    characters once stripped, the call returns that text (cut to 997
    characters and an ellipsis when longer than 1000) after [k + 1]
    attempts, and the instance, failure counter included, is as before. *)
Theorem late_success (self : UniGit) (commit_messages : string)
        (svc : service) (k : nat) (stdout : string) :
  truthy (strip commit_messages) = true ->
  Z.of_nat k <= max_retries self ->
  (forall j, 0 <= j < Z.of_nat k ->
             fails_retriably self (make_prompt commit_messages) (svc j)) ->
  ollama_list (svc (Z.of_nat k)) = Ok tt ->
  ollama_run (svc (Z.of_nat k)) (model self) (make_prompt commit_messages)
  = Ok stdout ->
  10 <= len (strip stdout) ->
  summarize_with_ollama self commit_messages svc
  = {| self_after := self;
       returned := Some (accepted_text stdout, Generated);
       attempts := S k |}.
Proof.
  intros Hnb Hk Hf Hl Hr Hs. unfold summarize_with_ollama. rewrite Hnb. simpl.
  replace (Z.to_nat (max_retries self + 1))
    with (k + S (Z.to_nat (max_retries self) - k))%nat by lia.
  rewrite attempts_from_skip; [|intros j Hj; apply Hf; lia | lia].
  cbn [attempts_from]. rewrite Z.add_0_l.
  rewrite (attempt_once_accepts _ _ _ _ stdout Hl Hr Hs).
  f_equal.
Qed.

Lemma late_success_witness :
  summarize_with_ollama default_self one_commit
    (down_then_up TimeoutExpired good_summary)
  = {| self_after := default_self;
       returned := Some (accepted_text good_summary, Generated);
       attempts := 2 |}.
Proof.
  apply (late_success default_self one_commit
           (down_then_up TimeoutExpired good_summary) 1 good_summary).
  - reflexivity.
  - simpl; lia.
  - intros j Hj. replace j with 0 by lia. left. exists TimeoutExpired.
    split; [reflexivity | left; reflexivity].
  - reflexivity.
  - reflexivity.
  - vm_compute. discriminate.
Defined.

(** X6.  Retries are used up before a failure is final.  With
    [max_retries >= 0] and a commit text that is not blank, when every
    attempt before the last fails retriably, the call runs exactly
    [max_retries + 1] attempts.  If the last attempt raises an exception
    other than the missing executable, the call returns the text of that
    failure and counts one failure; if it prints a text shorter than ten
    characters, the call returns the insufficient-results text and counts
    nothing. *)
Theorem retries_exhausted (self : UniGit) (commit_messages : string)
        (svc : service) :
  truthy (strip commit_messages) = true ->
  0 <= max_retries self ->
  (forall j, 0 <= j < max_retries self ->
             fails_retriably self (make_prompt commit_messages) (svc j)) ->
  (forall e, retried e = true ->
     raises self (make_prompt commit_messages) (svc (max_retries self)) e ->
     summarize_with_ollama self commit_messages svc
     = {| self_after := bump_failures self;
          returned := Some (site_text (site_of_exn e), site_of_exn e);
          attempts := Z.to_nat (max_retries self + 1) |})
  /\ (falls_short self (make_prompt commit_messages) (svc (max_retries self)) ->
      summarize_with_ollama self commit_messages svc
      = {| self_after := self;
           returned := Some (site_text Insufficient, Insufficient);
           attempts := Z.to_nat (max_retries self + 1) |}).
Proof.
  intros Hnb Hge Hf.
  assert (Hloop : summarize_with_ollama self commit_messages svc
                  = attempts_from 1 (max_retries self) self
                      (make_prompt commit_messages) svc
                      (Z.to_nat (max_retries self))).
  { unfold summarize_with_ollama. rewrite Hnb. cbn [negb].
    replace (Z.to_nat (max_retries self + 1))
      with (Z.to_nat (max_retries self) + 1)%nat by lia.
    rewrite attempts_from_skip; [|intros j Hj; apply Hf; lia | lia].
    replace (0 + Z.of_nat (Z.to_nat (max_retries self)))
      with (max_retries self) by lia.
    reflexivity. }
  split.
  - intros e He Hr. rewrite Hloop. cbn [attempts_from].
    rewrite (attempt_once_gives_up _ _ _ _ e He Hr) by lia.
    f_equal. lia.
  - intros Hs. rewrite Hloop. cbn [attempts_from].
    rewrite (attempt_once_short _ _ _ _ Hs) by lia.
    f_equal. lia.
Qed.

Lemma retries_exhausted_witness :
  summarize_with_ollama default_self one_commit (run_raising TimeoutExpired)
  = {| self_after := bump_failures default_self;
       returned := Some ("Error: Summary generation timed out.", TimedOut);
       attempts := 3 |}.
Proof.
  apply (proj1 (retries_exhausted default_self one_commit
                  (run_raising TimeoutExpired) eq_refl
                  ltac:(simpl; lia)
                  (fun j _ => or_introl
                     (ex_intro _ TimeoutExpired
                        (conj eq_refl (or_intror (conj eq_refl eq_refl))))))
           TimeoutExpired eq_refl).
  right. split; reflexivity.
Defined.

(** X7.  The text a call returns.  Whatever the service does, a returned text
    has between one and a thousand characters; a generated summary has at
    least ten; every other return gives the fixed text of its site. *)
Theorem returned_text_bounds (self : UniGit) (commit_messages : string)
        (svc : service) (text : string) (site : exit_site) :
  returned (summarize_with_ollama self commit_messages svc)
  = Some (text, site) ->
  1 <= len text <= 1000
  /\ (site = Generated -> 10 <= len text)
  /\ (site <> Generated -> text = site_text site).
Proof.
  intros H. apply summarize_text in H.
  destruct H as [[-> Hb] | [Hg ->]].
  - split; [lia|]. split; [intros _; lia | congruence].
  - split; [now apply site_text_len|].
    split; [contradiction | reflexivity].
Qed.

Lemma returned_text_bounds_witness :
  1 <= len "Summary generation produced insufficient results." <= 1000
  /\ (Insufficient = Generated ->
      10 <= len "Summary generation produced insufficient results.")
  /\ (Insufficient <> Generated ->
      "Summary generation produced insufficient results."
      = site_text Insufficient).
Proof.
  apply (returned_text_bounds default_self one_commit (answering "ok")).
  vm_compute. reflexivity.
Defined.

(** X8.  Every record a run appends is marked by the prefix test on its text
    and carries a text of one to a thousand characters. *)
Theorem run_records_well_formed (repos : list (string * repo_env)) :
  forall (self : UniGit) (pull_submodules : bool),
  Forall well_formed_record
         (records_of (snd (run self pull_submodules repos))).
Proof.
  induction repos as [|[dir env] rest IH]; intros self ps; [constructor|].
  rewrite run_cons. cbn [snd]. unfold records_of. cbn [flat_map].
  apply Forall_app. split; [|apply IH].
  destruct (git_pull_cases self dir ps env)
    as [[_ [_ [Hr _]]] | [[H _] | [c [b [_ [_ [_ [_ [_ [_ H]]]]]]]]]].
  - rewrite Hr. constructor.
  - rewrite H. constructor.
  - rewrite H. cbv zeta.
    destruct (returned (summarize_with_ollama self c (ollama env)))
      as [[text site]|] eqn:E; [|constructor].
    cbn [snd record_of]. constructor; [|constructor].
    split; [reflexivity|]. simpl.
    destruct (summarize_text _ _ _ _ _ E) as [[_ Hb] | [Hg ->]];
      [lia | now apply site_text_len].
Qed.

End RetryTheorems.

(* ===================================================================== *)
(** ** The ledger across calls, and the sweep of the menu *)
(* ===================================================================== *)

Module LedgerTheorems.
Import PyStr PyStrFacts Ledger Engine RunModel RunFacts RunTheorems Scenario.




Lemma pull_all_unfold (self : UniGit) (pull_submodules : bool)
      (here : path) (cwd : fsnode) (w : Menu.world) (f : file) :
  Menu.pull_all self pull_submodules here cwd w f
  = (fst (run (set_summaries self []) pull_submodules
            (map (fun p => (Menu.str_path p, w p))
                 (Locator.sweep_targets here cwd))),
     save_summaries
       (fst (run (set_summaries self []) pull_submodules
               (map (fun p => (Menu.str_path p, w p))
                    (Locator.sweep_targets here cwd)))) f).
Proof.
  unfold Menu.pull_all. rewrite LocatorClaims.sweep_is_run.
  set (r := run (set_summaries self []) pull_submodules _).
  destruct (nonempty (summaries (fst r)) && enable_summary (fst r)) eqn:E;
    [reflexivity|].
  unfold save_summaries.
  apply andb_false_iff in E as [E | E]; rewrite E; simpl; [reflexivity|].
  now rewrite orb_true_r.
Qed.

(** X11.  The sweep of the menu.  Option 2 of [pull_repository] is the run, from
    an empty list of records, over the targets of the sweep of the current
    directory, followed by [save_summaries]: the test before the call of
    [save_summaries] changes nothing.  The records it ends with are those
    of the calls of this sweep, whatever the list held before.  Each call
    receives the absolute path of its repository, the sweep starting at
    [Path.cwd()]. *)
Theorem pull_all_is_run_then_save (self : UniGit) (pull_submodules : bool)
        (here : path) (cwd : fsnode) (w : Menu.world) (f : file) :
  let r := run (set_summaries self []) pull_submodules
               (map (fun p => (Menu.str_path p, w p))
                    (Locator.sweep_targets here cwd)) in
  Menu.pull_all self pull_submodules here cwd w f
  = (fst r, save_summaries (fst r) f)
  /\ summaries (fst r) = records_of (snd r).
Proof.
  cbv zeta. split; [apply pull_all_unfold|].
  now rewrite run_records.
Qed.

(** X12.  Nothing to summarize.  With the flag down, or in dry-run mode, option
    2 of [pull_repository] ends with the instance it started from, its
    list of records emptied, and with the file as it was. *)
Theorem pull_all_off (self : UniGit) (pull_submodules : bool)
        (here : path) (cwd : fsnode) (w : Menu.world) (f : file) :
  enable_summary self = false \/ dry_run self = true ->
  Menu.pull_all self pull_submodules here cwd w f
  = (set_summaries self [], f).
Proof.
  intros Hoff. rewrite pull_all_unfold.
  set (repos := map (fun p => (Menu.str_path p, w p))
                    (Locator.sweep_targets here cwd)).
  assert (Hrun : fst (run (set_summaries self []) pull_submodules repos)
                 = set_summaries self []).
  { destruct Hoff as [Hoff | Hdry].
    - now apply EngineFacts.run_disabled.
    - now apply run_dry_fst. }
  rewrite Hrun. reflexivity.
Qed.

Lemma pull_all_off_witness :
  Menu.pull_all RunScenario.dry_self false home six_repositories
    (world_of tripping_run (failing_repo 1)) old_ledger
  = (set_summaries RunScenario.dry_self [], old_ledger).
Proof.
  apply (pull_all_off RunScenario.dry_self false home six_repositories).
  right. reflexivity.
Defined.

End LedgerTheorems.

(* ===================================================================== *)
(** ** The two scans compared *)
(* ===================================================================== *)

Module ScanTheorems.
Import PyStr Locator LocatorFacts Scenario.

Local Arguments hidden : simpl never.

Lemma mem_git_has_git_dir entries :
  names_unique (Dir entries) = true ->
  mem ".git" (walk_dirs entries) = true -> has_git_dir entries = true.
Proof.
  intros Hu H. unfold mem, walk_dirs in H.
  apply existsb_exists in H as [d [Hin Hd]].
  apply String.eqb_eq in Hd. subst d.
  apply in_map_iff in Hin as [[n c] [Hn Hin]]. simpl in Hn. subst n.
  apply filter_In in Hin as [Hin Hc]. simpl in Hc.
  destruct c as [|g]; [discriminate|].
  unfold has_git_dir. now rewrite (unique_lookup _ _ _ Hu Hin).
Qed.

Lemma find_sound x : forall root r,
  names_unique x = true ->
  In r (find_git_repositories root x) ->
  exists p y, r = (root ++ p)%list /\ resolve x p = Some y
              /\ is_repository y = true.
Proof.
  induction x as [|entries IH] using fsnode_induction; intros root r Hu.
  - contradiction.
  - rewrite find_dir, in_app_iff, visit_descended, in_flat_map.
    intros [H | [[d c] [Hin Hr]]].
    + destruct (mem ".git" (walk_dirs entries)) eqn:E; [|contradiction].
      destruct H as [<- | []].
      exists [], (Dir entries). rewrite app_nil_r.
      repeat split. simpl. now apply mem_git_has_git_dir.
    + cbn [fst snd] in Hr. apply descended_in in Hin.
      rewrite Forall_forall in IH.
      destruct (IH _ Hin (root ++ [d])%list r (unique_child _ _ _ Hu Hin) Hr)
        as [p [y [-> [Hres Hrepo]]]].
      exists (d :: p), y. rewrite <- app_assoc. repeat split; auto.
      simpl. now rewrite (unique_lookup _ _ _ Hu Hin).
Qed.

(** X13.  What [find_git_repositories] returns.  In a tree whose directories
    have no two entries of one name, a path is in the result exactly when
    all its components are ordinary names and it leads to a directory that
    holds a [.git] directory. *)
Theorem find_exactly (x : fsnode) (p : path) :
  names_unique x = true ->
  (In p (find_git_repositories [] x) <->
   Forall (fun d => hidden d = false) p
   /\ exists y, resolve x p = Some y /\ is_repository y = true).
Proof.
  intros Hu. split.
  - intros Hin. split.
    + destruct (find_ordinary x [] p Hu Hin) as [p' [-> Hp]]. exact Hp.
    + destruct (find_sound x [] p Hu Hin) as [p' [y [-> H]]]. now exists y.
  - intros [Hp [y [Hres Hrepo]]]. exact (find_complete p x [] y Hp Hres Hrepo).
Qed.

Lemma find_exactly_witness :
  In ["outer"; "sub"; "inner"]%string (find_git_repositories [] nested_tree) <->
  Forall (fun d => hidden d = false) ["outer"; "sub"; "inner"]%string
  /\ exists y, resolve nested_tree ["outer"; "sub"; "inner"]%string = Some y
               /\ is_repository y = true.
Proof.
  apply (find_exactly nested_tree). reflexivity.
Defined.

(** X14.  The sweep and the locator.  In a tree with unique names: the sweep
    never pulls the directory it starts from; every directory it pulls
    through ordinary names is one the locator finds; and every repository
    the locator finds below the start directory is pulled by the sweep or
    lies inside a directory the sweep pulls. *)
Theorem sweep_versus_find (x : fsnode) :
  names_unique x = true ->
  ~ In [] (sweep_targets [] x)
  /\ (forall p, In p (sweep_targets [] x) ->
                Forall (fun d => hidden d = false) p ->
                In p (find_git_repositories [] x))
  /\ (forall p, In p (find_git_repositories [] x) -> p <> [] ->
                exists p1 p2, p = (p1 ++ p2)%list
                              /\ In p1 (sweep_targets [] x)).
Proof.
  intros Hu. split; [|split].
  - intros H. apply sweep_pulled in H as [p [E Hp]]. simpl in E. subst p.
    now destruct x.
  - intros p Hin Hp. apply sweep_pulled in Hin as [p' [E Hpull]].
    simpl in E. subst p'.
    destruct (pulled_repository p x Hu Hpull) as [y [Hres Hrepo]].
    exact (find_complete p x [] y Hp Hres Hrepo).
  - intros p Hin Hne.
    destruct (find_ordinary x [] p Hu Hin) as [p' [E' Hp]].
    simpl in E'. subst p'.
    destruct (find_sound x [] p Hu Hin) as [p' [y [E' [Hres Hrepo]]]].
    simpl in E'. subst p'.
    assert (K : exists p1 p2, p = (p1 ++ p2)%list /\ pulled x p1).
    { clear Hu Hin. revert x Hres. induction p as [|d q IH]; intros x Hres;
        [contradiction|].
      inversion Hp as [|? ? Hd Hq]; subst.
      destruct x as [|entries]; [discriminate|]. simpl in Hres.
      destruct (lookup d entries) as [child|] eqn:El; [|discriminate].
      assert (exists sub, child = Dir sub) as [sub ->].
      { destruct child as [|sub]; [|now exists sub].
        destruct q; simpl in Hres; [|discriminate].
        inversion Hres; subst. discriminate. }
      destruct (has_git_dir sub) eqn:Eg.
      - exists [d], q. split; [reflexivity|]. simpl.
        exists (Dir sub). rewrite Eg.
        repeat split; [now apply lookup_in | now apply ordinary_not_skipped].
      - destruct q as [|d' q'].
        + simpl in Hres. inversion Hres; subst. simpl in Hrepo. congruence.
        + destruct (IH ltac:(discriminate) Hq (Dir sub) Hres)
            as [p1 [p2 [E Hp1]]].
          exists (d :: p1), p2. split; [simpl; now rewrite E|].
          simpl. exists (Dir sub). rewrite Eg.
          repeat split;
            [now apply lookup_in | now apply ordinary_not_skipped | exact Hp1]. }
    destruct K as [p1 [p2 [E Hp1]]]. exists p1, p2. split; [exact E|].
    apply sweep_pulled. now exists p1.
Qed.

Lemma sweep_versus_find_witness :
  ~ In [] (sweep_targets [] nested_tree)
  /\ (forall p, In p (sweep_targets [] nested_tree) ->
                Forall (fun d => hidden d = false) p ->
                In p (find_git_repositories [] nested_tree))
  /\ (forall p, In p (find_git_repositories [] nested_tree) -> p <> [] ->
                exists p1 p2, p = (p1 ++ p2)%list
                              /\ In p1 (sweep_targets [] nested_tree)).
Proof.
  apply (sweep_versus_find nested_tree). reflexivity.
Defined.

Lemma unique_names_nodup es :
  names_unique (Dir es) = true -> NoDup (map fst es).
Proof.
  induction es as [|[d c] rest IH]; [constructor|].
  rewrite names_unique_cons, !andb_true_iff, negb_true_iff.
  intros [[Hn _] Hr]. simpl. constructor; [|now apply IH].
  intros Hin. apply in_map_iff in Hin as [[n y] [E Hin]]. simpl in E. subst n.
  now apply no_name_in in Hin.
Qed.

(** Lists of paths that continue [root] by distinct names do not meet. *)
Lemma nodup_flat_map (root : path) (f : string * fsnode -> list path) es :
  NoDup (map fst es) ->
  (forall e, In e es -> NoDup (f e)) ->
  (forall e r, In e es -> In r (f e) ->
               exists q, r = (root ++ fst e :: q)%list) ->
  NoDup (flat_map f es).
Proof.
  induction es as [|e rest IH]; intros Hn Hf Hp; [constructor|].
  inversion Hn as [|? ? Hnot Hrest]; subst. cbn [flat_map].
  apply NoDup_app.
  - apply Hf. now left.
  - apply IH; auto.
    + intros e' He'. apply Hf. now right.
    + intros e' r He'. apply Hp. now right.
  - intros r Hr Hr'. apply in_flat_map in Hr' as [e' [He' Hr']].
    destruct (Hp e r (or_introl eq_refl) Hr) as [q ->].
    destruct (Hp e' _ (or_intror He') Hr') as [q' E].
    apply app_inv_head in E. inversion E as [[E1 E2]].
    apply Hnot. rewrite E1. now apply in_map.
Qed.

Lemma descended_names_nodup es : forall removed,
  NoDup (map fst es) -> NoDup (map fst (descended es removed)).
Proof.
  induction es as [|[d c] rest IH]; intros removed Hn; [constructor|].
  inversion Hn as [|? ? Hnot Hrest]; subst. simpl.
  destruct c as [|sub]; [now apply IH|].
  destruct ((d =? ".git")%string && negb removed); [now apply IH|].
  destruct (negb (hidden d) || (d =? ".git")%string); [|now apply IH].
  simpl. constructor; [|now apply IH].
  intros Hin. apply in_map_iff in Hin as [[n y] [E Hin]]. simpl in E. subst n.
  apply descended_in in Hin. apply Hnot.
  change d with (fst (d, y)). now apply in_map.
Qed.

Lemma find_nodup x : forall root,
  names_unique x = true -> NoDup (find_git_repositories root x).
Proof.
  induction x as [|entries IH] using fsnode_induction; intros root Hu.
  - constructor.
  - rewrite find_dir, visit_descended.
    assert (Hsub : NoDup (flat_map
                            (fun e => find_git_repositories
                                        (root ++ [fst e])%list (snd e))
                            (descended entries false))).
    { apply (nodup_flat_map root).
      - apply descended_names_nodup. now apply unique_names_nodup.
      - intros [d c] Hin. apply descended_in in Hin.
        rewrite Forall_forall in IH. apply (IH _ Hin).
        exact (unique_child _ _ _ Hu Hin).
      - intros [d c] r Hin Hr. apply descended_in in Hin. cbn [fst snd] in *.
        destruct (find_ordinary c _ r (unique_child _ _ _ Hu Hin) Hr)
          as [p [-> _]].
        exists p. now rewrite <- app_assoc. }
    destruct (mem ".git" (walk_dirs entries)); [|exact Hsub].
    simpl. constructor; [|exact Hsub].
    intros Hin. apply in_flat_map in Hin as [[d c] [Hin Hr]].
    apply descended_in in Hin. cbn [fst snd] in Hr.
    destruct (find_ordinary c _ root (unique_child _ _ _ Hu Hin) Hr)
      as [p [E _]].
    apply (f_equal (@length string)) in E.
    rewrite !length_app in E. simpl in E. lia.
Qed.

(** The targets below a directory, entry by entry. *)
Lemma each_flat_map dir es :
  each note dir es []
  = flat_map
      (fun e =>
         if skipped (fst e) then []
         else match snd e with
              | File => []
              | Dir sub =>
                  if has_git_dir sub then [(dir ++ [fst e])%list]
                  else sweep_targets (dir ++ [fst e])%list (snd e)
              end) es.
Proof.
  assert (Hn : forall es log, each note dir es log
                              = (log ++ each note dir es [])%list).
  { intros es0 log. apply each_note. apply Forall_forall. intros e _ d l.
    apply sweep_note. }
  induction es as [|[item child] rest IH]; [reflexivity|].
  rewrite each_cons. cbn [flat_map fst snd].
  destruct (skipped item); [exact IH|].
  destruct child as [|sub]; [exact IH|].
  destruct (has_git_dir sub).
  - rewrite Hn, IH. reflexivity.
  - rewrite sweep_note, Hn, IH. reflexivity.
Qed.

Lemma sweep_nodup x : forall dir,
  names_unique x = true -> NoDup (sweep_targets dir x).
Proof.
  induction x as [|entries IH] using fsnode_induction; intros dir Hu.
  - constructor.
  - unfold sweep_targets. rewrite sweep_dir, each_flat_map.
    apply (nodup_flat_map dir).
    + now apply unique_names_nodup.
    + intros [item child] Hin. cbn [fst snd].
      destruct (skipped item); [constructor|].
      destruct child as [|sub]; [constructor|].
      destruct (has_git_dir sub); [repeat constructor; intros []|].
      rewrite Forall_forall in IH. apply (IH _ Hin).
      exact (unique_child _ _ _ Hu Hin).
    + intros [item child] r Hin. cbn [fst snd].
      destruct (skipped item); [contradiction|].
      destruct child as [|sub]; [contradiction|].
      destruct (has_git_dir sub).
      * intros [<- | []]. now exists [].
      * intros Hr. apply sweep_pulled in Hr as [p [-> _]].
        exists p. now rewrite <- app_assoc.
Qed.

(** X15.  No repository twice.  In a tree with unique names, neither the result
    of [find_git_repositories] nor the sequence of directories the sweep
    pulls lists a path twice. *)
Theorem scans_visit_once (x : fsnode) :
  names_unique x = true ->
  NoDup (find_git_repositories [] x) /\ NoDup (sweep_targets [] x).
Proof.
  intros Hu. split; [now apply find_nodup | now apply sweep_nodup].
Qed.

Lemma scans_visit_once_witness :
  NoDup (find_git_repositories [] nested_tree)
  /\ NoDup (sweep_targets [] nested_tree).
Proof.
  apply (scans_visit_once nested_tree). reflexivity.
Defined.

End ScanTheorems.

(* ===================================================================== *)
(** ** Repository names from URLs *)
(* ===================================================================== *)

Module UrlFacts.
Import PyStr PyStrFacts Url.

Lemma contains_slash_cons (c : ascii) (s : string) :
  contains "/" (String c s) = (c =? slash)%char || contains "/" s.
Proof.
  cbn [contains]. f_equal.
  destruct (c =? slash)%char eqn:E.
  - apply Ascii.eqb_eq in E. subst c. apply prefix_app. now exists s.
  - destruct (String.prefix "/" (String c s)) eqn:P; [|reflexivity].
    apply prefix_app in P as [r Hr]. inversion Hr; subst.
    now rewrite Ascii.eqb_refl in E.
Qed.

Lemma contains_slash_nil : contains "/" "" = false.
Proof. reflexivity. Qed.

Lemma contains_slash_app (a b : string) :
  contains "/" (a ++ b) = contains "/" a || contains "/" b.
Proof.
  induction a as [|c a IH]; [reflexivity|].
  change (String c a ++ b) with (String c (a ++ b)).
  now rewrite !contains_slash_cons, IH, orb_assoc.
Qed.

Lemma split_nonempty sep s : split sep s <> [].
Proof.
  destruct s as [|c s]; simpl; [discriminate|].
  destruct (c =? sep)%char; [discriminate|].
  destruct (split sep s); discriminate.
Qed.

Lemma split_cons sep c s :
  split sep (String c s)
  = if (c =? sep)%char then "" :: split sep s
    else match split sep s with
         | x :: r => String c x :: r
         | [] => [String c ""]
         end.
Proof. reflexivity. Qed.

(** No part of a split holds the separator. *)
Lemma split_parts_no_slash s :
  Forall (fun x => contains "/" x = false) (split slash s).
Proof.
  induction s as [|c s IH]; [repeat constructor|].
  rewrite split_cons. destruct (c =? slash)%char eqn:E.
  - constructor; [reflexivity | exact IH].
  - destruct (split slash s) as [|x r].
    + constructor; [|constructor]. now rewrite contains_slash_cons, E.
    + inversion IH; subst. constructor; [|assumption].
      now rewrite contains_slash_cons, E.
Qed.

Lemma last_part_in (l : list string) : l <> [] -> In (last_part l) l.
Proof.
  unfold last_part. induction l as [|x r IH]; [contradiction|]. intros _.
  destruct r as [|y r']; [now left|].
  right. apply IH. discriminate.
Qed.

(** A text without the separator is its own only part. *)
Lemma split_no_slash s : contains "/" s = false -> split slash s = [s].
Proof.
  induction s as [|c s IH]; [reflexivity|].
  rewrite contains_slash_cons. intros H. apply orb_false_iff in H as [E H].
  now rewrite split_cons, E, (IH H).
Qed.

(** A text with a separator has more than one part. *)
Lemma split_two s :
  contains "/" s = true -> exists x y r, split slash s = x :: y :: r.
Proof.
  induction s as [|c s IH]; [discriminate|].
  rewrite contains_slash_cons, split_cons. intros H.
  destruct (c =? slash)%char.
  - destruct (split slash s) as [|y r] eqn:E; [now apply split_nonempty in E|].
    now exists "", y, r.
  - destruct (IH H) as [x [y [r ->]]]. now exists (String c x), y, r.
Qed.

Lemma last_cons (x : string) (r : list string) d :
  r <> [] -> List.last (x :: r) d = List.last r d.
Proof. intros Hr. destruct r; [contradiction | reflexivity]. Qed.

(** The last part is what follows the last separator. *)
Lemma last_part_after_slash (a n : string) :
  last_part (split slash (a ++ String slash n)) = last_part (split slash n).
Proof.
  unfold last_part. induction a as [|c a IH].
  - change ("" ++ String slash n) with (String slash n).
    rewrite split_cons, Ascii.eqb_refl.
    apply last_cons, split_nonempty.
  - change (String c a ++ String slash n)
      with (String c (a ++ String slash n)).
    rewrite split_cons.
    destruct (c =? slash)%char.
    + rewrite last_cons by apply split_nonempty. exact IH.
    + assert (Hc : contains "/" (a ++ String slash n) = true).
      { rewrite contains_slash_app, contains_slash_cons, Ascii.eqb_refl.
        now rewrite orb_true_r. }
      destruct (split_two _ Hc) as [x [y [r E]]].
      rewrite E in *. rewrite <- IH.
      rewrite !last_cons by discriminate. reflexivity.
Qed.

Lemma rstrip_slash_cons c s :
  rstrip_slash (String c s)
  = match rstrip_slash s with
    | EmptyString =>
        if (c =? slash)%char then EmptyString else String c EmptyString
    | String _ _ as r => String c r
    end.
Proof. reflexivity. Qed.

(** Trailing separators do not count. *)
Lemma rstrip_slash_trailing s :
  rstrip_slash (s ++ "/") = rstrip_slash s.
Proof.
  induction s as [|c s IH]; [reflexivity|].
  change (String c s ++ "/") with (String c (s ++ "/")).
  now rewrite !rstrip_slash_cons, IH.
Qed.

(** Nothing is stripped from a text that ends in another character. *)
Lemma rstrip_slash_keeps (a n : string) :
  n <> "" -> contains "/" n = false -> rstrip_slash (a ++ n) = a ++ n.
Proof.
  intros Hne Hn.
  assert (L1 : rstrip_slash n = n).
  { clear a. induction n as [|c n IH]; [contradiction|].
    rewrite contains_slash_cons in Hn. apply orb_false_iff in Hn as [E Hn].
    rewrite rstrip_slash_cons. destruct n as [|d n'].
    - simpl. now rewrite E.
    - rewrite IH by (auto; discriminate). reflexivity. }
  induction a as [|c a IH]; [exact L1|].
  change (String c a ++ n) with (String c (a ++ n)).
  rewrite rstrip_slash_cons, IH.
  destruct (a ++ n) eqn:E; [|reflexivity].
  destruct a; [simpl in E; contradiction | discriminate].
Qed.

Lemma endswith_cons p c s :
  endswith p (String c s) = (String c s =? p)%string || endswith p s.
Proof. reflexivity. Qed.

Lemma endswith_suffix p a : endswith p (a ++ p) = true.
Proof.
  induction a as [|c a IH].
  - destruct p; [reflexivity|].
    change ("" ++ String a p) with (String a p).
    now rewrite endswith_cons, String.eqb_refl.
  - change (String c a ++ p) with (String c (a ++ p)).
    now rewrite endswith_cons, IH, orb_true_r.
Qed.

(** A suffix without the separator lies after the last separator. *)
Lemma endswith_after_slash p a n :
  contains "/" p = false ->
  endswith p (a ++ String slash n) = endswith p n.
Proof.
  intros Hp.
  assert (Hne : forall b, ((b ++ String slash n) =? p)%string = false).
  { intros b. apply String.eqb_neq. intros E.
    rewrite <- E, contains_slash_app, contains_slash_cons, Ascii.eqb_refl
      in Hp.
    now rewrite orb_true_r in Hp. }
  induction a as [|c a IH].
  - pose proof (Hne "") as H0.
    change ("" ++ String slash n) with (String slash n) in *.
    rewrite endswith_cons. now rewrite H0.
  - pose proof (Hne (String c a)) as H0.
    change (String c a ++ String slash n)
      with (String c (a ++ String slash n)) in *.
    rewrite endswith_cons, IH. now rewrite H0.
Qed.

Lemma drop_last_suffix (a p : string) :
  drop_last (String.length p) (a ++ p) = a.
Proof.
  unfold drop_last. rewrite RetryFacts.length_app.
  replace (String.length a + String.length p - String.length p)%nat
    with (String.length a) by lia.
  induction a as [|c a IH]; simpl.
  - now destruct p.
  - now rewrite IH.
Qed.

Lemma extract_no_slash (url : string) :
  contains "/" (extract_repo_name url) = false.
Proof.
  unfold extract_repo_name.
  set (u := if endswith ".git" (rstrip_slash url)
            then drop_last 4 (rstrip_slash url) else rstrip_slash url).
  pose proof (split_parts_no_slash u) as Hf.
  rewrite Forall_forall in Hf. apply Hf.
  apply last_part_in, split_nonempty.
Qed.

Lemma extract_git_url (base name : string) :
  contains "/" name = false ->
  extract_repo_name (base ++ "/" ++ name ++ ".git") = name.
Proof.
  intros Hn. unfold extract_repo_name.
  replace (base ++ "/" ++ name ++ ".git")
    with ((base ++ "/" ++ name) ++ ".git")
    by now rewrite !append_assoc.
  rewrite (rstrip_slash_keeps _ ".git") by (discriminate || reflexivity).
  rewrite endswith_suffix.
  pose proof (drop_last_suffix (base ++ "/" ++ name) ".git") as Hd.
  cbn [String.length] in Hd. rewrite Hd.
  change ("/" ++ name) with (String slash name).
  rewrite last_part_after_slash, (split_no_slash _ Hn). reflexivity.
Qed.

Lemma extract_plain_url (base name : string) :
  contains "/" name = false -> name <> "" ->
  endswith ".git" name = false ->
  extract_repo_name (base ++ "/" ++ name) = name.
Proof.
  intros Hn Hne Hg. unfold extract_repo_name.
  replace (base ++ "/" ++ name) with ((base ++ "/") ++ name)
    by now rewrite append_assoc.
  rewrite (rstrip_slash_keeps _ name Hne Hn).
  rewrite append_assoc. change ("/" ++ name) with (String slash name).
  rewrite (endswith_after_slash ".git" base name eq_refl), Hg.
  rewrite last_part_after_slash, (split_no_slash _ Hn). reflexivity.
Qed.

End UrlFacts.

Module UrlTheorems.
Import PyStr PyStrFacts Url UrlFacts.

(** X16.  The name [extract_repo_name] returns never holds a [/], and neither
    does the name [check_repo_exists] looks for: it names an entry of a
    directory, not a path. *)
Theorem repo_name_has_no_slash (url : string) :
  contains "/" (extract_repo_name url) = false
  /\ contains "/" (RepoCheck.repo_name_of url) = false.
Proof.
  split; [apply extract_no_slash|].
  unfold RepoCheck.repo_name_of.
  destruct (contains "/" url) eqn:E; [apply extract_no_slash | exact E].
Qed.

(** X17.  The name of a URL.  Trailing slashes do not change the result.  For a
    name without [/], a URL that ends in [/name.git] gives [name]; and when
    the name is not empty and does not itself end in [.git], a URL that
    ends in [/name] gives [name] too. *)
Theorem repo_name_of_url (base name : string) :
  (forall url, extract_repo_name (url ++ "/") = extract_repo_name url)
  /\ (contains "/" name = false ->
      extract_repo_name (base ++ "/" ++ name ++ ".git") = name)
  /\ (contains "/" name = false -> name <> "" ->
      endswith ".git" name = false ->
      extract_repo_name (base ++ "/" ++ name) = name).
Proof.
  split; [|split].
  - intros url. unfold extract_repo_name.
    now rewrite rstrip_slash_trailing.
  - apply extract_git_url.
  - apply extract_plain_url.
Qed.

(** X18.  The user of a URL.  For a name without [/] that is not empty, a URL
    that ends in [/name] gives [name] for every host type, except that for
    [sourcehut] one leading [~] of the name is dropped. *)
Theorem username_of_url (base name host_type : string) :
  contains "/" name = false -> name <> "" ->
  extract_username_from_url (base ++ "/" ++ name) host_type
  = if (host_type =? "sourcehut")%string && startswith "~" name
    then drop_first name else name.
Proof.
  intros Hn Hne. unfold extract_username_from_url.
  replace (base ++ "/" ++ name) with ((base ++ "/") ++ name)
    by now rewrite append_assoc.
  rewrite (rstrip_slash_keeps _ name Hne Hn).
  rewrite append_assoc. change ("/" ++ name) with (String slash name).
  rewrite last_part_after_slash, (split_no_slash _ Hn).
  change (last_part [name]) with name.
  destruct (existsb (String.eqb host_type) ["github"; "gitlab"; "bitbucket"])
    eqn:E1.
  - assert ((host_type =? "sourcehut")%string = false) as ->; [|reflexivity].
    apply String.eqb_neq. intros ->. discriminate.
  - destruct (host_type =? "azure")%string eqn:E2.
    + apply String.eqb_eq in E2. now subst.
    + destruct (host_type =? "sourcehut")%string; [reflexivity|].
      now destruct (host_type =? "launchpad")%string.
Qed.

Lemma username_of_url_witness :
  extract_username_from_url ("https://git.sr.ht" ++ "/" ++ "~alice") "sourcehut"
  = if ("sourcehut" =? "sourcehut")%string && startswith "~" "~alice"
    then drop_first "~alice" else "~alice".
Proof.
  apply (username_of_url "https://git.sr.ht" "~alice" "sourcehut");
    [reflexivity | discriminate].
Defined.

End UrlTheorems.

(* ===================================================================== *)
(** ** [check_repo_exists] *)
(* ===================================================================== *)

Module RepoCheckTheorems.
Import PyStr PyStrFacts Locator LocatorFacts ScanTheorems.
Import Url UrlFacts UrlTheorems RepoCheck RepoScenario.

(** X19.  What the answer of [check_repo_exists] means.  With the current
    directory a tree with unique names, the answer is positive exactly
    when the name looked for denotes a repository from the current
    directory, or is the last component of the path of a repository that
    lies in or below the current directory through ordinary names; a
    negative answer returns the name looked for. *)
Theorem check_repo_exists_meaning (fs : process_fs) (input : string)
        (x : fsnode) :
  here fs = Some x ->
  names_unique x = true ->
  (fst (check_repo_exists fs input) = true <->
   (exists y, relative fs (repo_name_of input) = Some y
              /\ is_repository y = true)
   \/ (exists p y, Forall (fun d => hidden d = false) p
                   /\ resolve x p = Some y /\ is_repository y = true
                   /\ name_of (cwd fs ++ p)%list = repo_name_of input))
  /\ (fst (check_repo_exists fs input) = false ->
      snd (check_repo_exists fs input) = repo_name_of input).
Proof.
  intros Hhere Hu. unfold check_repo_exists, all_repos. rewrite Hhere.
  set (name := repo_name_of input).
  destruct (match relative fs name with
            | Some y => is_repository y
            | None => false
            end) eqn:Edirect.
  - split; [|discriminate]. split; [|reflexivity]. intros _. left.
    destruct (relative fs name) as [y|]; [|discriminate]. now exists y.
  - destruct (List.find (fun p => (name_of p =? name)%string)
                (find_git_repositories (cwd fs) x)) as [r|] eqn:Efind.
    + split; [|discriminate]. split; [|reflexivity]. intros _. right.
      apply find_some in Efind as [Hin Hname].
      apply String.eqb_eq in Hname.
      destruct (find_sound x _ r Hu Hin) as [p [y [E [Hres Hrepo]]]].
      destruct (find_ordinary x _ r Hu Hin) as [p' [E' Hp]].
      rewrite E in E'. apply app_inv_head in E'. subst p' r.
      now exists p, y.
    + split; [|reflexivity]. split; [discriminate|].
      intros [[y [Hrel Hrepo]] | [p [y [Hp [Hres [Hrepo Hname]]]]]].
      * rewrite Hrel, Hrepo in Edirect. discriminate.
      * pose proof (find_complete p x (cwd fs) y Hp Hres Hrepo) as Hin.
        apply (find_none _ _ Efind) in Hin.
        rewrite Hname, String.eqb_refl in Hin. discriminate.
Qed.

Lemma check_repo_exists_meaning_witness :
  (fst (check_repo_exists dev_fs "https://example.org/team/inner.git") = true
   <->
   (exists y, relative dev_fs
                (repo_name_of "https://example.org/team/inner.git") = Some y
              /\ is_repository y = true)
   \/ (exists p y, Forall (fun d => hidden d = false) p
                   /\ resolve Scenario.nested_tree p = Some y
                   /\ is_repository y = true
                   /\ name_of (cwd dev_fs ++ p)%list
                      = repo_name_of "https://example.org/team/inner.git"))
  /\ (fst (check_repo_exists dev_fs "https://example.org/team/inner.git")
      = false ->
      snd (check_repo_exists dev_fs "https://example.org/team/inner.git")
      = repo_name_of "https://example.org/team/inner.git").
Proof.
  apply (check_repo_exists_meaning dev_fs
           "https://example.org/team/inner.git" Scenario.nested_tree);
    reflexivity.
Defined.

(** The answer of the scenario: the repository under [outer/sub] is found
    by its name, given as a URL. *)
Lemma check_repo_exists_inner :
  check_repo_exists dev_fs "https://example.org/team/inner.git"
  = (true, "/home/dev/outer/sub/inner").
Proof. vm_compute. reflexivity. Qed.

(** X20.  A URL for a name.  For a name without [/], asking with a URL that ends
    in [/name.git] gives the answer of asking with the name; so does a URL
    that ends in [/name] when the name is not empty and does not end in
    [.git]. *)
Theorem check_repo_exists_url (fs : process_fs) (base name : string) :
  contains "/" name = false ->
  check_repo_exists fs (base ++ "/" ++ name ++ ".git")
  = check_repo_exists fs name
  /\ (name <> "" -> endswith ".git" name = false ->
      check_repo_exists fs (base ++ "/" ++ name) = check_repo_exists fs name).
Proof.
  intros Hn.
  assert (Hname : repo_name_of name = name)
    by (unfold repo_name_of; now rewrite Hn).
  assert (Hs : forall rest, contains "/" (base ++ "/" ++ rest) = true).
  { intros rest. rewrite contains_slash_app.
    change ("/" ++ rest) with (String slash rest).
    rewrite contains_slash_cons, Ascii.eqb_refl. now rewrite orb_true_r. }
  pose proof (extract_git_url base name) as H1.
  pose proof (extract_plain_url base name) as H2.
  split.
  - unfold check_repo_exists. rewrite Hname. unfold repo_name_of at 1 2 3 4.
    now rewrite Hs, (H1 Hn).
  - intros Hne Hg. unfold check_repo_exists. rewrite Hname.
    unfold repo_name_of at 1 2 3 4. now rewrite Hs, (H2 Hn Hne Hg).
Qed.

Lemma check_repo_exists_url_witness :
  check_repo_exists dev_fs ("https://example.org/team" ++ "/" ++ "lib" ++ ".git")
  = check_repo_exists dev_fs "lib"
  /\ ("lib" <> "" -> endswith ".git" "lib" = false ->
      check_repo_exists dev_fs ("https://example.org/team" ++ "/" ++ "lib")
      = check_repo_exists dev_fs "lib").
Proof.
  apply (check_repo_exists_url dev_fs "https://example.org/team" "lib").
  reflexivity.
Defined.

End RepoCheckTheorems.

(* ===================================================================== *)
(** ** The branch list *)
(* ===================================================================== *)

Module BranchTheorems.
Import PyStr PyStrFacts Branches BranchScenario.

Lemma remote_not_starred line :
  remote_line line = true -> startswith "*" (strip line) = false.
Proof.
  unfold remote_line, startswith. intros H.
  apply prefix_app in H as [c Hc]. rewrite Hc. reflexivity.
Qed.

(** What one line does to the list built so far. *)
Lemma parse_lines_cons line rest acc :
  parse_lines (line :: rest) acc
  = if startswith "*" (strip line)
    then parse_lines rest (acc ++ [(drop_two (strip line), true)])
    else if remote_line line
    then
      if head_pointer_line line then parse_lines rest acc
      else
        match third_part (strip line) with
        | None => None
        | Some remote_branch =>
            if existsb (String.eqb remote_branch) (map fst acc)
            then parse_lines rest acc
            else parse_lines rest (acc ++ [(remote_branch, false)])
        end
    else parse_lines rest (acc ++ [(strip line, false)]).
Proof.
  cbn [parse_lines]. unfold head_pointer_line, remote_line.
  destruct (startswith "*" (strip line)); [reflexivity|].
  destruct (startswith "remotes/" (strip line)); [|reflexivity].
  cbn [andb]. destruct (contains "/HEAD ->" (strip line)); [reflexivity|].
  cbn [negb]. destruct (third_part (strip line)); [|reflexivity].
  now destruct (existsb (String.eqb s) (map fst acc)).
Qed.

(** X21.  The symbolic [HEAD] of a remote is never listed: the line that shows
    it can be taken out of the output without changing the result. *)
Theorem head_pointer_ignored (before after : list string) (line : string)
        (acc : list (string * bool)) :
  head_pointer_line line = true ->
  parse_lines (before ++ line :: after) acc = parse_lines (before ++ after) acc.
Proof.
  intros Hh. revert acc.
  induction before as [|l before IH]; intros acc.
  - cbn [app]. rewrite parse_lines_cons, Hh.
    assert (Hr : remote_line line = true).
    { unfold head_pointer_line in Hh. now apply andb_true_iff in Hh. }
    now rewrite (remote_not_starred _ Hr), Hr.
  - cbn [app]. rewrite !parse_lines_cons.
    destruct (startswith "*" (strip l)); [apply IH|].
    destruct (remote_line l); [|apply IH].
    destruct (head_pointer_line l); [apply IH|].
    destruct (third_part (strip l)); [|reflexivity].
    destruct (existsb (String.eqb s) (map fst acc)); apply IH.
Qed.

Lemma head_pointer_ignored_witness :
  parse_lines (["* main"; "  dev"]
               ++ "  remotes/origin/HEAD -> origin/main"
               :: ["  remotes/origin/main"; "  remotes/origin/feature/x"]) []
  = parse_lines (["* main"; "  dev"]
                 ++ ["  remotes/origin/main"; "  remotes/origin/feature/x"]) [].
Proof.
  apply (head_pointer_ignored ["* main"; "  dev"]
           ["  remotes/origin/main"; "  remotes/origin/feature/x"]
           "  remotes/origin/HEAD -> origin/main" []).
  reflexivity.
Defined.

Lemma parse_locals locals : forall rest acc,
  Forall (fun l => remote_line l = false) locals ->
  parse_lines (locals ++ rest) acc
  = parse_lines rest (acc ++ map local_entry locals).
Proof.
  induction locals as [|l locals IH]; intros rest acc Hl.
  - cbn [app map]. now rewrite app_nil_r.
  - inversion Hl as [|? ? Hr Hrest]; subst. cbn [app map].
    rewrite parse_lines_cons, Hr. unfold local_entry.
    destruct (startswith "*" (strip l));
      rewrite (IH _ _ Hrest), <- app_assoc; reflexivity.
Qed.

Lemma parse_remotes remotes : forall acc bs,
  Forall (fun l => remote_line l = true) remotes ->
  parse_lines remotes acc = Some bs ->
  exists extra,
    bs = (acc ++ extra)%list
    /\ Forall (fun e => snd e = false) extra
    /\ (NoDup (map fst acc) -> NoDup (map fst bs)).
Proof.
  induction remotes as [|l remotes IH]; intros acc bs Hr.
  - cbn [parse_lines]. intros H; inversion H; subst.
    exists []. rewrite app_nil_r. now repeat split.
  - inversion Hr as [|? ? Hl Hrest]; subst.
    rewrite parse_lines_cons, (remote_not_starred _ Hl), Hl.
    destruct (head_pointer_line l); [now apply IH|].
    destruct (third_part (strip l)) as [name|]; [|discriminate].
    destruct (existsb (String.eqb name) (map fst acc)) eqn:E; [now apply IH|].
    intros H. destruct (IH _ _ Hrest H) as [extra [-> [Hf Hn]]].
    exists ((name, false) :: extra).
    split; [now rewrite <- app_assoc|]. split; [now constructor|].
    intros Hacc. apply Hn. rewrite map_app. cbn [map fst].
    apply NoDup_app; [exact Hacc | repeat constructor; intros [] |].
    intros x Hx [Ex | []]. subst x.
    assert (K : existsb (String.eqb name) (map fst acc) = true).
    { apply existsb_exists. exists name. split; [exact Hx|].
      apply String.eqb_refl. }
    congruence.
Qed.

(** X22.  Local wins.  When the lines of the local branches come first, as
    [git branch -a] prints them, and their names are distinct, a listing
    that is read without error keeps the local entries in their order,
    adds after them only entries that are not current, and holds no name
    twice: a remote branch whose name is already listed adds nothing. *)
Theorem local_wins (locals remotes : list string)
        (bs : list (string * bool)) :
  Forall (fun l => remote_line l = false) locals ->
  Forall (fun l => remote_line l = true) remotes ->
  NoDup (map fst (map local_entry locals)) ->
  parse_lines (locals ++ remotes) [] = Some bs ->
  NoDup (map fst bs)
  /\ exists extra,
       bs = (map local_entry locals ++ extra)%list
       /\ Forall (fun e => snd e = false) extra.
Proof.
  intros Hl Hr Hn H. rewrite (parse_locals _ _ _ Hl) in H. cbn [app] in H.
  destruct (parse_remotes _ _ _ Hr H) as [extra [-> [Hf Hd]]].
  split; [now apply Hd | now exists extra].
Qed.

Lemma local_wins_witness :
  NoDup (map fst [("main", true); ("dev", false); ("feature/x", false)])
  /\ exists extra,
       [("main", true); ("dev", false); ("feature/x", false)]
       = (map local_entry ["* main"; "  dev"] ++ extra)%list
       /\ Forall (fun e => snd e = false) extra.
Proof.
  apply (local_wins ["* main"; "  dev"]
           ["  remotes/origin/HEAD -> origin/main";
            "  remotes/origin/main"; "  remotes/origin/feature/x"]).
  - repeat constructor.
  - repeat constructor.
  - repeat constructor; simpl; intuition discriminate.
  - reflexivity.
Defined.

(** X23.  When the listing cannot be read.  The loop raises exactly when some
    line of a remote-tracking branch, other than a symbolic [HEAD], holds
    fewer than two [/]. *)
Theorem parse_fails_exactly (lines : list string)
        (acc : list (string * bool)) :
  parse_lines lines acc = None <->
  exists line, In line lines /\ remote_line line = true
               /\ head_pointer_line line = false
               /\ third_part (strip line) = None.
Proof.
  revert acc. induction lines as [|l lines IH]; intros acc.
  - split; [discriminate | intros [line [[] _]]].
  - rewrite parse_lines_cons.
    assert (Hrest : (exists line, In line lines /\ remote_line line = true
                                  /\ head_pointer_line line = false
                                  /\ third_part (strip line) = None) ->
                    exists line, In line (l :: lines)
                                 /\ remote_line line = true
                                 /\ head_pointer_line line = false
                                 /\ third_part (strip line) = None).
    { intros [line [Hin H]]. exists line. split; [now right | exact H]. }
    assert (Hback : forall P : Prop,
               (remote_line l = true -> head_pointer_line l = false ->
                third_part (strip l) = None -> P) ->
               ((exists line, In line lines /\ remote_line line = true
                              /\ head_pointer_line line = false
                              /\ third_part (strip line) = None) -> P) ->
               (exists line, In line (l :: lines)
                             /\ remote_line line = true
                             /\ head_pointer_line line = false
                             /\ third_part (strip line) = None) -> P).
    { intros P H1 H2 [line [[<- | Hin] [Ha [Hb Hc]]]]; [now apply H1|].
      apply H2. now exists line. }
    destruct (startswith "*" (strip l)) eqn:Es.
    + rewrite IH. split; [exact Hrest|]. apply Hback; [|auto].
      intros Hr. apply remote_not_starred in Hr. congruence.
    + destruct (remote_line l) eqn:Er.
      * destruct (head_pointer_line l) eqn:Eh.
        -- rewrite IH. split; [exact Hrest|]. apply Hback; [|auto].
           discriminate.
        -- destruct (third_part (strip l)) as [name|] eqn:Et.
           ++ destruct (existsb (String.eqb name) (map fst acc));
                rewrite IH; (split; [exact Hrest|]);
                (apply Hback; [|auto]); discriminate.
           ++ split; [|reflexivity]. intros _. exists l.
              split; [now left | auto].
      * rewrite IH. split; [exact Hrest|]. apply Hback; [|auto].
        discriminate.
Qed.

(** X24.  The number typed.  A number from 1 to the length of the list selects
    the entry at that place: a branch that is not current is checked out,
    the current one is reported; every other number is refused. *)
Theorem choose_by_number (branches : list (string * bool)) (selection : Z) :
  (choose branches selection = InvalidNumber <->
   ~ (1 <= selection <= Z.of_nat (List.length branches)))
  /\ (forall name,
        choose branches selection = Checkout name <->
        nth_error branches (Z.to_nat (selection - 1)) = Some (name, false)
        /\ 1 <= selection)
  /\ (forall name,
        choose branches selection = AlreadyOn name <->
        nth_error branches (Z.to_nat (selection - 1)) = Some (name, true)
        /\ 1 <= selection).
Proof.
  unfold choose.
  destruct ((0 <=? selection - 1)
            && (selection - 1 <? Z.of_nat (List.length branches))) eqn:E.
  - apply andb_true_iff in E as [E1 E2].
    apply Z.leb_le in E1. apply Z.ltb_lt in E2.
    destruct (nth_error branches (Z.to_nat (selection - 1)))
      as [[name b]|] eqn:En.
    + split; [|split].
      * destruct b; split; try discriminate; intros H; exfalso; apply H; lia.
      * intros n. destruct b; split; try discriminate.
        -- intros [H _]. discriminate.
        -- intros H; inversion H; subst. split; [reflexivity | lia].
        -- intros [H _]. now inversion H.
      * intros n. destruct b; split; try discriminate.
        -- intros H; inversion H; subst. split; [reflexivity | lia].
        -- intros [H _]. now inversion H.
        -- intros [H _]. discriminate.
    + apply nth_error_None in En. lia.
  - assert (Hout : ~ (1 <= selection <= Z.of_nat (List.length branches))
                   \/ False).
    { left. apply andb_false_iff in E as [E | E].
      - apply Z.leb_gt in E. lia.
      - apply Z.ltb_ge in E. lia. }
    destruct Hout as [Hout | []].
    split; [now split|].
    split; intros n; (split; [discriminate|]); intros [Hn H1];
      exfalso; apply Hout;
      assert (Z.to_nat (selection - 1) < List.length branches)%nat
        by (apply nth_error_Some; congruence); lia.
Qed.

End BranchTheorems.

(* ===================================================================== *)
(** ** The configuration *)
(* ===================================================================== *)

Module ConfigTheorems.
Import PyStr PyStrFacts Config.

Lemma has_key_app k (a b : dict) :
  has_key k (a ++ b)%list = has_key k a || has_key k b.
Proof. unfold has_key. apply existsb_app. Qed.

Lemma get_app k (a b : dict) :
  get k (a ++ b)%list = match get k a with
                   | Some v => Some v
                   | None => get k b
                   end.
Proof.
  induction a as [|[k' v'] a IH]; [reflexivity|]. simpl.
  now destruct (k' =? k)%string.
Qed.

Lemma get_none_has_key k (d : dict) :
  get k d = None <-> has_key k d = false.
Proof.
  induction d as [|[k' v'] d IH]; simpl; [tauto|].
  destruct (k' =? k)%string; simpl; [split; discriminate | exact IH].
Qed.

(** A key that is missing is added at the end. *)
Lemma set_missing k v (d : dict) :
  has_key k d = false -> set k v d = (d ++ [(k, v)])%list.
Proof.
  induction d as [|[k' v'] d IH]; [reflexivity|]. simpl.
  destruct (k' =? k)%string; simpl; [discriminate|].
  intros H. now rewrite IH.
Qed.

(** Filling a dict: the file wins, the defaults fill in. *)
Lemma fill_dict (defaults : dict) : forall d : dict,
  exists added,
    fill defaults (JDict d) = Some (JDict (d ++ added)%list)
    /\ (forall k, has_key k (d ++ added)%list = has_key k d || has_key k defaults)
    /\ (forall k, get k (d ++ added)%list
                  = match get k d with
                    | Some v => Some v
                    | None => get k defaults
                    end).
Proof.
  induction defaults as [|[key value] rest IH]; intros d.
  - exists []. rewrite app_nil_r. split; [reflexivity|]. split.
    + intros k. now rewrite orb_false_r.
    + intros k. now destruct (get k d).
  - cbn [fill not_in]. destruct (has_key key d) eqn:E; cbn [negb].
    + destruct (IH d) as [added [H1 [H2 H3]]]. exists added.
      split; [exact H1|]. split.
      * intros k. rewrite H2. simpl. destruct (key =? k)%string eqn:Ek;
          [|reflexivity].
        apply String.eqb_eq in Ek. subst k. now rewrite E.
      * intros k. rewrite H3. simpl.
        destruct (get k d) eqn:G; [reflexivity|].
        destruct (key =? k)%string eqn:Ek; [|reflexivity].
        apply String.eqb_eq in Ek. subst k.
        apply get_none_has_key in G. congruence.
    + cbn [set_item]. rewrite (set_missing _ _ _ E).
      destruct (IH (d ++ [(key, value)])%list) as [added [H1 [H2 H3]]].
      exists ((key, value) :: added).
      replace (d ++ (key, value) :: added)%list
        with ((d ++ [(key, value)]) ++ added)%list
        by now rewrite <- app_assoc.
      split; [exact H1|]. split.
      * intros k. rewrite H2, has_key_app. simpl.
        now rewrite orb_false_r, orb_assoc.
      * intros k. rewrite H3, get_app. simpl.
        destruct (get k d); [reflexivity|].
        now destruct (key =? k)%string.
Qed.

(** X25.  Reading a configuration file that holds a JSON object.  The result
    is that object with the missing default keys added after its own
    items: it holds every default key, a key of the file keeps the value
    of the file, and a key the file lacks has its default. *)
Theorem file_wins_defaults_fill (env : config_env) (d : dict) :
  file_exists env = true ->
  load env = Loaded (JDict d) ->
  exists added,
    load_or_create_config env = JDict (d ++ added)%list
    /\ complete (d ++ added)%list
    /\ (forall k v, get k d = Some v -> get k (d ++ added)%list = Some v)
    /\ (forall k, get k d = None ->
                  get k (d ++ added)%list = get k DEFAULT_CONFIG).
Proof.
  intros He Hl. unfold load_or_create_config. rewrite He, Hl. cbn [negb].
  destruct (fill_dict DEFAULT_CONFIG d) as [added [H1 [H2 H3]]].
  exists added. rewrite H1. split; [reflexivity|]. split; [|split].
  - intros k Hk. now rewrite H2, Hk, orb_true_r.
  - intros k v Hg. now rewrite H3, Hg.
  - intros k Hg. now rewrite H3, Hg.
Qed.

Lemma file_wins_defaults_fill_witness :
  exists added,
    load_or_create_config
      {| file_exists := true; enable_summary_line := "";
         dry_run_line := ""; model_line := ""; write_ok := true;
         load := Loaded (JDict [("model", JStr "mistral");
                                ("enable_summary", JBool true)]) |}
    = JDict ([("model", JStr "mistral"); ("enable_summary", JBool true)]
             ++ added)%list
    /\ complete ([("model", JStr "mistral"); ("enable_summary", JBool true)]
                 ++ added)%list
    /\ (forall k v,
          get k [("model", JStr "mistral"); ("enable_summary", JBool true)]
          = Some v ->
          get k ([("model", JStr "mistral"); ("enable_summary", JBool true)]
                 ++ added)%list = Some v)
    /\ (forall k,
          get k [("model", JStr "mistral"); ("enable_summary", JBool true)]
          = None ->
          get k ([("model", JStr "mistral"); ("enable_summary", JBool true)]
                 ++ added)%list = get k DEFAULT_CONFIG).
Proof.
  apply (file_wins_defaults_fill
           {| file_exists := true; enable_summary_line := "";
              dry_run_line := ""; model_line := ""; write_ok := true;
              load := Loaded (JDict [("model", JStr "mistral");
                                     ("enable_summary", JBool true)]) |});
    reflexivity.
Defined.

(** Filling a value that is a container but no dict: it goes through
    unchanged when every key is found in it, and raises at the first key
    that is not. *)
Lemma fill_container (defaults : dict) (j : json) :
  (exists l, j = JList l) \/ (exists s, j = JStr s) ->
  (fill defaults j = Some j
   /\ forall k, has_key k defaults = true -> not_in k j = Some false)
  \/ fill defaults j = None.
Proof.
  intros Hj. induction defaults as [|[key value] rest IH].
  - left. split; [reflexivity | discriminate].
  - cbn [fill].
    assert (Hn : exists b, not_in key j = Some b
                           /\ set_item j key value = None).
    { destruct Hj as [[l ->] | [s ->]]; eexists; split; reflexivity. }
    destruct Hn as [b [Hb Hs]]. rewrite Hb, Hs.
    destruct b; [now right|].
    destruct IH as [[H1 H2] | H]; [left | now right].
    split; [exact H1|]. intros k Hk. simpl in Hk.
    apply orb_true_iff in Hk as [Hk | Hk]; [|now apply H2].
    apply String.eqb_eq in Hk. now subst.
Qed.

(** X26.  The shape of a configuration.  Whatever the file holds and whatever
    is typed, [load_or_create_config] returns a dict that holds every
    default key; the one exception is a file whose JSON value is a list or
    a string in which every default key is found, which is returned as it
    is. *)
Theorem config_is_complete (env : config_env) :
  (exists d, load_or_create_config env = JDict d /\ complete d)
  \/ (file_exists env = true
      /\ load env = Loaded (load_or_create_config env)
      /\ ((exists l, load_or_create_config env = JList l)
          \/ (exists s, load_or_create_config env = JStr s))
      /\ forall k, has_key k DEFAULT_CONFIG = true ->
                   not_in k (load_or_create_config env) = Some false).
Proof.
  assert (Hdef : complete DEFAULT_CONFIG) by (intros k H; exact H).
  unfold load_or_create_config.
  destruct (file_exists env) eqn:He; cbn [negb].
  - destruct (load env) as [j| |] eqn:Hl;
      [|left; now exists DEFAULT_CONFIG | left; now exists DEFAULT_CONFIG].
    destruct j as [ | b | z | r | s | l | d ];
      try (left; now exists DEFAULT_CONFIG).
    + destruct (fill_container DEFAULT_CONFIG (JStr s)) as [[H1 H2] | H];
        [right; now exists s | | ].
      * rewrite H1. right. repeat split; auto. right. now exists s.
      * rewrite H. left. now exists DEFAULT_CONFIG.
    + destruct (fill_container DEFAULT_CONFIG (JList l)) as [[H1 H2] | H];
        [left; now exists l | | ].
      * rewrite H1. right. repeat split; auto. left. now exists l.
      * rewrite H. left. now exists DEFAULT_CONFIG.
    + destruct (fill_dict DEFAULT_CONFIG d) as [added [H1 [H2 _]]].
      rewrite H1. left. exists (d ++ added)%list. split; [reflexivity|].
      intros k Hk. now rewrite H2, Hk, orb_true_r.
  - left. destruct (write_ok env); [|now exists DEFAULT_CONFIG].
    eexists. split; [reflexivity|].
    destruct (is_answer (lower (strip (enable_summary_line env))));
      destruct (is_answer (lower (strip (dry_run_line env))));
      destruct (truthy (strip (model_line env)));
      intros k H; exact H.
Qed.

End ConfigTheorems.

(* ===================================================================== *)
(** ** Matching *)
(* ===================================================================== *)

Module RegexFacts.
Import PyStr PyStrFacts Regex.

Lemma lang_cat_inv r1 r2 s :
  lang (Cat r1 r2) s <-> exists s1 s2, s = s1 ++ s2 /\ lang r1 s1 /\ lang r2 s2.
Proof.
  split.
  - intros H. inversion H; subst. now exists s1, s2.
  - intros [s1 [s2 [-> [H1 H2]]]]. now constructor.
Qed.

Lemma lang_alt_inv r1 r2 s : lang (Alt r1 r2) s <-> lang r1 s \/ lang r2 s.
Proof.
  split.
  - intros H. inversion H; subst; auto.
  - intros [H | H]; [now apply LAltL | now apply LAltR].
Qed.

Lemma lang_eps_inv s : lang Eps s <-> s = "".
Proof.
  split; [intros H; now inversion H | intros ->; constructor].
Qed.

Lemma lang_chr_inv c s : lang (Chr c) s <-> s = String c "".
Proof.
  split; [intros H; now inversion H | intros ->; constructor].
Qed.

Lemma lang_other_inv c s :
  lang (Other c) s <-> exists d, d <> c /\ s = String d "".
Proof.
  split.
  - intros H. inversion H; subst. now exists d.
  - intros [d [Hd ->]]. now constructor.
Qed.

Lemma lang_nothing_inv s : ~ lang Nothing s.
Proof. intros H. inversion H. Qed.

Lemma nullable_spec r : nullable r = true <-> lang r "".
Proof.
  induction r; simpl.
  - split; [discriminate | intros H; inversion H].
  - split; [constructor | reflexivity].
  - split; [discriminate | intros H; inversion H].
  - split; [discriminate | intros H; inversion H].
  - rewrite andb_true_iff, IHr1, IHr2, lang_cat_inv. split.
    + intros [H1 H2]. now exists "", "".
    + intros [s1 [s2 [E [H1 H2]]]].
      destruct s1; [|discriminate]. destruct s2; [|discriminate]. now split.
  - rewrite orb_true_iff, IHr1, IHr2, lang_alt_inv. tauto.
  - split; [constructor | reflexivity].
Qed.

(** A repetition that matches a text which is not empty starts with a
    match of its body that is not empty. *)
Lemma lang_star_cons r c s :
  lang (Star r) (String c s) ->
  exists s1 s2, s = s1 ++ s2 /\ lang r (String c s1) /\ lang (Star r) s2.
Proof.
  intros H. remember (Star r) as r' eqn:Er. remember (String c s) as t eqn:Et.
  revert c s Et. induction H; intros c' s' Et; try discriminate.
  inversion Er; subst r0. clear Er.
  destruct s1 as [|d s1].
  - simpl in Et. apply IHlang2; auto.
  - simpl in Et. inversion Et; subst. now exists s1, s2.
Qed.

Lemma deriv_spec c r : forall s, lang (deriv c r) s <-> lang r (String c s).
Proof.
  induction r; intros s; simpl.
  - split; intros H; inversion H.
  - split; intros H; inversion H.
  - destruct (c =? c0)%char eqn:E.
    + apply Ascii.eqb_eq in E. subst. rewrite lang_eps_inv, lang_chr_inv.
      split; [now intros -> | intros H; now inversion H].
    + apply Ascii.eqb_neq in E. rewrite lang_chr_inv.
      split; [intros H; inversion H | intros H; inversion H; congruence].
  - destruct (c =? c0)%char eqn:E.
    + apply Ascii.eqb_eq in E. subst. rewrite lang_other_inv.
      split; [intros H; inversion H|].
      intros [d [Hd H]]. inversion H; congruence.
    + apply Ascii.eqb_neq in E. rewrite lang_eps_inv, lang_other_inv.
      split; [intros ->; now exists c|].
      intros [d [Hd H]]. now inversion H.
  - assert (Hcat : lang (Cat (deriv c r1) r2) s <->
                   exists s1 s2, s = s1 ++ s2 /\ lang r1 (String c s1)
                                 /\ lang r2 s2).
    { rewrite lang_cat_inv. split; intros [s1 [s2 [E [H1 H2]]]];
        exists s1, s2; (split; [exact E|]); (split; [|exact H2]);
        now apply IHr1. }
    destruct (nullable r1) eqn:En.
    + rewrite lang_alt_inv, Hcat, IHr2, lang_cat_inv. split.
      * intros [[s1 [s2 [-> [H1 H2]]]] | H].
        -- now exists (String c s1), s2.
        -- exists "", (String c s). split; [reflexivity|]. split; [|exact H].
           now apply nullable_spec.
      * intros [s1 [s2 [E [H1 H2]]]]. destruct s1 as [|d s1]; simpl in E.
        -- right. now subst.
        -- left. inversion E; subst. now exists s1, s2.
    + rewrite Hcat, lang_cat_inv. split.
      * intros [s1 [s2 [-> [H1 H2]]]]. now exists (String c s1), s2.
      * intros [s1 [s2 [E [H1 H2]]]]. destruct s1 as [|d s1]; simpl in E.
        -- apply nullable_spec in H1. congruence.
        -- inversion E; subst. now exists s1, s2.
  - rewrite !lang_alt_inv, IHr1, IHr2. tauto.
  - rewrite lang_cat_inv. split.
    + intros [s1 [s2 [-> [H1 H2]]]]. apply IHr in H1.
      change (String c (s1 ++ s2)) with (String c s1 ++ s2).
      now constructor.
    + intros H. apply lang_star_cons in H as [s1 [s2 [-> [H1 H2]]]].
      exists s1, s2. split; [reflexivity|]. split; [now apply IHr | exact H2].
Qed.

(** The matcher decides the language. *)
Lemma accepts_spec s : forall r, accepts r s = true <-> lang r s.
Proof.
  induction s as [|c s IH]; intros r; simpl.
  - apply nullable_spec.
  - rewrite IH. apply deriv_spec.
Qed.

Lemma lang_lit_inv p : forall s, lang (Lit p) s <-> s = p.
Proof.
  induction p as [|c p IH]; intros s; simpl.
  - apply lang_eps_inv.
  - rewrite lang_cat_inv. split.
    + intros [s1 [s2 [-> [H1 H2]]]]. apply lang_chr_inv in H1.
      apply IH in H2. now subst.
    + intros ->. exists (String c ""), p. split; [reflexivity|].
      split; [constructor | now apply IH].
Qed.

Lemma lang_opt_inv r s : lang (Opt r) s <-> s = "" \/ lang r s.
Proof. unfold Opt. now rewrite lang_alt_inv, lang_eps_inv. Qed.

(** [$]: the whole text, or the text but a newline that ends it. *)
Lemma re_match_spec r s :
  re_match r s = true <-> lang r s \/ exists t, s = t ++ nl /\ lang r t.
Proof.
  unfold re_match. rewrite accepts_spec, lang_cat_inv. split.
  - intros [s1 [s2 [-> [H1 H2]]]]. apply lang_opt_inv in H2 as [-> | H2].
    + left. now rewrite append_empty.
    + right. apply lang_chr_inv in H2. subst. now exists s1.
  - intros [H | [t [-> H]]].
    + exists s, "". rewrite append_empty. split; [reflexivity|].
      split; [exact H | apply lang_opt_inv; now left].
    + exists t, nl. split; [reflexivity|]. split; [exact H|].
      apply lang_opt_inv. right. constructor.
Qed.

Lemma re_match_incl (r1 r2 : re) :
  (forall s, lang r1 s -> lang r2 s) ->
  forall s, re_match r1 s = true -> re_match r2 s = true.
Proof.
  intros Hi s. rewrite !re_match_spec.
  intros [H | [t [E H]]]; [left | right; exists t]; auto.
Qed.

End RegexFacts.

Module HostFacts.
Import PyStr PyStrFacts Regex RegexFacts Url UrlFacts Hosts.

Lemma count_slash_cons c s :
  count_slash (String c s)
  = if (c =? slash)%char then S (count_slash s) else count_slash s.
Proof. reflexivity. Qed.

Lemma count_slash_app a b :
  count_slash (a ++ b) = (count_slash a + count_slash b)%nat.
Proof.
  induction a as [|c a IH]; [reflexivity|].
  change (String c a ++ b) with (String c (a ++ b)).
  rewrite !count_slash_cons, IH. now destruct (c =? slash)%char.
Qed.

Lemma count_slash_contains s :
  count_slash s = 0%nat <-> contains "/" s = false.
Proof.
  induction s as [|c s IH]; [now split|].
  rewrite count_slash_cons, contains_slash_cons.
  destruct (c =? slash)%char; simpl; [split; discriminate | exact IH].
Qed.

(** One part more than there are separators. *)
Lemma split_length s :
  List.length (split slash s) = S (count_slash s).
Proof.
  induction s as [|c s IH]; [reflexivity|].
  rewrite split_cons, count_slash_cons.
  destruct (c =? slash)%char; [simpl; now rewrite IH|].
  destruct (split slash s) as [|x r] eqn:E; [now destruct (split_nonempty slash s)|].
  simpl in *. exact IH.
Qed.

Lemma lang_star_other s :
  lang (Star (Other slash)) s <-> count_slash s = 0%nat.
Proof.
  split.
  - intros H. remember (Star (Other slash)) as r eqn:Er.
    induction H; try discriminate; [reflexivity|].
    inversion Er; subst r. rewrite count_slash_app, (IHlang2 eq_refl).
    apply lang_other_inv in H as [d [Hd ->]].
    rewrite count_slash_cons. apply Ascii.eqb_neq in Hd. now rewrite Hd.
  - induction s as [|c s IH]; [constructor|].
    rewrite count_slash_cons. destruct (c =? slash)%char eqn:E; [discriminate|].
    intros H. change (String c s) with (String c "" ++ s).
    constructor; [|now apply IH].
    constructor. now apply Ascii.eqb_neq.
Qed.

(** [[^/]+]: a text that is not empty and has no [/]. *)
Lemma lang_seg_inv s : lang seg s <-> s <> "" /\ count_slash s = 0%nat.
Proof.
  unfold seg, Plus. rewrite lang_cat_inv. split.
  - intros [s1 [s2 [-> [H1 H2]]]]. apply lang_other_inv in H1 as [d [Hd ->]].
    split; [discriminate|].
    rewrite count_slash_app. apply lang_star_other in H2. rewrite H2.
    rewrite count_slash_cons. apply Ascii.eqb_neq in Hd. now rewrite Hd.
  - intros [Hne H]. destruct s as [|c s]; [contradiction|].
    rewrite count_slash_cons in H.
    destruct (c =? slash)%char eqn:E; [discriminate|].
    exists (String c ""), s. split; [reflexivity|].
    split; [constructor; now apply Ascii.eqb_neq | now apply lang_star_other].
Qed.

Lemma lang_seg_app a b : lang seg a -> count_slash b = 0%nat -> lang seg (a ++ b).
Proof.
  rewrite !lang_seg_inv. intros [Hne Ha] Hb. split.
  - destruct a; [contradiction | discriminate].
  - rewrite count_slash_app. lia.
Qed.

Lemma lang_seg_app_l a b : count_slash a = 0%nat -> lang seg b -> lang seg (a ++ b).
Proof.
  rewrite !lang_seg_inv. intros Ha [Hne Hb]. split.
  - destruct a; [exact Hne | discriminate].
  - rewrite count_slash_app. lia.
Qed.

Lemma lang_tail_inv s : lang tail s <-> s = "" \/ s = "/".
Proof. unfold tail. now rewrite lang_opt_inv, lang_chr_inv. Qed.

Lemma lang_scheme_inv s : lang scheme s <-> s = "http://" \/ s = "https://".
Proof.
  unfold scheme. rewrite lang_cat_inv. split.
  - intros [s1 [s2 [-> [H1 H2]]]]. apply lang_lit_inv in H1. subst s1.
    apply lang_cat_inv in H2 as [t1 [t2 [-> [H1 H2]]]].
    apply lang_lit_inv in H2. subst t2.
    apply lang_opt_inv in H1 as [-> | H1]; [now left|].
    apply lang_chr_inv in H1. subst. now right.
  - intros [-> | ->].
    + exists "http", "://". split; [reflexivity|].
      split; [now apply lang_lit_inv|].
      apply lang_cat_inv. exists "", "://". split; [reflexivity|].
      split; [apply lang_opt_inv; now left | now apply lang_lit_inv].
    + exists "http", "s://". split; [reflexivity|].
      split; [now apply lang_lit_inv|].
      apply lang_cat_inv. exists "s", "://". split; [reflexivity|].
      split; [apply lang_opt_inv; right; constructor | now apply lang_lit_inv].
Qed.

Lemma scheme_count s : lang scheme s -> count_slash s = 2%nat.
Proof. rewrite lang_scheme_inv. now intros [-> | ->]. Qed.

Lemma tail_count s : lang tail s -> (count_slash s <= 1)%nat.
Proof. rewrite lang_tail_inv. intros [-> | ->]; simpl; lia. Qed.

(** The generic pattern: scheme, host, [/], name, and a [/] or nothing. *)
Lemma lang_gitea_inv s :
  lang gitea s <->
  exists sch h n t,
    s = sch ++ h ++ "/" ++ n ++ t
    /\ lang scheme sch /\ lang seg h /\ lang seg n /\ lang tail t.
Proof.
  unfold gitea. split.
  - intros H.
    apply lang_cat_inv in H as [sch [s1 [-> [Hs H]]]].
    apply lang_cat_inv in H as [h [s2 [-> [Hh H]]]].
    apply lang_cat_inv in H as [l [s3 [-> [Hl H]]]].
    apply lang_cat_inv in H as [n [t [-> [Hn Ht]]]].
    apply lang_lit_inv in Hl. subst l. now exists sch, h, n, t.
  - intros [sch [h [n [t [-> [Hs [Hh [Hn Ht]]]]]]]].
    repeat (constructor; [assumption|]).
    constructor; [now apply lang_lit_inv|]. now constructor.
Qed.

Lemma gitea_count s : lang gitea s -> (count_slash s <= 4)%nat.
Proof.
  rewrite lang_gitea_inv.
  intros [sch [h [n [t [-> [Hs [Hh [Hn Ht]]]]]]]].
  rewrite !count_slash_app, (scheme_count _ Hs).
  apply lang_seg_inv in Hh as [_ ->]. apply lang_seg_inv in Hn as [_ ->].
  apply tail_count in Ht. simpl. lia.
Qed.

Lemma aws_count s : lang aws s -> (5 <= count_slash s)%nat.
Proof.
  unfold aws. intros H.
  apply lang_cat_inv in H as [sch [s1 [-> [Hs H]]]].
  apply lang_cat_inv in H as [l1 [s2 [-> [Hl1 H]]]].
  apply lang_cat_inv in H as [r [s3 [-> [Hr H]]]].
  apply lang_cat_inv in H as [l2 [s4 [-> [Hl2 H]]]].
  apply lang_lit_inv in Hl1, Hl2. subst l1 l2.
  rewrite !count_slash_app, (scheme_count _ Hs). simpl. lia.
Qed.

Lemma count_slash_nl s : count_slash (s ++ nl) = count_slash s.
Proof. rewrite count_slash_app. simpl. lia. Qed.

(** No text matches both the pattern of [aws] and the generic one. *)
Lemma aws_not_gitea url :
  re_match gitea url = true -> re_match aws url = false.
Proof.
  intros Hg. destruct (re_match aws url) eqn:Ha; [|reflexivity].
  apply re_match_spec in Hg, Ha.
  assert (H4 : (count_slash url <= 4)%nat).
  { destruct Hg as [H | [t [-> H]]]; [|rewrite count_slash_nl];
      now apply gitea_count. }
  assert (H5 : (5 <= count_slash url)%nat).
  { destruct Ha as [H | [t [-> H]]]; [|rewrite count_slash_nl];
      now apply aws_count. }
  lia.
Qed.

(** A pattern of the shape scheme, host, [/], name, tail is an instance of
    the generic one. *)
Lemma shape_in_gitea sch h n t :
  lang scheme sch -> lang seg h -> lang seg n -> lang tail t ->
  lang gitea (sch ++ h ++ "/" ++ n ++ t).
Proof. intros. apply lang_gitea_inv. now exists sch, h, n, t. Qed.

Lemma www_host_in_gitea (host : string) s :
  count_slash host = 0%nat -> host <> "" ->
  lang (Cat scheme (Cat (Opt (Lit "www."))
                        (Cat (Lit (host ++ "/")) (Cat seg tail)))) s ->
  lang gitea s.
Proof.
  intros Hc Hne H.
  apply lang_cat_inv in H as [sch [s1 [-> [Hs H]]]].
  apply lang_cat_inv in H as [w [s2 [-> [Hw H]]]].
  apply lang_cat_inv in H as [l [s3 [-> [Hl H]]]].
  apply lang_cat_inv in H as [n [t [-> [Hn Ht]]]].
  apply lang_lit_inv in Hl. subst l.
  replace (sch ++ w ++ (host ++ "/") ++ n ++ t)
    with (sch ++ (w ++ host) ++ "/" ++ n ++ t)
    by (now rewrite !append_assoc).
  apply shape_in_gitea; auto.
  apply lang_seg_app_l; [|apply lang_seg_inv; now split].
  apply lang_opt_inv in Hw as [-> | Hw]; [reflexivity|].
  apply lang_lit_inv in Hw. now subst.
Qed.

Lemma github_in_gitea s : lang github s -> lang gitea s.
Proof. now apply (www_host_in_gitea "github.com"). Qed.

Lemma gitlab_in_gitea s : lang gitlab s -> lang gitea s.
Proof. now apply (www_host_in_gitea "gitlab.com"). Qed.

Lemma bitbucket_in_gitea s : lang bitbucket s -> lang gitea s.
Proof. now apply (www_host_in_gitea "bitbucket.org"). Qed.

Lemma azure_in_gitea s : lang azure s -> lang gitea s.
Proof.
  unfold azure. intros H.
  apply lang_cat_inv in H as [sch [s1 [-> [Hs H]]]].
  apply lang_cat_inv in H as [h [s2 [-> [Hh H]]]].
  apply lang_cat_inv in H as [l [s3 [-> [Hl H]]]].
  apply lang_cat_inv in H as [n [t [-> [Hn Ht]]]].
  apply lang_lit_inv in Hl. subst l.
  replace (sch ++ h ++ ".visualstudio.com/" ++ n ++ t)
    with (sch ++ (h ++ ".visualstudio.com") ++ "/" ++ n ++ t)
    by (now rewrite !append_assoc).
  apply shape_in_gitea; auto. now apply lang_seg_app.
Qed.

Lemma sourcehut_in_gitea s : lang sourcehut s -> lang gitea s.
Proof.
  unfold sourcehut. intros H.
  apply lang_cat_inv in H as [sch [s1 [-> [Hs H]]]].
  apply lang_cat_inv in H as [g [s2 [-> [Hg H]]]].
  apply lang_cat_inv in H as [l [s3 [-> [Hl H]]]].
  apply lang_cat_inv in H as [n [t [-> [Hn Ht]]]].
  apply lang_lit_inv in Hl. subst l.
  replace (sch ++ g ++ ".sr.ht/~" ++ n ++ t)
    with (sch ++ (g ++ ".sr.ht") ++ "/" ++ ("~" ++ n) ++ t)
    by (now rewrite !append_assoc).
  apply shape_in_gitea; auto.
  - apply lang_seg_app; [|reflexivity].
    apply lang_alt_inv in Hg as [Hg | Hg]; apply lang_lit_inv in Hg; subst;
      apply lang_seg_inv; now split.
  - now apply lang_seg_app_l.
Qed.

Lemma launchpad_in_gitea s : lang launchpad s -> lang gitea s.
Proof.
  unfold launchpad. intros H.
  apply lang_cat_inv in H as [sch [s1 [-> [Hs H]]]].
  apply lang_cat_inv in H as [l [s3 [-> [Hl H]]]].
  apply lang_cat_inv in H as [n [t [-> [Hn Ht]]]].
  apply lang_lit_inv in Hl. subst l.
  change (sch ++ "launchpad.net/" ++ n ++ t)
    with (sch ++ "launchpad.net" ++ "/" ++ n ++ t).
  apply shape_in_gitea; auto. apply lang_seg_inv. now split.
Qed.

(** What the loop over the patterns returns, by the first that matches. *)
Lemma first_match_cases url :
  (re_match gitea url = false /\ re_match aws url = false
   /\ first_match git_host_patterns url = None)
  \/ (re_match gitea url = false /\ re_match aws url = true
      /\ first_match git_host_patterns url = Some "aws")
  \/ (re_match gitea url = true /\ re_match aws url = false
      /\ exists h, first_match git_host_patterns url = Some h
                   /\ In h ["github"; "gitlab"; "bitbucket"; "azure"; "gitea"]).
Proof.
  pose proof (re_match_incl _ _ github_in_gitea url) as H1.
  pose proof (re_match_incl _ _ gitlab_in_gitea url) as H2.
  pose proof (re_match_incl _ _ bitbucket_in_gitea url) as H3.
  pose proof (re_match_incl _ _ azure_in_gitea url) as H4.
  pose proof (re_match_incl _ _ sourcehut_in_gitea url) as H5.
  pose proof (re_match_incl _ _ launchpad_in_gitea url) as H6.
  pose proof (aws_not_gitea url) as H7.
  unfold git_host_patterns. cbn [first_match].
  change (re_match custom url) with (re_match gitea url).
  destruct (re_match gitea url) eqn:Eg.
  - right; right. rewrite (H7 eq_refl). split; [reflexivity|].
    split; [reflexivity|].
    destruct (re_match github url); [exists "github"; split; [reflexivity | simpl; tauto]|].
    destruct (re_match gitlab url); [exists "gitlab"; split; [reflexivity | simpl; tauto]|].
    destruct (re_match bitbucket url); [exists "bitbucket"; split; [reflexivity | simpl; tauto]|].
    destruct (re_match azure url); [exists "azure"; split; [reflexivity | simpl; tauto]|].
    exists "gitea"; split; [reflexivity | simpl; tauto].
  - destruct (re_match github url) eqn:E1; [specialize (H1 eq_refl); congruence|].
    destruct (re_match gitlab url) eqn:E2; [specialize (H2 eq_refl); congruence|].
    destruct (re_match bitbucket url) eqn:E3; [specialize (H3 eq_refl); congruence|].
    destruct (re_match azure url) eqn:E4; [specialize (H4 eq_refl); congruence|].
    destruct (re_match sourcehut url) eqn:E5; [specialize (H5 eq_refl); congruence|].
    destruct (re_match launchpad url) eqn:E6; [specialize (H6 eq_refl); congruence|].
    destruct (re_match aws url); [right; left | left]; auto.
Qed.

(** A text of the generic shape has four parts once the [/] at its end are
    gone. *)
Lemma gitea_parts url : lang gitea url -> parts_count url = 4.
Proof.
  rewrite lang_gitea_inv.
  intros [sch [h [n [t [-> [Hs [Hh [Hn Ht]]]]]]]].
  unfold parts_count.
  assert (Hr : rstrip_slash (sch ++ h ++ "/" ++ n ++ t) = sch ++ h ++ "/" ++ n).
  { apply lang_seg_inv in Hn as [Hne Hn]. apply count_slash_contains in Hn.
    replace (sch ++ h ++ "/" ++ n ++ t) with ((sch ++ h ++ "/" ++ n) ++ t)
      by (now rewrite !append_assoc).
    apply lang_tail_inv in Ht as [-> | ->].
    - rewrite append_empty.
      replace (sch ++ h ++ "/" ++ n) with ((sch ++ h ++ "/") ++ n)
        by (now rewrite !append_assoc).
      now apply rstrip_slash_keeps.
    - rewrite rstrip_slash_trailing.
      replace (sch ++ h ++ "/" ++ n) with ((sch ++ h ++ "/") ++ n)
        by (now rewrite !append_assoc).
      now apply rstrip_slash_keeps. }
  rewrite Hr, split_length, !count_slash_app, (scheme_count _ Hs).
  apply lang_seg_inv in Hh as [_ ->]. apply lang_seg_inv in Hn as [_ ->].
  reflexivity.
Qed.

(** A generic text with a [/] and a newline at its end has five parts. *)
Lemma gitea_slash_nl_parts sch h n :
  lang scheme sch -> lang seg h -> lang seg n ->
  parts_count (sch ++ h ++ "/" ++ n ++ "/" ++ nl) = 5.
Proof.
  intros Hs Hh Hn. unfold parts_count.
  replace (sch ++ h ++ "/" ++ n ++ "/" ++ nl)
    with ((sch ++ h ++ "/" ++ n ++ "/") ++ nl)
    by (now rewrite !append_assoc).
  rewrite rstrip_slash_keeps; [|discriminate|reflexivity].
  rewrite split_length, !count_slash_app, (scheme_count _ Hs).
  apply lang_seg_inv in Hh as [_ ->]. apply lang_seg_inv in Hn as [_ ->].
  reflexivity.
Qed.

(** The flag a host of the list carries is the test on the parts. *)
Lemma flag_of_listed url h :
  In h ["github"; "gitlab"; "bitbucket"; "azure"; "gitea"] ->
  first_match git_host_patterns url = Some h ->
  is_git_host_user_url url = (parts_count url <=? 4, h).
Proof.
  intros Hin E. unfold is_git_host_user_url. rewrite E.
  simpl in Hin.
  destruct Hin as [<- | [<- | [<- | [<- | [<- | []]]]]]; reflexivity.
Qed.

End HostFacts.

Module HostTheorems.
Import PyStr PyStrFacts Regex RegexFacts Url UrlFacts Hosts HostFacts.

(** X27.  [is_git_host_user_url] never answers with the host types
    [sourcehut], [launchpad] or [custom]: every URL their patterns match is
    matched by the generic pattern of [gitea], which stands before them in
    [git_host_patterns], so the loop returns there or earlier. *)
Theorem shadowed_host_types (url : string) :
  let host_type := snd (is_git_host_user_url url) in
  host_type <> "sourcehut" /\ host_type <> "launchpad"
  /\ host_type <> "custom".
Proof.
  cbv zeta.
  destruct (first_match_cases url)
    as [[_ [_ E]] | [[_ [_ E]] | [_ [_ [h [E Hin]]]]]].
  - unfold is_git_host_user_url. rewrite E. simpl. repeat split; discriminate.
  - unfold is_git_host_user_url. rewrite E. simpl. repeat split; discriminate.
  - rewrite (flag_of_listed url h Hin E). simpl in *.
    destruct Hin as [<- | [<- | [<- | [<- | [<- | []]]]]];
      repeat split; discriminate.
Qed.

(** X28.  [is_git_host_user_url] says user URL exactly for the texts
    that, as a whole, have the generic shape: [http://] or [https://], a
    host without [/], a [/], a name without [/], and at most one [/] after
    it.  The test on the number of parts never turns such a URL down, and
    the answer for an [aws] URL is never user URL. *)
Theorem user_url_exactly (url : string) :
  fst (is_git_host_user_url url) = true <-> lang gitea url.
Proof.
  destruct (first_match_cases url)
    as [[Eg [_ E]] | [[Eg [_ E]] | [Eg [_ [h [E Hin]]]]]].
  - unfold is_git_host_user_url. rewrite E. simpl.
    split; [discriminate|]. intros H.
    assert (re_match gitea url = true) by (apply re_match_spec; now left).
    congruence.
  - unfold is_git_host_user_url. rewrite E. simpl.
    split; [discriminate|]. intros H.
    assert (re_match gitea url = true) by (apply re_match_spec; now left).
    congruence.
  - rewrite (flag_of_listed url h Hin E). cbn [fst]. split.
    + intros Hp. apply re_match_spec in Eg as [H | [t [-> H]]]; [exact H|].
      apply lang_gitea_inv in H
        as [sch [h' [n [tl [-> [Hs [Hh [Hn Ht]]]]]]]].
      apply lang_tail_inv in Ht as [-> | ->].
      * rewrite append_empty.
        replace ((sch ++ h' ++ "/" ++ n) ++ nl)
          with (sch ++ h' ++ "/" ++ (n ++ nl) ++ "")
          by (now rewrite append_empty, !append_assoc).
        apply shape_in_gitea; auto.
        -- now apply lang_seg_app.
        -- apply lang_tail_inv. now left.
      * replace ((sch ++ h' ++ "/" ++ n ++ "/") ++ nl)
          with (sch ++ h' ++ "/" ++ n ++ "/" ++ nl) in Hp
          by (now rewrite !append_assoc).
        rewrite (gitea_slash_nl_parts sch h' n Hs Hh Hn) in Hp. discriminate.
    + intros H. now rewrite (gitea_parts url H).
Qed.

End HostTheorems.
